(** * The raycaster widget: a shallow embedding of
      [examples/raycaster/raycaster/raycaster.py]

    The development follows the Python source function by function:
    [RayCaster.resize], [RayCaster.cast_ray] and [RayCaster.render].  Two
    smaller modules come before it: [Widget], the base widget of
    [nurses_2/widgets/widget.py] whose [render] paints the children, and
    [FlatToggle], the animated toggle of [batgrl/gadgets/flat_toggle.py].
    Their theorems are at the end, in [WidgetFacts] and [FlatToggleFacts].

    Numbers.  numpy's floating-point scalars are modelled by [num]: exact
    rationals extended with the IEEE special values (the two infinities and
    NaN), with the IEEE rules for the special values and for comparisons.
    The operations are exact, except at the two places where the rounding of
    a [float64] result decides an integer: the quotient [height / distance]
    that [int] truncates to the height of a column, and the remainder [% 1]
    of a negative number, which can be 1.0.  There the result is rounded to
    53 significant bits, ties to even ([round64]; the exponent range is not
    modelled).  The sign of zero is not modelled (a non-zero number divided
    by zero is the infinity with the sign of the numerator).
    The power [np.e ** x] is irrational; it is a parameter of the model (class
    [Exp]).  Integers ([int], [np.int16], shapes and indices) are [Z] and
    [nat], with the [int16] wrap-around written out.

    Errors.  A Python exception is a [Raise] result; the state it leaves behind
    is not modelled (the host discards a frame that raised). *)

From Stdlib Require Import ZArith QArith Qround Qabs Qpower Lia Lqa.
From stdpp Require Import base option list.

Open Scope Z_scope.

(** ** Python exceptions as results *)

Inductive exn := IndexError | ZeroDivisionError | ValueError | OverflowError.

Inductive result (A : Type) :=
| Ok (a : A)
| Raise (e : exn).
Arguments Ok {A} a.
Arguments Raise {A} e.

#[global] Instance result_ret : MRet result := fun _ a => Ok a.
#[global] Instance result_bind : MBind result := fun _ _ f r =>
  match r with Ok a => f a | Raise e => Raise e end.

(** ** Numbers *)

Module Num.

Inductive num := Fin (q : Q) | Inf (neg : bool) | NaN.

Definition of_Z (z : Z) : num := Fin (inject_Z z).

Definition qneg (q : Q) : bool := Qnum q <? 0.
Definition qzero (q : Q) : bool := Qnum q =? 0.

Definition opp (x : num) : num :=
  match x with
  | Fin q => Fin (Qred (- q))
  | Inf s => Inf (negb s)
  | NaN => NaN
  end.

Definition add (x y : num) : num :=
  match x, y with
  | NaN, _ | _, NaN => NaN
  | Fin a, Fin b => Fin (Qred (a + b))
  | Inf s, Fin _ | Fin _, Inf s => Inf s
  | Inf s, Inf t => if Bool.eqb s t then Inf s else NaN
  end.

Definition sub (x y : num) : num := add x (opp y).

Definition mul (x y : num) : num :=
  match x, y with
  | NaN, _ | _, NaN => NaN
  | Fin a, Fin b => Fin (Qred (a * b))
  | Inf s, Fin b | Fin b, Inf s => if qzero b then NaN else Inf (xorb s (qneg b))
  | Inf s, Inf t => Inf (xorb s t)
  end.

Definition div (x y : num) : num :=
  match x, y with
  | NaN, _ | _, NaN => NaN
  | Fin a, Fin b =>
      if qzero b then (if qzero a then NaN else Inf (qneg a))
      else Fin (Qred (a / b))
  | Fin _, Inf _ => Fin 0
  | Inf s, Fin b => Inf (xorb s (qneg b))
  | Inf _, Inf _ => NaN
  end.

(** [x < y]; false as soon as one side is NaN. *)
Definition ltb (x y : num) : bool :=
  match x, y with
  | NaN, _ | _, NaN => false
  | Fin a, Fin b => negb (Qle_bool b a)
  | Fin _, Inf s => negb s
  | Inf s, Fin _ => s
  | Inf s, Inf t => s && negb t
  end.

(** [bool(x)] of a float: false exactly for zero (NaN is truthy). *)
Definition truthy (x : num) : bool :=
  match x with Fin q => negb (qzero q) | _ => true end.

(** [np.absolute]. *)
Definition abs (x : num) : num :=
  match x with
  | Fin q => Fin (if qneg q then Qred (- q) else q)
  | Inf _ => Inf false
  | NaN => NaN
  end.

(** Truncation toward zero of a rational. *)
Definition qtrunc (q : Q) : Z := Z.quot (Qnum q) (Zpos (Qden q)).

(** [int16] wrap-around. *)
Definition wrap16 (z : Z) : Z := (z + 32768) mod 65536 - 32768.

(** The C cast of a float to [int16] (what [ray_pos[:] = camera_pos] and the
    [casting="unsafe"] of [np.sign] do); a non-finite value is cast to 0. *)
Definition to_int16 (x : num) : Z :=
  match x with Fin q => wrap16 (qtrunc q) | _ => 0 end.

(** [np.sign] written into an [int16] buffer. *)
Definition sign16 (x : num) : Z :=
  match x with
  | Fin q => Z.sgn (Qnum q)
  | Inf s => if s then -1 else 1
  | NaN => 0
  end.

(** [np.heaviside(x, 1.0)] of an integer. *)
Definition heaviside1 (x : Z) : num := if x <? 0 then of_Z 0 else of_Z 1.

(** *** Rounding *)

(** The largest [k] with [2 ^ k <= q], for [q > 0]. *)
Definition ilog2 (q : Q) : Z :=
  let k := Z.log2 (Qnum q) - Z.log2 (Zpos (Qden q)) in
  if Qle_bool (2 ^ k) q then k else k - 1.

(** The integer nearest to [q], the even one of two. *)
Definition nearest_even (q : Q) : Z :=
  let f := Qfloor q in
  match (q - inject_Z f ?= 1 # 2)%Q with
  | Lt => f
  | Gt => f + 1
  | Eq => if Z.even f then f else f + 1
  end.

(** The multiple of [2 ^ (ilog2 q - 52)] nearest to [q > 0]: the number
    with 53 significant bits nearest to [q]. *)
Definition round_pos (q : Q) : Q :=
  let ulp := (2 ^ (ilog2 q - 52))%Q in
  (inject_Z (nearest_even (q / ulp)) * ulp)%Q.

(** What a [float64] operation returns for the exact result [q]. *)
Definition round64 (q : Q) : Q :=
  let q := Qred q in
  match Qnum q with
  | Z0 => 0%Q
  | Zpos _ => Qred (round_pos q)
  | Zneg _ => Qred (- round_pos (- q))
  end.

Definition float64 (x : num) : num :=
  match x with Fin q => Fin (round64 q) | _ => x end.

(** [x % 1] and [np.mod(x, 1.0)]: the remainder [fmod(x, 1)] of the
    division truncated toward zero, which is exact and has the sign of
    [x], moved up by one when it is negative.  That sum is rounded: the
    result lies in [0, 1], and is 1.0 for a negative [x] of magnitude up
    to [2 ^ -54]. *)
Definition mod1 (x : num) : num :=
  match x with
  | Fin q =>
      let r := Qred (q - inject_Z (qtrunc q)) in
      Fin (if qneg r then round64 (r + 1) else r)
  | _ => NaN
  end.

(** Python's [int(x)] of a float. *)
Definition py_int (x : num) : result Z :=
  match x with
  | Fin q => Ok (qtrunc q)
  | Inf _ => Raise OverflowError
  | NaN => Raise ValueError
  end.

(** [.astype(int)]: the C cast to [int64]; a non-finite value gives the
    smallest [int64]. *)
Definition astype_int (x : num) : Z :=
  match x with Fin q => qtrunc q | _ => - 2 ^ 63 end.

(** The C cast of a float to [uint8], done when a float array is stored in
    the [uint8] color buffer. *)
Definition to_uint8 (x : num) : Z :=
  match x with Fin q => qtrunc q mod 256 | _ => 0 end.

(** [np.clip(x, lo, hi)] = [minimum(maximum(x, lo), hi)]; NaN propagates. *)
Definition clip (x lo hi : num) : num :=
  match x with
  | NaN => NaN
  | _ => let y := if ltb x lo then lo else x in
         if ltb hi y then hi else y
  end.

(** [np.e ** x] *)
Class Exp := pow_e : num -> num.

End Num.
Import Num.

(** ** Python and numpy indexing *)

(** An index [i] into a sequence of length [n]: negative indices count from
    the end, anything else out of range raises [IndexError]. *)
Definition py_index (n : nat) (i : Z) : result nat :=
  if (0 <=? i) && (i <? Z.of_nat n) then Ok (Z.to_nat i)
  else if (- Z.of_nat n <=? i) && (i <? 0) then Ok (Z.to_nat (Z.of_nat n + i))
  else Raise IndexError.

Definition item {A} (l : list A) (i : Z) : result A :=
  k ← py_index (length l) i;
  match l !! k with Some a => Ok a | None => Raise IndexError end.

(** A slice bound [i] on a sequence of length [n]: negative bounds count from
    the end, and the bound is clamped to the sequence. *)
Definition slice_bound (n : nat) (i : Z) : nat :=
  if i <? 0 then Z.to_nat (Z.max 0 (Z.of_nat n + i))
  else Z.to_nat (Z.min i (Z.of_nat n)).

(** [np.linspace(start, stop, num)] (endpoint included) *)
Definition linspace (start stop : num) (n : nat) : list num :=
  match n with
  | O => []
  | S O => [start]
  | S m =>
      let step := div (sub stop start) (of_Z (Z.of_nat m)) in
      List.map (fun i => if Nat.eqb i m then stop
                         else add (mul (of_Z (Z.of_nat i)) step) start)
               (seq 0 n)
  end.

(** [np.linspace(start, stop, num, endpoint=False)] for [num >= 0]. *)
Definition linspace_excl (start stop : num) (n : nat) : list num :=
  let step := div (sub stop start) (of_Z (Z.of_nat n)) in
  List.map (fun i => add (mul (of_Z (Z.of_nat i)) step) start) (seq 0 n).

(** ** Data model *)

(** An RGB triple of [uint8] values. *)
Definition color := (Z * Z * Z)%type.

(** A [uint8] array of shape [(length rows, shape1, 3)]: a texture, or the
    color buffer [_colors]. *)
Record image := { shape1 : nat; rows : list (list color) }.

Definition shape0 (a : image) : nat := length (rows a).

Definition get_px (a : image) (r c : nat) : option color :=
  rows a !! r ≫= (.!! c).

Definition set_px (r c : nat) (v : color) (a : image) : image :=
  {| shape1 := shape1 a; rows := alter (<[c := v]>) r (rows a) |}.

(** A sequence of element stores, first to last. *)
Definition store (ws : list (nat * nat * color)) (a : image) : image :=
  foldl (fun a w => set_px w.1.1 w.1.2 w.2 a) a ws.

(** The two axes of the map; [side] in the source is [0] or [1]. *)
Inductive side_t := side0 | side1.

#[global] Instance side_eq_dec : EqDecision side_t.
Proof. solve_decision. Defined.

Definition other (side : side_t) : side_t :=
  match side with side0 => side1 | side1 => side0 end.

Definition at2 {A} (p : A * A) (side : side_t) : A :=
  match side with side0 => p.1 | side1 => p.2 end.

Definition set2 {A} (p : A * A) (side : side_t) (a : A) : A * A :=
  match side with side0 => (a, p.2) | side1 => (p.1, a) end.

(** [Camera]: the position and the 2x2 matrix whose rows are the view
    direction and the camera plane. *)
Record Camera := { pos : num * num; plane : (num * num) * (num * num) }.

(** * The base widget: a shallow embedding of [nurses_2/widgets/widget.py]

    A widget owns a canvas of characters and an array of color pairs of the
    same first two dimensions, a position in its parent, and a list of
    children; [render] paints the children, first to last, into the canvas
    and the colors of the widget.  The objects of the source are mutable and
    shared; here [render] returns the painted widget together with its
    painted children. *)

Module Widget.

(** A numpy array of two dimensions (the six color channels of [colors]
    are kept together as one element): its second dimension and its
    rows. *)
Record array (A : Type) := { shape1 : nat; rows : list (list A) }.
Arguments shape1 {A} _.
Arguments rows {A} _.

Definition shape0 {A} (a : array A) : nat := length (rows a).

(** [a[y, x]] for indices that are not negative. *)
Definition at_ {A} (a : array A) (y x : nat) : option A :=
  rows a !! y ≫= (.!! x).

(** [np.full(dim, v)] *)
Definition full {A} (dim : nat * nat) (v : A) : array A :=
  {| shape1 := dim.2; rows := replicate dim.1 (replicate dim.2 v) |}.

(** The rows or columns [lo:hi] of a dimension of length [n]: the first
    one, and how many there are. *)
Definition span (n : nat) (s : Z * Z) : nat * nat :=
  let start := slice_bound n s.1 in
  (start, slice_bound n s.2 - start)%nat.

(** [a[rs, cs]] for two slices. *)
Definition slice {A} (a : array A) (rs cs : Z * Z) : array A :=
  let '(r0, h) := span (shape0 a) rs in
  let '(c0, w) := span (shape1 a) cs in
  {| shape1 := w;
     rows := (fun row => take w (drop c0 row)) <$> take h (drop r0 (rows a)) |}.

(** The cells of [dest[rs, cs]] replaced by what [f] gives for their
    place in the slice and their old value. *)
Definition update {A} (dest : array A) (rs cs : nat * nat)
    (f : nat -> nat -> A -> A) : array A :=
  {| shape1 := shape1 dest;
     rows := imap (fun y row =>
               imap (fun x v =>
                 if decide ((rs.1 <= y < rs.1 + rs.2)%nat /\
                            (cs.1 <= x < cs.1 + cs.2)%nat)
                 then f (y - rs.1)%nat (x - cs.1)%nat v
                 else v) row) (rows dest) |}.

(** [dest[rs, cs] = src]: the shapes must agree, except that a dimension
    of length one of [src] is broadcast. *)
Definition assign {A} (dest : array A) (rs cs : Z * Z) (src : array A)
  : result (array A) :=
  let rows_ := span (shape0 dest) rs in
  let cols := span (shape1 dest) cs in
  if decide ((shape0 src = rows_.2 \/ shape0 src = 1%nat) /\
             (shape1 src = cols.2 \/ shape1 src = 1%nat))
  then Ok (update dest rows_ cols (fun i j v =>
             default v (at_ src (if decide (shape0 src = 1%nat) then 0%nat else i)
                                (if decide (shape1 src = 1%nat) then 0%nat else j))))
  else Raise ValueError.

(** [dest[rs, cs][mask] = src[mask]] for a boolean array [mask]: it must
    have the shape of [src] and of the slice of [dest]. *)
Definition assign_masked {A} (dest : array A) (rs cs : Z * Z)
    (mask : array bool) (src : array A) : result (array A) :=
  let rows_ := span (shape0 dest) rs in
  let cols := span (shape1 dest) cs in
  if decide ((shape0 mask = shape0 src /\ shape1 mask = shape1 src) /\
             (shape0 mask = rows_.2 /\ shape1 mask = cols.2))
  then Ok (update dest rows_ cols (fun i j v =>
             match at_ mask i j with
             | Some true => default v (at_ src i j)
             | _ => v
             end))
  else Raise IndexError.

(** The character [" "], as its code point. *)
Definition space : Z := 32.

(** A widget: characters are code points, a color pair is a foreground
    and a background color. *)
#[warnings="-register-all"]
Inductive t := Build {
  top : Z;
  left : Z;
  is_transparent : bool;
  is_visible : bool;
  canvas : array Z;
  colors : array (color * color);
  children : list t
}.

(** [__init__] *)
Definition new (dim : nat * nat) (pos : Z * Z) (is_transparent is_visible : bool)
    (default_color : color * color) : t :=
  {| top := pos.1; left := pos.2; is_transparent := is_transparent;
     is_visible := is_visible; canvas := full dim space;
     colors := full dim default_color; children := [] |}.

Definition height (w : t) : Z := Z.of_nat (shape0 (canvas w)).
Definition width (w : t) : Z := Z.of_nat (shape1 (canvas w)).
Definition bottom (w : t) : Z := top w + height w.
Definition right (w : t) : Z := left w + width w.
Definition middle (w : t) : Z * Z :=
  (top w + height w / 2, left w + width w / 2).

Definition with_arrays (w : t) (canvas : array Z)
    (colors : array (color * color)) : t :=
  {| top := top w; left := left w; is_transparent := is_transparent w;
     is_visible := is_visible w; canvas := canvas; colors := colors;
     children := children w |}.

Definition with_children (w : t) (children : list t) : t :=
  {| top := top w; left := left w; is_transparent := is_transparent w;
     is_visible := is_visible w; canvas := canvas w; colors := colors w;
     children := children |}.

(** *** [_render_child] *)

(** Child is not visible or off-screen. *)
Definition off_screen (h w : Z) (child : t) : bool :=
  negb (is_visible child) || (top child >=? h) || (bottom child <? 0)
  || (left child >=? w) || (right child <? 0).

(** The source and the destination of one dimension: [(st, sb)] in the
    child and [(dt, db)] in the parent, for a child from [ct] to [cb]
    that has [child_height] rows, in a parent of [h] rows. *)
Definition overlap (h ct cb child_height : Z) : (Z * Z) * (Z * Z) :=
  if ct <? 0 then
    let st := - ct in
    let dt := 0 in
    if cb >=? h then ((st, h + st), (dt, h))
    else ((st, child_height), (dt, cb))
  else
    let st := 0 in
    let dt := ct in
    if cb >=? h then ((st, h - dt), (dt, h))
    else ((st, child_height), (dt, cb)).

(** The painting at the end of [_render_child], with the two
    rectangles. *)
Definition paint (self child : t) (dest_rect source_rect : (Z * Z) * (Z * Z))
  : result (t * t) :=
  if is_transparent child then
    (* " " isn't painted if child is transparent. *)
    let source := slice (canvas child) source_rect.1 source_rect.2 in
    let visible : array bool :=
      {| shape1 := shape1 source;
         rows := (fun row : list Z => (fun c => negb (c =? space)) <$> row)
                 <$> rows source |} in
    canvas' ← assign_masked (canvas self) dest_rect.1 dest_rect.2 visible
                source;
    colors' ← assign_masked (colors self) dest_rect.1 dest_rect.2 visible
                (slice (colors child) source_rect.1 source_rect.2);
    Ok (with_arrays self canvas' colors', child)
  else
    canvas' ← assign (canvas self) dest_rect.1 dest_rect.2
                (slice (canvas child) source_rect.1 source_rect.2);
    colors' ← assign (colors self) dest_rect.1 dest_rect.2
                (slice (colors child) source_rect.1 source_rect.2);
    Ok (with_arrays self canvas' colors', child).

(** Render child and paint child's canvas into our own.  [render] is the
    child's own [render]; the result is the painted widget and the
    rendered child. *)
Definition _render_child (render : t -> result t) (self child : t)
  : result (t * t) :=
  let h := Z.of_nat (shape0 (canvas self)) in
  let w := Z.of_nat (shape1 (canvas self)) in
  let ct := top child in
  let cb := bottom child in
  let cl := left child in
  let cr := right child in
  if off_screen h w child then Ok (self, child)
  else
    child ← render child;
    let '((st, sb), (dt, db)) := overlap h ct cb (height child) in
    let '((sl, sr), (dl, dr)) := overlap w cl cr (width child) in
    let dest_rect := ((dt, db), (dl, dr)) in
    let source_rect := ((st, sb), (sl, sr)) in
    paint self child dest_rect source_rect.

Section Loop.
(** The [render] of the children. *)
Variable render : t -> result t.

(** [for child in self.children: render_child(child)]: the result is
    the painted widget and the rendered children. *)
Fixpoint render_children (self : t) (children : list t)
  : result (t * list t) :=
  match children with
  | [] => Ok (self, [])
  | child :: children =>
      '(self, child) ← _render_child render self child;
      '(self, children) ← render_children self children;
      Ok (self, child :: children)
  end.

End Loop.

(** Paint canvas. *)
Fixpoint render (self : t) : result t :=
  '(self', children) ← render_children render self (children self);
  Ok (with_children self' children).

(** The canvas and the colors are arrays of one shape, with rows of one
    length. *)
Definition rectangular {A} (a : array A) : Prop :=
  Forall (fun row => length row = shape1 a) (rows a).

Definition well_formed (w : t) : Prop :=
  rectangular (canvas w) /\ rectangular (colors w) /\
  shape0 (colors w) = shape0 (canvas w) /\
  shape1 (colors w) = shape1 (canvas w).

(** The position, the flags and the shapes of the arrays. *)
Definition geometry (w : t) :=
  (top w, left w, is_transparent w, is_visible w,
   shape0 (canvas w), shape1 (canvas w), shape0 (colors w), shape1 (colors w)).

(** What a parent shows of a child at the parent's cell [(y, x)]: the
    child's element there, if the child has one and it is not a space of a
    transparent child. *)
Definition shown {A} (child : t) (a : array A) (y x : nat) : option A :=
  let i := Z.of_nat y - top child in
  let j := Z.of_nat x - left child in
  if (0 <=? i) && (0 <=? j) then
    c ← at_ (canvas child) (Z.to_nat i) (Z.to_nat j);
    if is_transparent child && (c =? space) then None
    else at_ a (Z.to_nat i) (Z.to_nat j)
  else None.

(** The children that are painted into a parent of [h] rows and [w]
    columns: the visible ones that are on its screen. *)
Definition painted (h w : Z) (children : list t) : list t :=
  filter (fun child => off_screen h w child = false) children.

(** What a cell that held [old] shows when the widgets [cs] have been
    painted over it, first to last. *)
Definition composite {A} (a : t -> array A) (cs : list t) (y x : nat)
    (old : A) : A :=
  foldl (fun v child => default v (shown child (a child) y x)) old cs.

(** The number of widgets of a tree. *)
Fixpoint size (w : t) : nat :=
  S (foldr (fun child n => (size child + n)%nat) 0%nat (children w)).

(** *** The children of a widget *)

Section Children.
(** The widgets are compared as objects: [A] stands for their
    identities. *)
Context {A : Type} `{EqDecision A}.

(** [list.remove]: the first occurrence is removed. *)
Fixpoint list_remove (x : A) (l : list A) : result (list A) :=
  match l with
  | [] => Raise ValueError
  | y :: l => if decide (x = y) then Ok l
              else l' ← list_remove x l; Ok (y :: l')
  end.

(** Add a child widget. *)
Definition add_widget (children : list A) (widget : A) : list A :=
  children ++ [widget].

(** Remove widget. *)
Definition remove_widget (children : list A) (widget : A)
  : result (list A) :=
  list_remove widget children.

(** Move widget to end of widget stack so that it is drawn last. *)
Definition pull_to_front (children : list A) (widget : A)
  : result (list A) :=
  children ← list_remove widget children;
  Ok (children ++ [widget]).

End Children.

(** *** Sample widgets *)

Definition white_on_black : color * color := ((255, 255, 255), (0, 0, 0)).
Definition black_on_white : color * color := ((0, 0, 0), (255, 255, 255)).

(** A 3 x 4 parent, and a 2 x 3 child of the letter [x] at (2, 3): only
    its first cell lies on the parent. *)
Definition screen : t := new (3%nat, 4%nat) (0, 0) false true white_on_black.

Definition patch : t :=
  {| top := 2; left := 3; is_transparent := false; is_visible := true;
     canvas := full (2%nat, 3%nat) 120; colors := full (2%nat, 3%nat) black_on_white;
     children := [] |}.

(** A transparent 2 x 2 child over the last two rows and columns of the
    parent: a space and the letter [o] in each row. *)
Definition corner : t :=
  {| top := 1; left := 2; is_transparent := true; is_visible := true;
     canvas := {| shape1 := 2; rows := [[space; 111]; [space; 111]] |};
     colors := full (2%nat, 2%nat) white_on_black; children := [] |}.

(** The parent with the two children, painted. *)
Definition desk : t :=
  match render (with_children screen [patch; corner]) with
  | Ok w => w
  | Raise _ => screen
  end.

End Widget.

(** * The animated toggle: a shallow embedding of
      [batgrl/gadgets/flat_toggle.py]

    [_AnimatedToggle] keeps the place of the knob in [_animation_progess],
    an index into [TOGGLE_BLOCK], and moves it in an asyncio task that
    sleeps after every frame.  The task is modelled by what is left of it at
    a sleep; the event loop resumes it, and [on_toggle] and [on_remove]
    cancel it. *)

Module FlatToggle.

Inductive ToggleState := ON | OFF.

(** ["▊▋▌▍▎▏"], as code points. *)
Definition TOGGLE_BLOCK : list Z := [9610; 9611; 9612; 9613; 9614; 9615].

(** The two colors of the knob. *)
Inductive knob_color := GREEN | LIGHT_GREY.

(** [range(start, stop, step)] for a step that is not zero. *)
Definition py_range (start stop step : Z) : list Z :=
  let n := if 0 <? step then (stop - start + step - 1) / step
           else (start - stop - step - 1) / (- step) in
  (fun k => start + Z.of_nat k * step) <$> seq 0 (Z.to_nat n).

(** [_animation_task]: the dummy task of [__init__], or the task of
    [_animate_toggle] before its first step, at one of its sleeps (with
    the rest of the range), after its end, or cancelled. *)
Inductive task :=
| Dummy
| Pending
| Sleeping (r : list Z)
| Finished
| Cancelled.

Record t := {
  toggle_state : ToggleState;
  _animation_progess : Z;
  (* the character of [canvas[1, 1:3]] *)
  block : Z;
  (* [colors[1, 1, :3]] and [colors[1, 2, 3:]] *)
  knob : knob_color;
  _animation_task : task;
  (* the arguments [parent.callback] was called with *)
  callbacks : list ToggleState
}.

(** [__init__] *)
Definition new (toggle_state : ToggleState) : t :=
  match toggle_state with
  | ON => {| toggle_state := ON; _animation_progess := 0; block := 9610;
             knob := GREEN; _animation_task := Dummy; callbacks := [] |}
  | OFF => {| toggle_state := OFF; _animation_progess := 5; block := 9615;
              knob := LIGHT_GREY; _animation_task := Dummy; callbacks := [] |}
  end.

(** The loop of [_animate_toggle] from one sleep to the next, for the
    rest [r] of the range; after the loop, the callback. *)
Definition turn (s : t) (r : list Z) : result t :=
  match r with
  | [] =>
      Ok {| toggle_state := toggle_state s;
            _animation_progess := _animation_progess s; block := block s;
            knob := knob s; _animation_task := Finished;
            callbacks := callbacks s ++ [toggle_state s] |}
  | i :: r =>
      c ← item TOGGLE_BLOCK i;
      Ok {| toggle_state := toggle_state s; _animation_progess := i;
            block := c; knob := knob s; _animation_task := Sleeping r;
            callbacks := callbacks s |}
  end.

(** [_animate_toggle] up to its first sleep. *)
Definition _animate_toggle (s : t) : result t :=
  let paint (k : knob_color) :=
    {| toggle_state := toggle_state s;
       _animation_progess := _animation_progess s; block := block s;
       knob := k; _animation_task := _animation_task s;
       callbacks := callbacks s |} in
  match toggle_state s with
  | ON => turn (paint GREEN) (py_range (_animation_progess s - 1) (-1) (-1))
  | OFF => turn (paint LIGHT_GREY) (py_range (_animation_progess s + 1) 6 1)
  end.

(** The event loop runs the task up to its next sleep. *)
Definition resume (s : t) : result t :=
  match _animation_task s with
  | Pending => _animate_toggle s
  | Sleeping r => turn s r
  | _ => Ok s
  end.

Definition with_task (s : t) (k : task) : t :=
  {| toggle_state := toggle_state s;
     _animation_progess := _animation_progess s; block := block s;
     knob := knob s; _animation_task := k; callbacks := callbacks s |}.

(** [task.cancel()]: a task that has ended stays as it is. *)
Definition cancel (k : task) : task :=
  match k with
  | Dummy | Pending | Sleeping _ => Cancelled
  | Finished | Cancelled => k
  end.

Definition on_remove (s : t) : t := with_task s (cancel (_animation_task s)).

(** [on_toggle], once the toggle is initialized: the task is cancelled and
    a new one is created. *)
Definition on_toggle (s : t) : t := with_task s Pending.

(** The toggle button behavior assigns the state and calls [on_toggle]. *)
Definition set_toggle_state (s : t) (st : ToggleState) : t :=
  on_toggle
    {| toggle_state := st; _animation_progess := _animation_progess s;
       block := block s; knob := knob s;
       _animation_task := _animation_task s; callbacks := callbacks s |}.

(** What happens to a toggle. *)
Inductive event :=
| Toggle (st : ToggleState)
| Resume
| Remove.

Definition step (s : t) (e : event) : result t :=
  match e with
  | Toggle st => Ok (set_toggle_state s st)
  | Resume => resume s
  | Remove => Ok (on_remove s)
  end.

Inductive reachable : t -> Prop :=
| reach_new st : reachable (new st)
| reach_step s e s' : reachable s -> step s e = Ok s' -> reachable s'.

(** [n] turns of the event loop. *)
Fixpoint run (n : nat) (s : t) : result t :=
  match n with
  | O => Ok s
  | S n => s ← resume s; run n s
  end.

(** Where the knob rests in a state. *)
Definition rest (st : ToggleState) : Z :=
  match st with ON => 0 | OFF => 5 end.

(** What holds of a toggle all along: the progress is an index of
    [TOGGLE_BLOCK], the canvas shows the block of that index, and a
    sleeping task has only such indices left. *)
Definition invariant (s : t) : Prop :=
  0 <= _animation_progess s <= 5 /\
  item TOGGLE_BLOCK (_animation_progess s) = Ok (block s) /\
  forall r, _animation_task s = Sleeping r -> Forall (fun i => 0 <= i <= 5) r.

End FlatToggle.

Module RayCaster.

Record t := {
  map : list (list Z);
  camera : Camera;
  textures : list image;
  light_textures : list image;
  ceiling : option image;
  ceiling_color : color;
  floor : option image;
  floor_color : color;
  (* the widget's dimensions and its packed (height, width, 6) colors *)
  height : nat;
  width : nat;
  colors : list (list (color * color));
  (* buffers *)
  _pos_int : Z * Z;
  _pos_frac : num * num;
  _colors : image;
  _ray_angles : list (num * num);
  _rotated_angles : list (num * num);
  _deltas : list (num * num);
  _sides : list (num * num);
  _steps : list (Z * Z);
  _distances : list num
}.

(** How far rays are cast. *)
Definition HOPS : nat := 20.

Definition with_colors (s : t) (packed : list (list (color * color))) : t :=
  {| map := map s; camera := camera s; textures := textures s;
     light_textures := light_textures s; ceiling := ceiling s;
     ceiling_color := ceiling_color s; floor := floor s;
     floor_color := floor_color s; height := height s; width := width s;
     colors := packed;
     _pos_int := _pos_int s; _pos_frac := _pos_frac s; _colors := _colors s;
     _ray_angles := _ray_angles s; _rotated_angles := _rotated_angles s;
     _deltas := _deltas s; _sides := _sides s; _steps := _steps s;
     _distances := _distances s |}.

Definition with__colors (s : t) (a : image) : t :=
  {| map := map s; camera := camera s; textures := textures s;
     light_textures := light_textures s; ceiling := ceiling s;
     ceiling_color := ceiling_color s; floor := floor s;
     floor_color := floor_color s; height := height s; width := width s;
     colors := colors s;
     _pos_int := _pos_int s; _pos_frac := _pos_frac s; _colors := a;
     _ray_angles := _ray_angles s; _rotated_angles := _rotated_angles s;
     _deltas := _deltas s; _sides := _sides s; _steps := _steps s;
     _distances := _distances s |}.

(** The in-place effect of the casting loop on the buffers: row [column] of
    [_sides] and the whole of [_pos_int]. *)
Definition with_ray (s : t) (column : nat) (sides : num * num)
    (ray_pos : Z * Z) : t :=
  {| map := map s; camera := camera s; textures := textures s;
     light_textures := light_textures s; ceiling := ceiling s;
     ceiling_color := ceiling_color s; floor := floor s;
     floor_color := floor_color s; height := height s; width := width s;
     colors := colors s;
     _pos_int := ray_pos; _pos_frac := _pos_frac s; _colors := _colors s;
     _ray_angles := _ray_angles s; _rotated_angles := _rotated_angles s;
     _deltas := _deltas s; _sides := <[column := sides]> (_sides s);
     _steps := _steps s; _distances := _distances s |}.

(** *** [resize] *)

(** [np.full((height << 1, width, 3), 0, dtype=np.uint8)] *)
Definition blank (h w : nat) : image :=
  {| shape1 := w; rows := replicate h (replicate w (0, 0, 0)) |}.

(** [angles = np.ones((width, 2)); angles[:, 1] = np.linspace(-1, 1, width)] *)
Definition ray_angles (width : nat) : list (num * num) :=
  List.map (fun x => (of_Z 1, x)) (linspace (of_Z (-1)) (of_Z 1) width).

(** [height / np.linspace(.001, height, num=height, endpoint=False)] *)
Definition floor_distances (height : nat) : list num :=
  List.map (fun x => div (of_Z (Z.of_nat height)) x)
    (linspace_excl (Fin (1 # 1000)) (of_Z (Z.of_nat height)) height).

(** [super().resize(dim)] belongs to the host widget: it gives the widget
    the dimensions [dim] and a packed color array of that shape. *)
Definition resize (dim : nat * nat) (s : t) : t :=
  let height := dim.1 in
  let width := dim.2 in
  let angles := ray_angles width in
  let zeros := replicate (length angles) (of_Z 0, of_Z 0) in
  {| map := map s; camera := camera s; textures := textures s;
     light_textures := light_textures s; ceiling := ceiling s;
     ceiling_color := ceiling_color s; floor := floor s;
     floor_color := floor_color s; height := height; width := width;
     colors := replicate height (replicate width ((0, 0, 0), (0, 0, 0)));
     _pos_int := _pos_int s; _pos_frac := _pos_frac s;
     _colors := blank (Z.to_nat (Z.of_nat height ≪ 1)) width;
     _ray_angles := angles;
     _rotated_angles := zeros;
     _deltas := zeros;
     _sides := zeros;
     _steps := replicate (length angles) (0, 0);
     _distances := floor_distances height |}.

(** *** [cast_ray]: casting *)

(** [map[tuple(ray_pos)]] *)
Definition map_at (m : list (list Z)) (ray_pos : Z * Z) : result Z :=
  r ← py_index (length m) ray_pos.1;
  match m !! r with
  | None => Raise IndexError
  | Some row => item row ray_pos.2
  end.

(** How the casting loop ends: without a wall ([for ... else]), or at the
    first non-zero cell; with the final [sides] and [ray_pos]. *)
Inductive cast :=
| NoWall (sides : num * num) (ray_pos : Z * Z)
| Wall (side : side_t) (texture_index : Z) (sides : num * num)
       (ray_pos : Z * Z).

(** [side = 0 if sides[0] < sides[1] else 1] *)
Definition next_side (sides : num * num) : side_t :=
  if ltb sides.1 sides.2 then side0 else side1.

(** [ray_pos[side] += step[side]] on [int16] *)
Definition hop (step ray_pos : Z * Z) (side : side_t) : Z * Z :=
  set2 ray_pos side (wrap16 (at2 ray_pos side + at2 step side)).

Fixpoint casting (hops : nat) (m : list (list Z)) (delta : num * num)
    (step : Z * Z) (sides : num * num) (ray_pos : Z * Z) : result cast :=
  match hops with
  | O => Ok (NoWall sides ray_pos)
  | S hops' =>
      let side := next_side sides in
      let sides := set2 sides side (add (at2 sides side) (at2 delta side)) in
      let ray_pos := hop step ray_pos side in
      texture_index ← map_at m ray_pos;
      if texture_index =? 0 then casting hops' m delta step sides ray_pos
      else Ok (Wall side texture_index sides ray_pos)
  end.

(** The coordinates the loop passes to [map[...]], in order (the last one
    is the one that ended the loop, by a wall or by an [IndexError]). *)
Fixpoint probes (hops : nat) (m : list (list Z)) (delta : num * num)
    (step : Z * Z) (sides : num * num) (ray_pos : Z * Z) : list (Z * Z) :=
  match hops with
  | O => []
  | S hops' =>
      let side := next_side sides in
      let sides := set2 sides side (add (at2 sides side) (at2 delta side)) in
      let ray_pos := hop step ray_pos side in
      ray_pos ::
        match map_at m ray_pos with
        | Ok 0 => probes hops' m delta step sides ray_pos
        | _ => []
        end
  end.

(** *** [cast_ray]: rendering *)

(** Perpendicular distance from wall to camera plane. *)
Definition hit_distance (camera_pos : num * num) (step : Z * Z)
    (ray_angle : num * num) (ray_pos : Z * Z) (side : side_t) : num :=
  div (add (sub (of_Z (at2 ray_pos side)) (at2 camera_pos side))
           (of_Z (if at2 step side =? 1 then 0 else 1)))
      (at2 ray_angle side).

(** [int(height / distance) if distance else 1000]; the quotient is a
    [float64]. *)
Definition column_height_of (height : Z) (distance : num) : result Z :=
  if truthy distance then py_int (float64 (div (of_Z height) distance))
  else Ok 1000.

(** [half_column], clamped to [half_height]. *)
Definition half_column_of (height column_height : Z) : Z :=
  let half_height := height ≫ 1 in
  let half_column := column_height ≫ 1 in
  if half_height <? half_column then half_height else half_column.

(** Exactly where the wall was hit, as a fraction of its width. *)
Definition wall_x_of (camera_pos : num * num) (distance : num)
    (ray_angle : num * num) (side : side_t) : num :=
  mod1 (add (at2 camera_pos (other side))
            (mul distance (at2 ray_angle (other side)))).

(** The column of the texture, with the sign correction. *)
Definition tex_x_of (side : side_t) (wall_x : num) (tex_w : Z)
    (ray_angle : num * num) : result Z :=
  tex_x ← py_int (mul wall_x (of_Z tex_w));
  if ltb (mul (of_Z (match side with side1 => -1 | side0 => 1 end))
              (at2 ray_angle side)) (of_Z 0)
  then Ok (tex_w - tex_x - 1)
  else Ok tex_x.

(** The rows of the texture interpolated onto the column
    ([np.linspace(..., dtype=int)]; the values are not negative, where
    truncation and floor agree). *)
Definition tex_ys_of (tex_h column_height drawn_height : Z) : result (list Z) :=
  let offset := div (of_Z (column_height - drawn_height)) (of_Z 2) in
  if column_height =? 0 then Raise ZeroDivisionError
  else
    let ratio := div (of_Z tex_h) (of_Z column_height) in
    let texture_start := mul offset ratio in
    let texture_end := mul (add offset (of_Z drawn_height)) ratio in
    if drawn_height <? 0 then Raise ValueError
    else Ok (astype_int <$>
               linspace_excl texture_start texture_end (Z.to_nat drawn_height)).

(** One element [a[y, x]] of an indexing with index arrays. *)
Definition px_at (a : image) (yx : Z * Z) : result color :=
  r ← py_index (shape0 a) yx.1;
  c ← py_index (shape1 a) yx.2;
  match get_px a r c with Some v => Ok v | None => Raise IndexError end.

(** [texture[tex_ys, tex_x]] *)
Definition sample_column (texture : image) (tex_ys : list Z) (tex_x : Z)
  : result (list color) :=
  mapM (fun y => px_at texture (y, tex_x)) tex_ys.

(** [texture[ys, xs]] *)
Definition sample (texture : image) (ys xs : list Z) : result (list color) :=
  mapM (px_at texture) (zip ys xs).

(** The cells [(r, c)] of rows [lo <= r < hi] in column [c]. *)
Definition column_cells (lo hi c : nat) : list (nat * nat) :=
  (fun r => (r, c)) <$> seq lo (hi - lo).

(** [a[lo:hi, column] = vals] for an array [vals] of colors: the lengths
    must agree, except that a single color is broadcast. *)
Definition assign_column (a : image) (lo hi : nat) (column : Z)
    (vals : list color) : result image :=
  c ← py_index (shape1 a) column;
  let cells := column_cells lo hi c in
  if decide (length vals = length cells) then Ok (store (zip cells vals) a)
  else match vals with
       | [v] => Ok (store ((., v) <$> cells) a)
       | _ => Raise ValueError
       end.

(** [a[lo:hi, column] = v] for one color [v]. *)
Definition fill_column (a : image) (lo hi : nat) (column : Z) (v : color)
  : result image :=
  c ← py_index (shape1 a) column;
  Ok (store ((., v) <$> column_cells lo hi c) a).

(** [a[lo:hi] = v] for one color [v]. *)
Definition fill_rows (a : image) (lo hi : nat) (v : color) : image :=
  store ((., v) <$> (r ← seq lo (hi - lo); (fun c => (r, c)) <$> seq 0 (shape1 a))) a.

Section Shading.
Context `{Exp}.

(** Darken colors further away:
    [texture_column *= np.e ** (-distance * .05)], the clip to
    [0, 255], and the cast to [uint8] of the store into [_colors]. *)
Definition darken (distance : num) (c : color) : color :=
  let k := pow_e (mul (opp distance) (Fin (5 # 100))) in
  let shade (v : Z) :=
    to_uint8 (clip (mul (of_Z v) k) (of_Z 0) (of_Z 255)) in
  (shade c.1.1, shade c.1.2, shade c.2).

(** The local variables of the rendering part of [cast_ray]. *)
Record strip := {
  distance : num;
  column_height : Z;
  half_column : Z;
  start : Z;
  end_ : Z;
  texture : image;
  wall_x : num;
  tex_x : Z;
  tex_ys : list Z;
  texture_column : list color
}.

Definition wall_strip (s : t) (ray_angle : num * num) (step : Z * Z)
    (side : side_t) (texture_index : Z) (ray_pos : Z * Z) : result strip :=
  let camera_pos := pos (camera s) in
  let distance := hit_distance camera_pos step ray_angle ray_pos side in
  let height := Z.of_nat (shape0 (_colors s)) in
  column_height ← column_height_of height distance;
  let half_height := height ≫ 1 in
  let half_column := half_column_of height column_height in
  let start := half_height - half_column in
  let end_ := half_height + half_column in
  texture ← item (match side with
                  | side1 => textures s
                  | side0 => light_textures s
                  end) (texture_index - 1);
  let tex_h := Z.of_nat (shape0 texture) in
  let tex_w := Z.of_nat (shape1 texture) in
  let wall_x := wall_x_of camera_pos distance ray_angle side in
  tex_x ← tex_x_of side wall_x tex_w ray_angle;
  tex_ys ← tex_ys_of tex_h column_height (end_ - start);
  sampled ← sample_column texture tex_ys tex_x;
  Ok {| distance := distance; column_height := column_height;
        half_column := half_column; start := start; end_ := end_;
        texture := texture; wall_x := wall_x; tex_x := tex_x;
        tex_ys := tex_ys;
        texture_column := darken distance <$> sampled |}.

(** Paint the column: the wall strip, then ceiling and floor. *)
Definition paint (s : t) (column : Z) (ray_angle : num * num)
    (ray_pos : Z * Z) (side : side_t) (st : strip) : result image :=
  let colors := _colors s in
  let n := shape0 colors in
  let lo := slice_bound n (start st) in
  let hi := slice_bound n (end_ st) in
  colors ← assign_column colors lo hi column (texture_column st);
  match ceiling s, floor s with
  | None, None =>
      colors ← fill_column colors 0 lo column (ceiling_color s);
      fill_column colors hi n column (floor_color s)
  | _, _ =>
      let camera_pos := pos (camera s) in
      let edge (a : num) := if ltb a (of_Z 0) then of_Z 1 else of_Z 0 in
      let floor_y :=
        match side with
        | side0 => add (of_Z ray_pos.1) (edge ray_angle.1)
        | side1 => add (of_Z ray_pos.1) (wall_x st)
        end in
      let floor_x :=
        match side with
        | side0 => add (of_Z ray_pos.2) (wall_x st)
        | side1 => add (of_Z ray_pos.2) (edge ray_angle.2)
        end in
      (* Horizontal distances of floor / ceiling *)
      let distances :=
        (fun d => div d (distance st)) <$>
          drop (slice_bound (length (_distances s)) (half_column st))
               (_distances s) in
      let blend (wall cam : num) :=
        (fun d => mod1 (add (mul d wall) (mul (sub (of_Z 1) d) cam)))
          <$> distances in
      let tex_ys := blend floor_y camera_pos.1 in
      let tex_xs := blend floor_x camera_pos.2 in
      let scaled (l : list num) (k : nat) :=
        (fun a => astype_int (mul a (of_Z (Z.of_nat k)))) <$> l in
      colors ←
        match ceiling s with
        | Some ceiling =>
            let ys := scaled tex_ys (shape1 ceiling) in
            let xs := scaled tex_xs (shape0 ceiling) in
            (* Note reversed order from floor *)
            px ← sample ceiling (reverse ys) (reverse xs);
            assign_column colors 0 lo column px
        | None => fill_column colors 0 lo column (ceiling_color s)
        end;
      match floor s with
      | Some floor =>
          let ys := scaled tex_ys (shape1 floor) in
          let xs := scaled tex_xs (shape0 floor) in
          px ← sample floor ys xs;
          assign_column colors hi n column px
      | None => fill_column colors hi n column (floor_color s)
      end
  end.

(** Cast a ray for a given column of the screen. *)
Definition cast_ray (s : t) (column : Z) : result t :=
  let camera_pos := pos (camera s) in
  let ray_pos := (to_int16 camera_pos.1, to_int16 camera_pos.2) in
  ray_angle ← item (_rotated_angles s) column;
  delta ← item (_deltas s) column;
  step ← item (_steps s) column;
  sides ← item (_sides s) column;
  k ← py_index (length (_sides s)) column;
  c ← casting HOPS (map s) delta step sides ray_pos;
  match c with
  | NoWall sides ray_pos => (* No walls in range. *)
      Ok (with_ray s k sides ray_pos)
  | Wall side texture_index sides ray_pos =>
      let s := with_ray s k sides ray_pos in
      st ← wall_strip s ray_angle step side texture_index ray_pos;
      colors ← paint s column ray_angle ray_pos side st;
      Ok (with__colors s colors)
  end.

  (** *** [render] *)

(** The flat ceiling and floor colors written before the rays are cast. *)
Definition prefill (s : t) : image :=
  let colors := _colors s in
  let n := shape0 colors in
  let height := slice_bound n (Z.of_nat (height s)) in
  match ceiling s, floor s with
  | None, None =>
      fill_rows (fill_rows colors 0 height (ceiling_color s))
                height n (floor_color s)
  | None, Some _ => fill_rows colors 0 height (ceiling_color s)
  | Some _, None => fill_rows colors height n (floor_color s)
  | Some _, Some _ => colors
  end.

(** Row [column] of [np.dot(self._ray_angles, camera.plane)] *)
Definition rotate (plane : (num * num) * (num * num)) (angle : num * num)
  : num * num :=
  (add (mul angle.1 plane.1.1) (mul angle.2 plane.2.1),
   add (mul angle.1 plane.1.2) (mul angle.2 plane.2.2)).

(** [np.absolute(np.true_divide(1.0, rotated_angles))] *)
Definition delta_of (angle : num * num) : num * num :=
  (abs (div (of_Z 1) angle.1), abs (div (of_Z 1) angle.2)).

(** [np.sign(rotated_angles)] as [int16] *)
Definition step_of (angle : num * num) : Z * Z :=
  (sign16 angle.1, sign16 angle.2).

(** [(np.heaviside(steps, 1.0) - pos_frac) * steps * deltas] *)
Definition side_of (pos_frac : num * num) (step : Z * Z)
    (delta : num * num) : num * num :=
  let one (f : num) (st : Z) (d : num) :=
    mul (mul (sub (heaviside1 st) f) (of_Z st)) d in
  (one pos_frac.1 step.1 delta.1, one pos_frac.2 step.2 delta.2).

(** The early calculations on rays, vectorized in the source, and the
    pre-filled colors. *)
Definition prepare (s : t) : t :=
  let camera := camera s in
  let rotated_angles := rotate (plane camera) <$> _ray_angles s in
  let deltas := delta_of <$> rotated_angles in
  let steps := step_of <$> rotated_angles in
  let pos_frac := (mod1 (pos camera).1, mod1 (pos camera).2) in
  let sides := zip_with (side_of pos_frac) steps deltas in
  {| map := map s; camera := camera; textures := textures s;
     light_textures := light_textures s; ceiling := ceiling s;
     ceiling_color := ceiling_color s; floor := floor s;
     floor_color := floor_color s; height := height s; width := width s;
     colors := colors s;
     _pos_int := _pos_int s; _pos_frac := pos_frac; _colors := prefill s;
     _ray_angles := _ray_angles s; _rotated_angles := rotated_angles;
     _deltas := deltas; _sides := sides; _steps := steps;
     _distances := _distances s |}.

(** [for column in columns: cast_ray(column)] *)
Fixpoint cast_rays (columns : list nat) (s : t) : result t :=
  match columns with
  | [] => Ok s
  | column :: columns =>
      s ← cast_ray s (Z.of_nat column);
      cast_rays columns s
  end.

(** [np.concatenate((colors[::2], colors[1::2]), axis=-1)]: the rows of
    even index next to the rows of odd index; the two halves must have
    the same shape. *)
Fixpoint pairs_of_rows (l : list (list color))
  : result (list (list (color * color))) :=
  match l with
  | [] => Ok []
  | [_] => Raise ValueError
  | top :: bottom :: l =>
      rest ← pairs_of_rows l;
      Ok (zip top bottom :: rest)
  end.

(** [render]; the host's [super().render] is left out. *)
Definition render (s : t) : result t :=
  s ← cast_rays (seq 0 (width s)) (prepare s);
  packed ← pairs_of_rows (rows (_colors s));
  if decide (length packed = height s ∧ shape1 (_colors s) = width s)
  then Ok (with_colors s packed)
  else Raise ValueError.

End Shading.

(** *** The constructor *)

(** [__init__]: [light_textures or textures], the two position buffers,
    and the first [resize]. *)
Definition new (map : list (list Z)) (camera : Camera)
    (textures : list image) (light_textures : option (list image))
    (ceiling : option image) (ceiling_color : color)
    (floor : option image) (floor_color : color) (dim : nat * nat) : t :=
  resize dim
    {| map := map; camera := camera; textures := textures;
       light_textures :=
         match light_textures with
         | Some (x :: l) => x :: l
         | _ => textures
         end;
       ceiling := ceiling; ceiling_color := ceiling_color;
       floor := floor; floor_color := floor_color;
       height := dim.1; width := dim.2; colors := [];
       _pos_int := (0, 0); _pos_frac := (of_Z 0, of_Z 0);
       _colors := blank 0 0;
       _ray_angles := []; _rotated_angles := []; _deltas := [];
       _sides := []; _steps := []; _distances := [] |}.

(** The host moves the camera between frames. *)
Definition with_camera (s : t) (c : Camera) : t :=
  {| map := map s; camera := c; textures := textures s;
     light_textures := light_textures s; ceiling := ceiling s;
     ceiling_color := ceiling_color s; floor := floor s;
     floor_color := floor_color s; height := height s; width := width s;
     colors := colors s;
     _pos_int := _pos_int s; _pos_frac := _pos_frac s; _colors := _colors s;
     _ray_angles := _ray_angles s; _rotated_angles := _rotated_angles s;
     _deltas := _deltas s; _sides := _sides s; _steps := _steps s;
     _distances := _distances s |}.

(** The states the widget goes through: built by [new], then resized,
    rendered, or given another camera by the host. *)
Inductive reachable `{Exp} : t -> Prop :=
| reach_new map camera textures light_textures ceiling ceiling_color
            floor floor_color dim :
    reachable (new map camera textures light_textures ceiling ceiling_color
                   floor floor_color dim)
| reach_resize s dim : reachable s -> reachable (resize dim s)
| reach_camera s c : reachable s -> reachable (with_camera s c)
| reach_render s s' : reachable s -> render s = Ok s' -> reachable s'.

(** *** What a column sees *)

(** The buffers of a column and the cell of the camera, as [cast_ray]
    reads them before the loop. *)
Definition ray_of (s : t) (column : Z)
  : result ((num * num) * (num * num) * (Z * Z) * (num * num) * (Z * Z)) :=
  let camera_pos := pos (camera s) in
  let ray_pos := (to_int16 camera_pos.1, to_int16 camera_pos.2) in
  ray_angle ← item (_rotated_angles s) column;
  delta ← item (_deltas s) column;
  step ← item (_steps s) column;
  sides ← item (_sides s) column;
  Ok (ray_angle, delta, step, sides, ray_pos).

(** The map coordinates [cast_ray] reads for a column. *)
Definition probes_of (s : t) (column : Z) : result (list (Z * Z)) :=
  '(ray_angle, delta, step, sides, ray_pos) ← ray_of s column;
  Ok (probes HOPS (map s) delta step sides ray_pos).

(** The strip [cast_ray] computes for a column; [None] without a wall. *)
Definition strip_of `{Exp} (s : t) (column : Z) : result (option strip) :=
  '(ray_angle, delta, step, sides, ray_pos) ← ray_of s column;
  c ← casting HOPS (map s) delta step sides ray_pos;
  match c with
  | NoWall _ _ => Ok None
  | Wall side texture_index _ ray_pos =>
      st ← wall_strip s ray_angle step side texture_index ray_pos;
      Ok (Some st)
  end.

(** The two ways [cast_ray] succeeds. *)
Inductive cast_ray_to `{Exp} (s : t) (column : Z) : t -> Prop :=
| cast_no_wall ray_angle delta step sides k sides' ray_pos :
    item (_rotated_angles s) column = Ok ray_angle ->
    item (_deltas s) column = Ok delta ->
    item (_steps s) column = Ok step ->
    item (_sides s) column = Ok sides ->
    py_index (length (_sides s)) column = Ok k ->
    casting HOPS (map s) delta step sides
      (to_int16 (pos (camera s)).1, to_int16 (pos (camera s)).2)
      = Ok (NoWall sides' ray_pos) ->
    cast_ray_to s column (with_ray s k sides' ray_pos)
| cast_wall ray_angle delta step sides k side texture_index sides'
            ray_pos st a :
    item (_rotated_angles s) column = Ok ray_angle ->
    item (_deltas s) column = Ok delta ->
    item (_steps s) column = Ok step ->
    item (_sides s) column = Ok sides ->
    py_index (length (_sides s)) column = Ok k ->
    casting HOPS (map s) delta step sides
      (to_int16 (pos (camera s)).1, to_int16 (pos (camera s)).2)
      = Ok (Wall side texture_index sides' ray_pos) ->
    wall_strip (with_ray s k sides' ray_pos) ray_angle step side
               texture_index ray_pos = Ok st ->
    paint (with_ray s k sides' ray_pos) column ray_angle ray_pos side st
      = Ok a ->
    cast_ray_to s column (with__colors (with_ray s k sides' ray_pos) a).


(** *** The grid *)

(** A coordinate of the grid proper: no wrapped negative index, nothing
    past the last row or column. *)
Definition in_grid (m : list (list Z)) (p : Z * Z) : Prop :=
  0 <= p.1 /\ 0 <= p.2 /\
  exists row, m !! Z.to_nat p.1 = Some row /\ p.2 < Z.of_nat (length row).

Definition in_gridb (m : list (list Z)) (p : Z * Z) : bool :=
  match m !! Z.to_nat p.1 with
  | Some row => (0 <=? p.1) && (0 <=? p.2) && (p.2 <? Z.of_nat (length row))
  | None => false
  end.

(** A cell may be open (zero) only off the border of an [h] x [w] grid. *)
Definition cell_ok (h w r c : nat) (v : Z) : bool :=
  if v =? 0
  then (0 <? r)%nat && (S r <? h)%nat && (0 <? c)%nat && (S c <? w)%nat
  else true.

Fixpoint row_ok (h w r c : nat) (row : list Z) : bool :=
  match row with
  | [] => true
  | v :: row => cell_ok h w r c v && row_ok h w r (S c) row
  end.

Fixpoint rows_ok (h w r : nat) (m : list (list Z)) : bool :=
  match m with
  | [] => true
  | row :: m => (length row =? w)%nat && row_ok h w r 0 row && rows_ok h w (S r) m
  end.

(** A rectangular map, small enough for [int16] coordinates, whose first
    and last rows and columns are all walls. *)
Definition walled (m : list (list Z)) : bool :=
  let h := length m in
  let w := length (default [] (head m)) in
  (Z.of_nat h <=? 32767) && (Z.of_nat w <=? 32767) && rows_ok h w 0 m.

(** *** What a frame depends on *)

(** [s] with other color buffers and another [_pos_int]. *)
Definition reset (s : t) (a : image) (packed : list (list (color * color)))
    (ray_pos : Z * Z) : t :=
  {| map := map s; camera := camera s; textures := textures s;
     light_textures := light_textures s; ceiling := ceiling s;
     ceiling_color := ceiling_color s; floor := floor s;
     floor_color := floor_color s; height := height s; width := width s;
     colors := packed;
     _pos_int := ray_pos; _pos_frac := _pos_frac s; _colors := a;
     _ray_angles := _ray_angles s; _rotated_angles := _rotated_angles s;
     _deltas := _deltas s; _sides := _sides s; _steps := _steps s;
     _distances := _distances s |}.

(** What the host and [resize] give the renderer. *)
Definition inputs (s : t) :=
  (map s, camera s, textures s, light_textures s, ceiling s,
   ceiling_color s, floor s, floor_color s, height s, width s,
   _ray_angles s, _distances s).

Definition same_shape (a b : image) : Prop :=
  shape1 a = shape1 b /\ shape0 a = shape0 b.

(** An operation on the color buffer that looks at nothing but its shape
    and does nothing but store: on every buffer of that shape it succeeds
    with the same stores. *)
Definition oblivious (f : image -> result image) : Prop :=
  forall a a', f a = Ok a' ->
    exists ws, forall b, same_shape b a -> f b = Ok (store ws b).

(** Column [c] of an image, top to bottom. *)
Definition column_of (a : image) (c : nat) : list (option color) :=
  (fun row => row !! c) <$> rows a.

(** *** Sample inputs *)

(** A rational stand-in for [np.e ** x]: the Taylor polynomial of degree 8. *)
Definition exp_series : Exp := fun x =>
  match x with
  | Fin q =>
      Fin (Qred (fold_right
                   (fun k acc => 1 + q * acc / inject_Z (Z.of_nat k))%Q
                   1%Q (seq 1 8)))
  | Inf true => of_Z 0
  | Inf false => Inf false
  | NaN => NaN
  end.

(** An [h] x [w] room: walls of texture 1 all around, open inside. *)
Definition room (h w : nat) : list (list Z) :=
  List.map (fun r =>
    List.map (fun c =>
      if (r =? 0)%nat || (S r =? h)%nat || (c =? 0)%nat || (S c =? w)%nat
      then 1 else 0) (seq 0 w)) (seq 0 h).

(** A texture of one color. *)
Definition solid (h w : nat) (c : color) : image :=
  {| shape1 := w; rows := replicate h (replicate w c) |}.

(** A camera at [(y, x)] looking along the second axis, the camera plane
    along the first. *)
Definition looking_east (y x : Q) : Camera :=
  {| pos := (Fin y, Fin x);
     plane := ((of_Z 0, of_Z 1), (Fin (1 # 2), of_Z 0)) |}.

Definition red := solid 4 4 (200, 0, 0).
Definition light_red := solid 4 4 (250, 0, 0).

(** A 5 x 7 room seen from [(2.5, 1.5)] on a 10 x 3 widget, with flat
    ceiling and floor colors. *)
Definition small_room : t :=
  new (room 5 7) (looking_east (5 # 2) (3 # 2)) [red] (Some [light_red])
      None (1, 1, 1) None (2, 2, 2) (10%nat, 3%nat).

(** The same room a little farther from the east wall. *)
Definition small_room_back : t :=
  with_camera small_room (looking_east (5 # 2) (11 # 8)).

(** A 3 x 12 corridor seen from its west end on a 4 x 3 widget: the east
    wall is 9.5 cells away and the color buffer has 8 rows. *)
Definition corridor : t :=
  new (room 3 12) (looking_east (3 # 2) (3 # 2)) [red] None
      None (1, 1, 1) None (2, 2, 2) (4%nat, 3%nat).

(** A 3 x 30 corridor with textured ceiling and floor on a 4 x 3 widget,
    seen from near its east wall. *)
Definition long_corridor : t :=
  new (room 3 30) (looking_east (3 # 2) (53 # 2)) [red] None
      (Some (solid 2 2 (7, 7, 7))) (1, 1, 1)
      (Some (solid 2 2 (9, 9, 9))) (2, 2, 2) (4%nat, 3%nat).

(** The long corridor one frame later: the first frame is rendered, then
    the host moves the camera to the west end, more than [HOPS] cells from
    the east wall. *)
Definition long_corridor_later : t :=
  match render (H := exp_series) long_corridor with
  | Ok s => with_camera s (looking_east (3 # 2) (3 # 2))
  | Raise _ => long_corridor
  end.

(** A 3 x 3 map without walls. *)
Definition open_field : t :=
  new (replicate 3 (replicate 3 0)) (looking_east (3 # 2) (3 # 2)) [red] None
      None (1, 1, 1) None (2, 2, 2) (4%nat, 3%nat).

(** A camera at [(y, x)] looking along the first axis, the camera plane
    along the second. *)
Definition looking_south (y x : Q) : Camera :=
  {| pos := (Fin y, Fin x);
     plane := ((of_Z 1, of_Z 0), (of_Z 0, Fin (1 # 2))) |}.

(** A 7 x 5 room seen from [(1.5, 2.5)] on a 10 x 3 widget, looking along
    the first axis: the south wall is four cells ahead. *)
Definition south_room : t :=
  new (room 7 5) (looking_south (3 # 2) (5 # 2)) [red] (Some [light_red])
      None (1, 1, 1) None (2, 2, 2) (10%nat, 3%nat).

(** What the ray of column [c] reads before it paints: the map, the camera
    and the column's entries in the buffers. *)
Definition ray_inputs (s : t) (c : nat) :=
  (map s, camera s, _rotated_angles s, _deltas s, _steps s,
   length (_sides s), _sides s !! c).

(** An array whose rows all have its second dimension as their length. *)
Definition rectangular (a : image) : Prop :=
  Forall (fun row => length row = shape1 a) (rows a).



(** A widget built like the long corridor, with the camera at the west
    end from the start. *)
Definition long_corridor_west : t :=
  new (room 3 30) (looking_east (3 # 2) (3 # 2)) [red] None
      (Some (solid 2 2 (7, 7, 7))) (1, 1, 1)
      (Some (solid 2 2 (9, 9, 9))) (2, 2, 2) (4%nat, 3%nat).

(** ** Results and numbers *)

Lemma bind_Ok {A B} (f : A -> result B) (r : result A) (b : B) :
  r ≫= f = Ok b -> exists a, r = Ok a /\ f a = Ok b.
Proof. destruct r as [a|e]; simpl; [eauto | discriminate]. Qed.

Ltac bind_inv H :=
  let a := fresh "a" in
  let E := fresh "E" in
  apply bind_Ok in H; destruct H as (a & E & H).

Lemma qzero_true q : qzero q = true <-> (q == 0)%Q.
Proof.
  unfold qzero, Qeq. simpl. rewrite Z.eqb_eq. lia.
Qed.

Lemma qzero_false q : qzero q = false <-> ~ (q == 0)%Q.
Proof.
  rewrite <- qzero_true. destruct (qzero q); split; congruence.
Qed.

Lemma Qnum_nonneg q : (0 <= q)%Q <-> 0 <= Qnum q.
Proof. unfold Qle. simpl. lia. Qed.

Lemma qtrunc_floor q : (0 <= q)%Q -> qtrunc q = Qfloor q.
Proof.
  intros Hq. apply Qnum_nonneg in Hq. destruct q as [n d]. simpl in *.
  unfold qtrunc. simpl. apply Z.quot_div_nonneg; lia.
Qed.

Lemma qtrunc_nonpos q : (q <= 0)%Q -> qtrunc q <= 0.
Proof.
  intros Hq. unfold Qle in Hq. simpl in Hq. destruct q as [n d].
  unfold qtrunc. simpl in *.
  replace n with (- (- n)) by lia.
  rewrite Z.quot_opp_l by lia.
  pose proof (Z.quot_pos (- n) (Z.pos d)). lia.
Qed.

Lemma Qdiv_nonneg a b : (0 <= a)%Q -> (0 < b)%Q -> (0 <= a / b)%Q.
Proof.
  intros Ha Hb. apply Qle_shift_div_l; [exact Hb|].
  rewrite Qmult_0_l. exact Ha.
Qed.

Lemma Qdiv_nonpos a b : (0 <= a)%Q -> (b < 0)%Q -> (a / b <= 0)%Q.
Proof.
  intros Ha Hb.
  assert (Hnz : ~ (b == 0)%Q) by (intros E; rewrite E in Hb; discriminate).
  assert (E : (a / b == - (a / - b))%Q) by (field; exact Hnz).
  rewrite E.
  assert (0 <= a / - b)%Q.
  { apply Qdiv_nonneg; [exact Ha|].
    apply (Qopp_lt_compat b 0) in Hb. exact Hb. }
  apply (Qopp_le_compat 0) in H. exact H.
Qed.

Lemma shiftr1 z : z ≫ 1 = z / 2.
Proof. rewrite Z.shiftr_div_pow2 by lia. reflexivity. Qed.

(** ** Rounding *)

Lemma pow2_pos k : (0 < 2 ^ k)%Q.
Proof. apply Qpower_0_lt. reflexivity. Qed.

Lemma pow2_Z a : 0 <= a -> (inject_Z (2 ^ a) == 2 ^ a)%Q.
Proof. intros Ha. rewrite (Zpower_Qpower 2 a Ha). reflexivity. Qed.

Lemma Qdiv_lt_lt (n x y d : Q) :
  (0 < y)%Q -> (y <= d)%Q -> (0 <= n)%Q -> (n < x)%Q -> (n / d < x / y)%Q.
Proof.
  intros Hy Hd Hn Hx.
  assert (Hd0 : (0 < d)%Q) by lra.
  apply Qlt_shift_div_r; [exact Hd0|].
  apply Qlt_le_trans with x; [exact Hx|].
  assert (E : (x / y * d == x * (d / y))%Q) by (field; lra).
  rewrite E.
  assert (H1 : (1 <= d / y)%Q) by (apply Qle_shift_div_l; lra).
  nra.
Qed.

Lemma ilog2_spec q :
  (0 < q)%Q -> (2 ^ ilog2 q <= q)%Q /\ (q < 2 ^ (ilog2 q + 1))%Q.
Proof.
  intros Hq. destruct q as [n d].
  assert (Hn : 0 < n) by (unfold Qlt in Hq; simpl in Hq; lia).
  unfold ilog2. cbn [Qnum Qden].
  set (a := Z.log2 n). set (b := Z.log2 (Zpos d)).
  destruct (Z.log2_spec n Hn) as [Ha1 Ha2].
  destruct (Z.log2_spec (Zpos d) (Pos2Z.is_pos d)) as [Hb1 Hb2].
  fold a in Ha1, Ha2. fold b in Hb1, Hb2.
  pose proof (Z.log2_nonneg n) as Ha0. pose proof (Z.log2_nonneg (Zpos d)) as Hb0.
  fold a in Ha0. fold b in Hb0.
  assert (A1 : (2 ^ a <= inject_Z n)%Q)
    by (rewrite <- pow2_Z by lia; rewrite <- Zle_Qle; exact Ha1).
  assert (A2 : (inject_Z n < 2 ^ (a + 1))%Q)
    by (rewrite <- pow2_Z by lia; rewrite <- Zlt_Qlt; exact Ha2).
  assert (B1 : (2 ^ b <= inject_Z (Zpos d))%Q)
    by (rewrite <- pow2_Z by lia; rewrite <- Zle_Qle; exact Hb1).
  assert (B2 : (inject_Z (Zpos d) < 2 ^ (b + 1))%Q)
    by (rewrite <- pow2_Z by lia; rewrite <- Zlt_Qlt; exact Hb2).
  assert (Hnd : (n # d == inject_Z n / inject_Z (Zpos d))%Q) by apply Qmake_Qdiv.
  pose proof (pow2_pos a) as Pa. pose proof (pow2_pos b) as Pb.
  destruct (Qle_bool (2 ^ (a - b)) (n # d)) eqn:E.
  - apply Qle_bool_iff in E. split; [exact E|].
    replace (a - b + 1) with (a + 1 - b) by lia.
    rewrite Qpower_minus by discriminate. rewrite Hnd.
    apply Qdiv_lt_lt; lra.
  - split.
    + replace (a - b - 1) with (a - (b + 1)) by lia.
      rewrite Qpower_minus by discriminate. rewrite Hnd.
      apply Qlt_le_weak.
      pose proof (pow2_pos (b + 1)).
      apply Qlt_shift_div_l; [lra|].
      assert (E1 : (2 ^ a / 2 ^ (b + 1) * inject_Z (Z.pos d)
                    == 2 ^ a * (inject_Z (Z.pos d) / 2 ^ (b + 1)))%Q) by (field; lra).
      rewrite E1.
      assert (H1 : (inject_Z (Z.pos d) / 2 ^ (b + 1) < 1)%Q)
        by (apply Qlt_shift_div_r; lra).
      assert (H2 : (0 < inject_Z (Z.pos d) / 2 ^ (b + 1))%Q)
        by (apply Qlt_shift_div_l; lra).
      nra.
    + replace (a - b - 1 + 1) with (a - b) by lia.
      apply Qnot_le_lt. intros Hle. apply Qle_bool_iff in Hle. congruence.
Qed.

Lemma ilog2_le q1 q2 : (0 < q1)%Q -> (q1 <= q2)%Q -> ilog2 q1 <= ilog2 q2.
Proof.
  intros H1 H12.
  destruct (ilog2_spec q1 H1) as [L1 _].
  destruct (ilog2_spec q2) as [_ L2]; [lra|].
  assert (ilog2 q1 < ilog2 q2 + 1).
  { apply (Qpower_lt_compat_l_inv 2); [lra | reflexivity]. }
  lia.
Qed.

(** The nearest integer is monotone. *)

Lemma nearest_even_bounds q :
  Qfloor q <= nearest_even q <= Qfloor q + 1.
Proof.
  unfold nearest_even. destruct (_ ?= _)%Q; [destruct (Z.even _)|..]; lia.
Qed.

Lemma nearest_even_Z z : nearest_even (inject_Z z) = z.
Proof.
  unfold nearest_even. rewrite Qfloor_Z.
  assert (E : (inject_Z z - inject_Z z ?= 1 # 2)%Q = Lt).
  { rewrite <- Qlt_alt. lra. }
  rewrite E. reflexivity.
Qed.

Lemma nearest_even_le q1 q2 :
  (q1 <= q2)%Q -> nearest_even q1 <= nearest_even q2.
Proof.
  intros H12. pose proof (Qfloor_resp_le _ _ H12) as Hf.
  pose proof (nearest_even_bounds q1) as B1.
  pose proof (nearest_even_bounds q2) as B2.
  destruct (Z.eq_dec (Qfloor q1) (Qfloor q2)) as [E|Hne]; [|lia].
  unfold nearest_even. rewrite <- E.
  destruct (q1 - inject_Z (Qfloor q1) ?= 1 # 2)%Q eqn:C1;
    destruct (q2 - inject_Z (Qfloor q1) ?= 1 # 2)%Q eqn:C2;
    try (destruct (Z.even (Qfloor q1))); try lia;
    exfalso;
    repeat match goal with
           | C : (_ ?= _)%Q = Eq |- _ => apply Qeq_alt in C
           | C : (_ ?= _)%Q = Lt |- _ => apply Qlt_alt in C
           | C : (_ ?= _)%Q = Gt |- _ => apply Qgt_alt in C
           end; lra.
Qed.

(** The rounded number stays in the binade of [q], its upper end
    included. *)

Lemma round_pos_bounds q :
  (0 < q)%Q ->
  (2 ^ ilog2 q <= round_pos q)%Q /\ (round_pos q <= 2 ^ (ilog2 q + 1))%Q.
Proof.
  intros Hq. destruct (ilog2_spec q Hq) as [L1 L2].
  unfold round_pos. set (e := ilog2 q - 52).
  pose proof (pow2_pos e) as Pe.
  assert (E1 : (2 ^ ilog2 q == 2 ^ 52 * 2 ^ e)%Q).
  { rewrite <- Qpower_plus by discriminate. unfold e.
    replace (52 + (ilog2 q - 52)) with (ilog2 q) by lia. reflexivity. }
  assert (E2 : (2 ^ (ilog2 q + 1) == 2 ^ 53 * 2 ^ e)%Q).
  { rewrite <- Qpower_plus by discriminate. unfold e.
    replace (53 + (ilog2 q - 52)) with (ilog2 q + 1) by lia. reflexivity. }
  assert (Hlo : (inject_Z (2 ^ 52) <= q / 2 ^ e)%Q).
  { apply Qle_shift_div_l; [exact Pe|]. rewrite pow2_Z by lia. lra. }
  assert (Hhi : (q / 2 ^ e <= inject_Z (2 ^ 53))%Q).
  { apply Qle_shift_div_r; [exact Pe|]. rewrite pow2_Z by lia. lra. }
  apply nearest_even_le in Hlo, Hhi. rewrite nearest_even_Z in Hlo, Hhi.
  rewrite Zle_Qle in Hlo, Hhi. rewrite pow2_Z in Hlo, Hhi by lia.
  rewrite E1, E2. split; apply Qmult_le_compat_r; lra.
Qed.

Lemma round_pos_le q1 q2 :
  (0 < q1)%Q -> (q1 <= q2)%Q -> (round_pos q1 <= round_pos q2)%Q.
Proof.
  intros H1 H12. assert (H2 : (0 < q2)%Q) by lra.
  pose proof (ilog2_le q1 q2 H1 H12) as Hl.
  destruct (Z.eq_dec (ilog2 q1) (ilog2 q2)) as [E|Hne].
  - unfold round_pos. rewrite E. set (u := (2 ^ (ilog2 q2 - 52))%Q).
    assert (Pu : (0 < u)%Q) by apply pow2_pos.
    apply Qmult_le_compat_r; [|lra]. rewrite <- Zle_Qle.
    apply nearest_even_le. apply Qmult_le_compat_r; [exact H12|].
    apply Qlt_le_weak, Qinv_lt_0_compat, Pu.
  - destruct (round_pos_bounds q1 H1) as [_ B1].
    destruct (round_pos_bounds q2 H2) as [B2 _].
    assert (Hp : (2 ^ (ilog2 q1 + 1) <= 2 ^ ilog2 q2)%Q).
    { apply Qpower_le_compat_l; [lia | discriminate]. }
    lra.
Qed.

Lemma round_pos_pos q : (0 < q)%Q -> (0 < round_pos q)%Q.
Proof.
  intros Hq. destruct (round_pos_bounds q Hq) as [B _].
  pose proof (pow2_pos (ilog2 q)). lra.
Qed.

(** Rounding is monotone, and does not depend on how [q] is written. *)

Lemma round64_comp q1 q2 : (q1 == q2)%Q -> round64 q1 = round64 q2.
Proof. intros E. unfold round64. rewrite (Qred_complete _ _ E). reflexivity. Qed.

Lemma Qnum_sign q :
  match Qnum q with
  | Z0 => (q == 0)%Q
  | Zpos _ => (0 < q)%Q
  | Zneg _ => (q < 0)%Q
  end.
Proof. destruct q as [[|p|p] d]; reflexivity. Qed.

Lemma round64_sign q :
  ((q == 0)%Q /\ round64 q = 0%Q) \/
  ((0 < q)%Q /\ (round64 q == round_pos (Qred q))%Q) \/
  ((q < 0)%Q /\ (round64 q == - round_pos (- Qred q))%Q).
Proof.
  unfold round64. cbv zeta. pose proof (Qnum_sign (Qred q)) as Hs.
  pose proof (Qred_correct q) as Hr.
  destruct (Qnum (Qred q)).
  - left. split; [lra | reflexivity].
  - right. left. split; [lra | apply Qred_correct].
  - right. right. split; [lra | apply Qred_correct].
Qed.

Lemma round64_le q1 q2 : (q1 <= q2)%Q -> (round64 q1 <= round64 q2)%Q.
Proof.
  intros H12.
  pose proof (Qred_correct q1) as R1. pose proof (Qred_correct q2) as R2.
  destruct (round64_sign q1) as [[Z1 E1]|[[P1 E1]|[N1 E1]]];
    destruct (round64_sign q2) as [[Z2 E2]|[[P2 E2]|[N2 E2]]];
    rewrite E1, E2; try lra.
  - pose proof (round_pos_pos (Qred q2)). lra.
  - apply round_pos_le; lra.
  - pose proof (round_pos_pos (- Qred q1)). lra.
  - pose proof (round_pos_pos (- Qred q1)).
    pose proof (round_pos_pos (Qred q2)). lra.
  - assert (round_pos (- Qred q2) <= round_pos (- Qred q1))%Q
      by (apply round_pos_le; lra).
    lra.
Qed.

Lemma round64_nonneg q : (0 <= q)%Q -> (0 <= round64 q)%Q.
Proof. intros Hq. apply (round64_le 0 q) in Hq. exact Hq. Qed.

Lemma round64_nonpos q : (q <= 0)%Q -> (round64 q <= 0)%Q.
Proof. intros Hq. apply (round64_le q 0) in Hq. exact Hq. Qed.

(** ** The height of a column *)

Lemma column_height_zero height d :
  (d == 0)%Q -> column_height_of height (Fin d) = Ok 1000.
Proof.
  intros Hd. apply qzero_true in Hd. unfold column_height_of, truthy.
  rewrite Hd. reflexivity.
Qed.

Lemma column_height_pos height d :
  0 <= height -> (0 < d)%Q ->
  column_height_of height (Fin d)
  = Ok (Qfloor (round64 (inject_Z height / d))).
Proof.
  intros Hh Hd.
  assert (Hz : qzero d = false).
  { apply qzero_false. intros E. rewrite E in Hd. discriminate. }
  unfold column_height_of, truthy, of_Z, div. rewrite Hz.
  cbn [negb float64 py_int]. f_equal.
  rewrite (round64_comp _ _ (Qred_correct _)).
  apply qtrunc_floor, round64_nonneg, Qdiv_nonneg; [|exact Hd].
  rewrite <- (Zle_Qle 0). exact Hh.
Qed.

Lemma column_height_neg height d h :
  0 <= height -> (d < 0)%Q ->
  column_height_of height (Fin d) = Ok h -> h <= 0.
Proof.
  intros Hh Hd.
  assert (Hz : qzero d = false).
  { apply qzero_false. intros E. rewrite E in Hd. discriminate. }
  unfold column_height_of, truthy, of_Z, div. rewrite Hz.
  cbn [negb float64 py_int]. intros [= <-].
  rewrite (round64_comp _ _ (Qred_correct _)).
  apply qtrunc_nonpos, round64_nonpos, Qdiv_nonpos; [|exact Hd].
  rewrite <- (Zle_Qle 0). exact Hh.
Qed.

Lemma tex_ys_of_Ok tex_h column_height drawn_height l :
  tex_ys_of tex_h column_height drawn_height = Ok l ->
  column_height <> 0 /\ 0 <= drawn_height.
Proof.
  unfold tex_ys_of. destruct (Z.eqb_spec column_height 0); [discriminate|].
  destruct (Z.ltb_spec drawn_height 0); [discriminate|]. auto.
Qed.

Section Strip.
Context `{Exp}.

(** What a computed strip says about its column height and extent. *)
Lemma wall_strip_Ok s ray_angle step side texture_index ray_pos st :
  wall_strip s ray_angle step side texture_index ray_pos = Ok st ->
  let height := Z.of_nat (shape0 (_colors s)) in
  distance st = hit_distance (pos (camera s)) step ray_angle ray_pos side /\
  column_height_of height (distance st) = Ok (column_height st) /\
  half_column st = half_column_of height (column_height st) /\
  start st = height ≫ 1 - half_column st /\
  end_ st = height ≫ 1 + half_column st /\
  column_height st <> 0 /\ 0 <= end_ st - start st.
Proof.
  intros Hs height. unfold wall_strip in Hs.
  bind_inv Hs. bind_inv Hs. bind_inv Hs. bind_inv Hs. bind_inv Hs.
  injection Hs as <-. simpl.
  apply tex_ys_of_Ok in E2. fold height in E, E2 |- *. tauto.
Qed.

End Strip.

Section StripExtent.
Context `{Exp}.

(** A computed strip lies inside the buffer. *)
Lemma wall_strip_bounds s ray_angle step side texture_index ray_pos st :
  wall_strip s ray_angle step side texture_index ray_pos = Ok st ->
  let height := Z.of_nat (shape0 (_colors s)) in
  half_column st = Z.min (column_height st / 2) (height / 2) /\
  start st = height / 2 - half_column st /\
  end_ st = height / 2 + half_column st /\
  0 <= start st <= end_ st /\ end_ st <= height.
Proof.
  intros Hs height.
  destruct (wall_strip_Ok _ _ _ _ _ _ _ Hs)
    as (_ & _ & Hhc & Hstart & Hend & _ & Hdrawn).
  fold height in Hhc, Hstart, Hend.
  assert (Hh : 0 <= height) by (unfold height; lia).
  rewrite shiftr1 in Hstart, Hend.
  assert (Hmin : half_column st = Z.min (column_height st / 2) (height / 2)).
  { rewrite Hhc. unfold half_column_of. rewrite !shiftr1.
    destruct (Z.ltb_spec (height / 2) (column_height st / 2)); lia. }
  assert (Hhalf : 0 <= height / 2 /\ 2 * (height / 2) <= height).
  { split; [apply Z.div_pos; lia | apply Z.mul_div_le; lia]. }
  repeat split; lia.
Qed.

(** C5 (as amended): for every hit whose strip is computed, the distance
    is a number [d >= 0]; the column height is the sentinel 1000 when
    [d] is exactly zero and otherwise the integer part of the quotient
    [buffer_height / d] as the [float64] division returns it, rounded to
    nearest, and so it is for every positive distance, however small;
    the strip is centred on half the buffer height, from
    [half_height - half_column] to [half_height + half_column] with
    [half_column] the halved column height clamped to the half height,
    so that [0 <= start <= end <= buffer_height]. *)
Theorem strip_extent s ray_angle step side texture_index ray_pos st :
  wall_strip s ray_angle step side texture_index ray_pos = Ok st ->
  let height := Z.of_nat (shape0 (_colors s)) in
  exists d : Q,
    distance st = Fin d /\ (0 <= d)%Q /\
    column_height st =
      (if qzero d then 1000
       else Qfloor (round64 (inject_Z height / d))) /\
    (forall d' : Q,
       (0 < d')%Q ->
       column_height_of height (Fin d')
       = Ok (Qfloor (round64 (inject_Z height / d')))) /\
    half_column st = Z.min (column_height st / 2) (height / 2) /\
    start st = height / 2 - half_column st /\
    end_ st = height / 2 + half_column st /\
    0 <= start st <= end_ st /\ end_ st <= height.
Proof.
  intros Hs height.
  destruct (wall_strip_Ok _ _ _ _ _ _ _ Hs)
    as (_ & Hch & _ & _ & _ & Hnz & _).
  destruct (wall_strip_bounds _ _ _ _ _ _ _ Hs)
    as (Hmin & Hstart & Hend & Horder & Htop).
  fold height in Hch, Hmin, Hstart, Hend, Htop.
  assert (Hh : 0 <= height) by (unfold height; lia).
  destruct (distance st) as [d| |] eqn:Hd.
  - exists d. split; [reflexivity|].
    destruct (Qlt_le_dec d 0) as [Hneg|Hpos].
    + (* a negative distance gives a negative height and an empty slice *)
      exfalso.
      pose proof (column_height_neg _ _ _ Hh Hneg Hch) as Hle.
      assert (column_height st / 2 < 0) by (apply Z.div_lt_upper_bound; lia).
      lia.
    + split; [exact Hpos|].
      split; [|split; [intros d'; apply column_height_pos, Hh | tauto]].
      destruct (qzero d) eqn:Hz.
      * apply qzero_true in Hz.
        rewrite (column_height_zero _ _ Hz) in Hch. congruence.
      * apply qzero_false in Hz.
        assert (Hlt : (0 < d)%Q).
        { apply Qle_lteq in Hpos. destruct Hpos as [Hlt|E]; [exact Hlt|].
          exfalso. apply Hz. symmetry. exact E. }
        rewrite (column_height_pos _ _ Hh Hlt) in Hch. congruence.
  - (* an infinite distance gives the height 0 *)
    exfalso. apply Hnz.
    assert (E : column_height_of height (Inf neg) = Ok 0) by reflexivity.
    congruence.
  - discriminate.
Qed.

End StripExtent.

(** [strip_extent] on the middle column of the small room. *)
Lemma strip_extent_witness :
  match wall_strip (H := exp_series) (prepare small_room)
          (of_Z 0, of_Z 1) (0, 1) side1 1 (2, 6) with
  | Ok st =>
      exists d : Q,
        distance st = Fin d /\ (0 <= d)%Q /\
        column_height st =
          (if qzero d then 1000 else Qfloor (round64 (inject_Z 20 / d))) /\
        (forall d' : Q,
           (0 < d')%Q ->
           column_height_of 20 (Fin d')
           = Ok (Qfloor (round64 (inject_Z 20 / d')))) /\
        half_column st = Z.min (column_height st / 2) (20 / 2) /\
        start st = 20 / 2 - half_column st /\
        end_ st = 20 / 2 + half_column st /\
        0 <= start st <= end_ st /\ end_ st <= 20
  | Raise _ => False
  end.
Proof.
  destruct (wall_strip (H := exp_series) (prepare small_room)
              (of_Z 0, of_Z 1) (0, 1) side1 1 (2, 6)) as [st|e] eqn:E.
  - exact (strip_extent (H := exp_series) _ _ _ _ _ _ _ E).
  - vm_compute in E. discriminate E.
Defined.

(** C5 as stated fails.  No positive epsilon is clamped: a distance of
    [2 ^ -10] of a cell gives the height 40960, not the sentinel.  The
    height is not the floor of the exact quotient: at the [float64] nearest
    to 3.2, the quotient [32 / distance] is just below 10 and the division
    returns 10.0.  A column of odd height is painted one row short (height
    13, rows 14 to 25). *)
Lemma strip_extent_counterexample :
  column_height_of 40 (Fin (1 # 1024)) = Ok 40960 /\
  ~ (exists (eps : Q) (sentinel : Z),
       (0 < eps)%Q /\
       forall d, (0 <= d)%Q -> (d <= eps)%Q ->
                 column_height_of 40 (Fin d) = Ok sentinel) /\
  (let d := (3602879701896397 # 1125899906842624)%Q in
   column_height_of 32 (Fin d) = Ok 10 /\ Qfloor (inject_Z 32 / d) = 9) /\
  column_height_of 40 (of_Z 3) = Ok 13 /\
  (40 ≫ 1 + half_column_of 40 13) - (40 ≫ 1 - half_column_of 40 13) = 12.
Proof.
  split; [vm_compute; reflexivity|].
  split; [|split; [|split]; vm_compute; auto].
  intros (eps & sentinel & Heps & Hall).
  pose proof (Hall 0%Q) as H0. rewrite column_height_zero in H0 by reflexivity.
  specialize (H0 ltac:(lra) ltac:(lra)). injection H0 as <-.
  destruct (Qlt_le_dec eps (1 # 128)) as [Hsmall|Hbig].
  - specialize (Hall eps ltac:(lra) ltac:(lra)).
    rewrite column_height_pos in Hall by (lia || exact Heps).
    assert (Hf : Qfloor (round64 (inject_Z 40 / eps)) = 1000) by congruence.
    assert (Hle : (inject_Z 5120 <= inject_Z 40 / eps)%Q).
    { apply Qle_shift_div_l; [exact Heps|].
      change (inject_Z 5120) with 5120%Q. change (inject_Z 40) with 40%Q.
      lra. }
    apply round64_le, Qfloor_resp_le in Hle.
    change (Qfloor (round64 (inject_Z 5120))) with 5120 in Hle. lia.
  - specialize (Hall (1 # 128)%Q ltac:(lra) Hbig).
    vm_compute in Hall. discriminate Hall.
Qed.

(** C8 (as amended): with the buffer height fixed, a strictly larger
    positive distance never gives a larger column height. *)
Theorem column_height_antitone height d1 d2 :
  0 <= height -> (0 < d1)%Q -> (d1 < d2)%Q ->
  exists h1 h2,
    column_height_of height (Fin d1) = Ok h1 /\
    column_height_of height (Fin d2) = Ok h2 /\
    h2 <= h1.
Proof.
  intros Hh H1 H12.
  assert (H2 : (0 < d2)%Q) by lra.
  exists (Qfloor (round64 (inject_Z height / d1))),
         (Qfloor (round64 (inject_Z height / d2))).
  split; [apply column_height_pos; assumption|].
  split; [apply column_height_pos; assumption|].
  apply Qfloor_resp_le, round64_le.
  assert (Hq : (0 <= inject_Z height / d2)%Q).
  { apply Qdiv_nonneg; [|exact H2]. rewrite <- (Zle_Qle 0). exact Hh. }
  apply Qle_shift_div_l; [exact H1|].
  assert (E : (inject_Z height / d2 * d2 == inject_Z height)%Q)
    by (field; lra).
  rewrite <- E at 2.
  set (x := (inject_Z height / d2)%Q) in *. nra.
Qed.

Lemma column_height_antitone_witness :
  exists h1 h2,
    column_height_of 20 (Fin (9 # 2)) = Ok h1 /\
    column_height_of 20 (Fin (37 # 8)) = Ok h2 /\
    h2 <= h1.
Proof.
  apply (column_height_antitone 20 (9 # 2) (37 # 8)); [lia | lra | lra].
Defined.

(** C8 as stated fails: in the small room the same column faces the same
    wall from 4.5 and from 4.625 cells away, and both columns are 4 rows
    high. *)
Lemma column_height_counterexample :
  match strip_of (H := exp_series) (prepare small_room) 1,
        strip_of (H := exp_series) (prepare small_room_back) 1 with
  | Ok (Some near), Ok (Some far) =>
      distance near = Fin (9 # 2) /\ distance far = Fin (37 # 8) /\
      column_height near = 4 /\ column_height far = 4 /\
      ~ column_height far < column_height near
  | _, _ => False
  end.
Proof. vm_compute. repeat split; try reflexivity. intros [=]. Qed.

(** C10: a wall farther away than the buffer is high gives the column
    height 0, and the texture ratio then divides by it.  In the corridor the
    east wall is 9.5 cells from the camera and the buffer has 8 rows. *)
Theorem far_wall_divides_by_zero :
  column_height_of 8 (Fin (19 # 2)) = Ok 0 /\
  tex_ys_of 4 0 0 = Raise ZeroDivisionError /\
  strip_of (H := exp_series) (prepare corridor) 1 = Raise ZeroDivisionError /\
  render (H := exp_series) corridor = Raise ZeroDivisionError.
Proof.
  split; [vm_compute; reflexivity|].
  split; [vm_compute; reflexivity|].
  split; vm_compute; reflexivity.
Qed.

(** C7: on a wall of one orientation hit at one fraction [wall_x] of its
    width, a ray with a negative and a ray with a positive component along
    the wall's axis sample mirrored columns of the texture: one gets
    [int(wall_x * tex_w)], the other [tex_w - 1] minus that. *)
Theorem texture_flip side (w : Q) tex_w ray1 ray2 (r1 r2 : Q) :
  at2 ray1 side = Fin r1 -> at2 ray2 side = Fin r2 ->
  (r1 < 0)%Q -> (0 < r2)%Q ->
  exists x1 x2,
    tex_x_of side (Fin w) tex_w ray1 = Ok x1 /\
    tex_x_of side (Fin w) tex_w ray2 = Ok x2 /\
    x2 = tex_w - x1 - 1 /\
    (x1 = qtrunc (Qred (w * inject_Z tex_w)) \/
     x2 = qtrunc (Qred (w * inject_Z tex_w))).
Proof.
  intros E1 E2 Hn Hp. unfold tex_x_of. rewrite E1, E2.
  set (x := qtrunc (Qred (w * inject_Z tex_w))).
  assert (Hx : py_int (mul (Fin w) (of_Z tex_w)) = Ok x) by reflexivity.
  rewrite Hx. cbn [mbind result_bind].
  assert (L : forall (k r : Q),
            ltb (mul (Fin k) (Fin r)) (of_Z 0) = true <-> (k * r < 0)%Q).
  { intros k r. unfold ltb, mul, of_Z.
    rewrite Bool.negb_true_iff, <- Bool.not_true_iff_false, Qle_bool_iff.
    rewrite Qred_correct. change (inject_Z 0) with 0%Q.
    split; [apply Qnot_le_lt | apply Qlt_not_le]. }
  destruct side.
  - assert (A : ltb (mul (of_Z 1) (Fin r1)) (of_Z 0) = true)
      by (apply L; change (inject_Z 1) with 1%Q; lra).
    assert (B : ltb (mul (of_Z 1) (Fin r2)) (of_Z 0) = false).
    { apply Bool.not_true_iff_false. intros C. apply L in C.
      change (inject_Z 1) with 1%Q in C. lra. }
    rewrite A, B. exists (tex_w - x - 1), x.
    repeat split; lia.
  - assert (A : ltb (mul (of_Z (-1)) (Fin r1)) (of_Z 0) = false).
    { apply Bool.not_true_iff_false. intros C. apply L in C.
      change (inject_Z (-1)) with (-1)%Q in C. lra. }
    assert (B : ltb (mul (of_Z (-1)) (Fin r2)) (of_Z 0) = true)
      by (apply L; change (inject_Z (-1)) with (-1)%Q; lra).
    rewrite A, B. exists x, (tex_w - x - 1).
    repeat split; lia.
Qed.

Lemma texture_flip_witness :
  exists x1 x2,
    tex_x_of side0 (Fin (1 # 2)) 4 (Fin (-1 # 2), of_Z 1) = Ok x1 /\
    tex_x_of side0 (Fin (1 # 2)) 4 (Fin (1 # 2), of_Z 1) = Ok x2 /\
    x2 = 4 - x1 - 1 /\
    (x1 = qtrunc (Qred ((1 # 2) * inject_Z 4)) \/
     x2 = qtrunc (Qred ((1 # 2) * inject_Z 4))).
Proof.
  apply (texture_flip side0 (1 # 2) 4 (Fin (-1 # 2), of_Z 1)
           (Fin (1 # 2), of_Z 1) (-1 # 2) (1 # 2));
    [reflexivity | reflexivity | lra | lra].
Defined.

(** ** Indexing *)

Lemma py_index_Ok n i k : py_index n i = Ok k -> (k < n)%nat.
Proof.
  unfold py_index.
  destruct ((0 <=? i) && (i <? Z.of_nat n)) eqn:E1.
  - intros [= <-]. lia.
  - destruct ((- Z.of_nat n <=? i) && (i <? 0)) eqn:E2; [|discriminate].
    intros [= <-]. lia.
Qed.

Lemma py_index_nonneg n i :
  0 <= i < Z.of_nat n -> py_index n i = Ok (Z.to_nat i).
Proof.
  intros Hi. unfold py_index.
  destruct (Z.leb_spec 0 i); [|lia].
  destruct (Z.ltb_spec i (Z.of_nat n)); [|lia]. reflexivity.
Qed.

Lemma item_Ok {A} (l : list A) i a :
  item l i = Ok a ->
  exists k, py_index (length l) i = Ok k /\ l !! k = Some a.
Proof.
  unfold item. intros Hi. bind_inv Hi. exists a0. split; [exact E|].
  destruct (l !! a0); [congruence | discriminate].
Qed.

Lemma item_fmap {A B} (f : A -> B) (l : list A) i b :
  item (f <$> l) i = Ok b -> exists a, item l i = Ok a /\ b = f a.
Proof.
  intros Hi. apply item_Ok in Hi. destruct Hi as (k & Hk & Hl).
  rewrite length_fmap in Hk. rewrite list_lookup_fmap in Hl.
  destruct (l !! k) as [a|] eqn:E; [|discriminate].
  exists a. injection Hl as <-. split; [|reflexivity].
  unfold item. rewrite Hk. cbn [mbind result_bind]. rewrite E. reflexivity.
Qed.

Lemma item_nonneg {A} (l : list A) i :
  0 <= i < Z.of_nat (length l) -> exists a, item l i = Ok a.
Proof.
  intros Hi. unfold item. rewrite py_index_nonneg by exact Hi.
  cbn [mbind result_bind].
  destruct (lookup_lt_is_Some_2 l (Z.to_nat i) ltac:(lia)) as [a ->].
  eauto.
Qed.

Lemma at2_set2 {A} (p : A * A) side a side' :
  at2 (set2 p side a) side' = if decide (side = side') then a else at2 p side'.
Proof. destruct side, side'; reflexivity. Qed.

Lemma wrap16_small z : -32768 <= z <= 32767 -> wrap16 z = z.
Proof. intros Hz. unfold wrap16. rewrite Z.mod_small; lia. Qed.

Lemma sign16_range x : -1 <= sign16 x <= 1.
Proof. destruct x as [q|[]|]; simpl; lia. Qed.

Lemma step_of_range angle side : -1 <= at2 (step_of angle) side <= 1.
Proof. destruct side; apply sign16_range. Qed.

(** ** The rays of a prepared frame *)

Lemma ray_of_prepare s column ray_angle delta step sides ray_pos :
  ray_of (prepare s) column = Ok (ray_angle, delta, step, sides, ray_pos) ->
  delta = delta_of ray_angle /\ step = step_of ray_angle /\
  ray_pos = (to_int16 (pos (camera s)).1, to_int16 (pos (camera s)).2).
Proof.
  unfold ray_of. intros Hr.
  bind_inv Hr. bind_inv Hr. bind_inv Hr. bind_inv Hr.
  injection Hr as <- <- <- <- <-.
  cbn [prepare _rotated_angles _deltas _steps] in E, E0, E1.
  apply item_fmap in E0. destruct E0 as (x & Ex & ->).
  apply item_fmap in E1. destruct E1 as (y & Ey & ->).
  rewrite E in Ex, Ey. injection Ex as <-. injection Ey as <-.
  auto.
Qed.

Lemma ray_of_prepare_nonneg s column :
  0 <= column < Z.of_nat (length (_ray_angles s)) ->
  exists r, ray_of (prepare s) column = Ok r.
Proof.
  intros Hc. unfold ray_of.
  cbn [prepare _rotated_angles _deltas _steps _sides camera].
  set (rot := rotate (plane (camera s)) <$> _ray_angles s).
  assert (Hrot : length rot = length (_ray_angles s))
    by (unfold rot; apply length_fmap).
  destruct (item_nonneg rot column) as [a ->]; [lia|].
  destruct (item_nonneg (delta_of <$> rot) column) as [b ->];
    [rewrite length_fmap; lia|].
  destruct (item_nonneg (step_of <$> rot) column) as [c ->];
    [rewrite length_fmap; lia|].
  match goal with
  | |- context [item ?l column] =>
      destruct (item_nonneg l column) as [d ->]
  end.
  - rewrite length_zip_with, !length_fmap. lia.
  - cbn [mbind result_bind]. eauto.
Qed.

(** ** Where the casting loop stops *)

(** Along an axis, the loop moves the ray by whole steps; the axis of the
    hit has moved at least once. *)
Lemma casting_Wall axis m delta step n :
  forall sides p side texture_index sides' ray_pos,
    casting n m delta step sides p
      = Ok (Wall side texture_index sides' ray_pos) ->
    -1 <= at2 step axis <= 1 ->
    Z.abs (at2 p axis) + Z.of_nat n <= 32767 ->
    exists k,
      0 <= k <= Z.of_nat n /\
      at2 ray_pos axis = at2 p axis + k * at2 step axis /\
      (side = axis -> 1 <= k).
Proof.
  induction n as [|n IH]; intros sides p side ti sides' rp Hc Hstep Hp.
  - discriminate.
  - cbn [casting] in Hc. bind_inv Hc.
    set (sd := next_side sides) in *.
    set (p' := hop step p sd) in *.
    assert (Hp' : at2 p' axis =
                  if decide (sd = axis) then at2 p axis + at2 step axis
                  else at2 p axis).
    { unfold p', hop. rewrite at2_set2.
      destruct (decide (sd = axis)) as [->|]; [|reflexivity].
      apply wrap16_small. lia. }
    destruct (Z.eqb_spec a 0).
    + apply IH in Hc; [|exact Hstep|].
      * destruct Hc as (k & Hk & Hrp & Hside).
        rewrite Hp' in Hrp.
        destruct (decide (sd = axis)).
        -- exists (k + 1). repeat split; [lia | lia | lia | lia].
        -- exists k. repeat split; [lia | lia | lia | exact Hside].
      * rewrite Hp'. destruct (decide (sd = axis)); lia.
    + injection Hc as <- <- <- <-.
      rewrite Hp'. destruct (decide (sd = axis)).
      * exists 1. repeat split; lia.
      * exists 0. repeat split; [lia | lia | lia | congruence].
Qed.

Lemma to_int16_floor (c : Q) :
  (0 <= c)%Q -> (c <= 32000)%Q ->
  to_int16 (Fin c) = Qfloor c /\ 0 <= Qfloor c <= 32000.
Proof.
  intros H0 H1.
  assert (0 <= Qfloor c <= 32000).
  { split.
    - apply (Qfloor_resp_le 0 c) in H0. exact H0.
    - apply (Qfloor_resp_le c 32000) in H1. exact H1. }
  split; [|assumption].
  unfold to_int16. rewrite qtrunc_floor by exact H0.
  apply wrap16_small. lia.
Qed.

Lemma div_Fin a b :
  qzero b = false -> div (Fin a) (Fin b) = Fin (Qred (a / b)).
Proof. intros Hb. unfold div. rewrite Hb. reflexivity. Qed.

(** C1 (as amended): for a column whose casting loop stops at a wall, with
    the camera in the grid and a ray whose component [r] along the axis of
    the hit is a non-zero number, the distance is [|face - c| / |r|]: the
    offset between the camera and the face of the wall along that axis,
    corrected by the step direction, divided by the ray's component along
    the axis; the ray's other component does not enter it.  When [r] is 1
    or -1 (the wall faces the camera) this is the perpendicular distance
    [|face - c|] between the camera and the wall, whatever the column. *)
Theorem perpendicular_distance s column ray_angle delta step sides ray_pos
    side texture_index sides' hit_pos (c r : Q) :
  ray_of (prepare s) column = Ok (ray_angle, delta, step, sides, ray_pos) ->
  casting HOPS (map s) delta step sides ray_pos
    = Ok (Wall side texture_index sides' hit_pos) ->
  at2 (pos (camera s)) side = Fin c -> (0 <= c)%Q -> (c <= 32000)%Q ->
  at2 ray_angle side = Fin r -> ~ (r == 0)%Q ->
  let face := at2 hit_pos side + (if at2 step side =? 1 then 0 else 1) in
  exists d : Q,
    hit_distance (pos (camera s)) step ray_angle hit_pos side = Fin d /\
    (d == Qabs (inject_Z face - c) / Qabs r)%Q /\
    ((Qabs r == 1)%Q -> (d == Qabs (inject_Z face - c))%Q).
Proof.
  intros Hray Hcast Hc H0 H1 Hr Hnz face.
  destruct (ray_of_prepare _ _ _ _ _ _ _ Hray) as (-> & -> & ->).
  destruct (to_int16_floor c H0 H1) as (Hfl & Hrange).
  assert (Hcell : at2 (to_int16 (pos (camera s)).1,
                       to_int16 (pos (camera s)).2) side = Qfloor c).
  { destruct side; cbn [at2 fst snd] in *; rewrite Hc; exact Hfl. }
  destruct (casting_Wall side _ _ _ _ _ _ _ _ _ _ Hcast)
    as (k & Hk & Hpos & Hside).
  { apply step_of_range. }
  { rewrite Hcell. unfold HOPS. lia. }
  specialize (Hside eq_refl). rewrite Hcell in Hpos.
  pose proof (Qfloor_le c) as Hlo. pose proof (Qlt_floor c) as Hhi.
  rewrite inject_Z_plus in Hhi. change (inject_Z 1) with 1%Q in Hhi.
  assert (Hstep : at2 (step_of ray_angle) side = sign16 (at2 ray_angle side))
    by (destruct side; reflexivity).
  unfold face, hit_distance. rewrite Hc, Hstep, Hr. rewrite Hstep, Hr in Hpos.
  cbv [of_Z sub add opp].
  rewrite div_Fin by (apply qzero_false; exact Hnz).
  eexists. split; [reflexivity|]. rewrite !Qred_correct.
  set (e := if sign16 (Fin r) =? 1 then 0 else 1) in *.
  set (N := (inject_Z (at2 hit_pos side + e) - c)%Q).
  assert (HN : (inject_Z (at2 hit_pos side) + - c + inject_Z e == N)%Q)
    by (unfold N; rewrite inject_Z_plus; ring).
  rewrite HN.
  assert (Hd : (N / r == Qabs N / Qabs r)%Q).
  { destruct r as [[|p|p] dn].
    - exfalso. apply Hnz. reflexivity.
    - assert (Hr0 : (0 < Z.pos p # dn)%Q) by reflexivity.
      cbn [sign16 Qnum Z.sgn] in Hpos, e. cbn [Z.eqb Pos.eqb] in e.
      assert (HN0 : (0 <= N)%Q).
      { unfold N, e. rewrite Hpos.
        assert (inject_Z (Qfloor c + 1) <= inject_Z (Qfloor c + k * 1 + 0))%Q
          by (rewrite <- Zle_Qle; lia).
        rewrite inject_Z_plus in H. change (inject_Z 1) with 1%Q in H. lra. }
      rewrite (Qabs_pos N) by exact HN0.
      rewrite (Qabs_pos (Z.pos p # dn)) by lra. reflexivity.
    - assert (Hr0 : (Z.neg p # dn < 0)%Q) by reflexivity.
      cbn [sign16 Qnum Z.sgn] in Hpos, e. cbn [Z.eqb] in e.
      assert (HN0 : (N <= 0)%Q).
      { unfold N, e. rewrite Hpos.
        assert (inject_Z (Qfloor c + k * -1 + 1) <= inject_Z (Qfloor c))%Q
          by (rewrite <- Zle_Qle; lia).
        lra. }
      rewrite (Qabs_neg N) by exact HN0.
      rewrite (Qabs_neg (Z.neg p # dn)) by lra. field. lra. }
  split; [exact Hd|]. intros Hone. rewrite Hd, Hone. field.
Qed.

(** [perpendicular_distance] on the middle column of the small room: the
    east wall starts at 6, the camera stands at 1.5. *)
Lemma perpendicular_distance_witness :
  exists d : Q,
    hit_distance (pos (camera small_room)) (0, 1) (of_Z 0, of_Z 1) (2, 6) side1
      = Fin d /\
    (d == Qabs (inject_Z (6 + 0) - (3 # 2)) / Qabs 1)%Q /\
    ((Qabs 1 == 1)%Q -> (d == Qabs (inject_Z (6 + 0) - (3 # 2)))%Q).
Proof.
  apply (perpendicular_distance small_room 1 (of_Z 0, of_Z 1)
           (Inf false, of_Z 1) (0, 1) (NaN, Fin (1 # 2)) (2, 1)
           side1 1 (NaN, Fin (11 # 2)) (2, 6) (3 # 2) 1).
  - vm_compute. reflexivity.
  - vm_compute. reflexivity.
  - reflexivity.
  - lra.
  - lra.
  - reflexivity.
  - lra.
Defined.

(** C1 as stated fails: the left column of the small room looks at the
    north wall at an angle.  The face of that wall is 1.5 cells from the
    camera, and the distance of the column is 3: the ray [(-1/2, 1)]
    covers the 1.5 cells at half a cell per unit. *)
Lemma perpendicular_distance_counterexample :
  ray_of (prepare small_room) 0
  = Ok ((Fin (-1 # 2), Fin 1), (Fin 2, Fin 1), (-1, 1),
        (Fin 1, Fin (1 # 2)), (2, 1)) /\
  casting HOPS (map small_room) (Fin 2, Fin 1) (-1, 1)
          (Fin 1, Fin (1 # 2)) (2, 1)
  = Ok (Wall side0 1 (Fin 5, Fin (7 # 2)) (0, 4)) /\
  (pos (camera small_room)).1 = Fin (5 # 2) /\
  (Qabs (inject_Z (0 + 1) - (5 # 2)) == 3 # 2)%Q /\
  hit_distance (pos (camera small_room)) (-1, 1) (Fin (-1 # 2), Fin 1)
               (0, 4) side0 = Fin 3 /\
  ~ (forall s column ray_angle delta step sides ray_pos side texture_index
            sides' hit_pos (c : Q),
       ray_of (prepare s) column
         = Ok (ray_angle, delta, step, sides, ray_pos) ->
       casting HOPS (map s) delta step sides ray_pos
         = Ok (Wall side texture_index sides' hit_pos) ->
       at2 (pos (camera s)) side = Fin c -> (0 <= c)%Q -> (c <= 32000)%Q ->
       exists d : Q,
         hit_distance (pos (camera s)) step ray_angle hit_pos side = Fin d /\
         (d == Qabs (inject_Z (at2 hit_pos side
                               + (if at2 step side =? 1 then 0 else 1))
                     - c))%Q).
Proof.
  assert (Hray : ray_of (prepare small_room) 0
                 = Ok ((Fin (-1 # 2), Fin 1), (Fin 2, Fin 1), (-1, 1),
                       (Fin 1, Fin (1 # 2)), (2, 1)))
    by (vm_compute; reflexivity).
  assert (Hcast : casting HOPS (map small_room) (Fin 2, Fin 1) (-1, 1)
                          (Fin 1, Fin (1 # 2)) (2, 1)
                  = Ok (Wall side0 1 (Fin 5, Fin (7 # 2)) (0, 4)))
    by (vm_compute; reflexivity).
  split; [exact Hray|]. split; [exact Hcast|].
  split; [reflexivity|]. split; [reflexivity|].
  split; [vm_compute; reflexivity|].
  intros Hall.
  destruct (Hall small_room 0 _ _ _ _ _ _ _ _ _ (5 # 2) Hray Hcast
              eq_refl ltac:(lra) ltac:(lra)) as (d & Hd & Heq).
  vm_compute in Hd. injection Hd as <-.
  vm_compute in Heq. discriminate Heq.
Qed.

(** ** The grid *)

Lemma in_gridb_true m p : in_gridb m p = true <-> in_grid m p.
Proof.
  unfold in_gridb, in_grid. destruct (m !! Z.to_nat p.1) as [row|].
  - rewrite !andb_true_iff, !Z.leb_le, Z.ltb_lt. split.
    + intros ((A & B) & C). eauto.
    + intros (A & B & row' & [= <-] & C). auto.
  - split; [discriminate|]. intros (_ & _ & row & [=] & _).
Qed.

Lemma map_at_in_grid m p :
  in_grid m p ->
  exists row v, m !! Z.to_nat p.1 = Some row /\
                row !! Z.to_nat p.2 = Some v /\ map_at m p = Ok v.
Proof.
  intros (H1 & H2 & row & Hrow & Hlt).
  destruct (lookup_lt_is_Some_2 row (Z.to_nat p.2) ltac:(lia)) as [v Hv].
  exists row, v. split; [exact Hrow|]. split; [exact Hv|].
  pose proof (lookup_lt_Some _ _ _ Hrow).
  unfold map_at. rewrite py_index_nonneg by lia.
  cbn [mbind result_bind]. rewrite Hrow.
  unfold item. rewrite py_index_nonneg by lia.
  cbn [mbind result_bind]. rewrite Hv. reflexivity.
Qed.

Lemma row_ok_spec h w r row :
  forall c0 j v,
    row_ok h w r c0 row = true -> row !! j = Some v ->
    cell_ok h w r (c0 + j) v = true.
Proof.
  induction row as [|x row IH]; intros c0 j v Hok Hj; [discriminate|].
  cbn [row_ok] in Hok. apply andb_true_iff in Hok. destruct Hok as [Hx Hok].
  destruct j as [|j]; cbn in Hj.
  - injection Hj as <-. rewrite Nat.add_0_r. exact Hx.
  - replace (c0 + S j)%nat with (S c0 + j)%nat by lia. eauto.
Qed.

Lemma rows_ok_spec h w m :
  forall r0 i row,
    rows_ok h w r0 m = true -> m !! i = Some row ->
    length row = w /\ row_ok h w (r0 + i) 0 row = true.
Proof.
  induction m as [|x m IH]; intros r0 i row Hok Hi; [discriminate|].
  cbn [rows_ok] in Hok. rewrite !andb_true_iff in Hok.
  destruct Hok as [[Hlen Hx] Hok].
  destruct i as [|i]; cbn in Hi.
  - injection Hi as <-. rewrite Nat.add_0_r.
    apply Nat.eqb_eq in Hlen. auto.
  - replace (r0 + S i)%nat with (S r0 + i)%nat by lia. eauto.
Qed.

(** In a walled map every cell next to an open cell is in the grid, and
    adding the step to a coordinate of an open cell does not wrap. *)
Lemma walled_neighbour m p side e :
  walled m = true -> in_grid m p -> map_at m p = Ok 0 -> -1 <= e <= 1 ->
  in_grid m (set2 p side (wrap16 (at2 p side + e))).
Proof.
  intros Hw Hp Hopen He.
  unfold walled in Hw. rewrite !andb_true_iff in Hw.
  destruct Hw as [[Hh Hwd] Hrows].
  apply Z.leb_le in Hh, Hwd.
  destruct (map_at_in_grid _ _ Hp) as (row & v & Hrow & Hv & Hat).
  rewrite Hat in Hopen. injection Hopen as ->.
  destruct Hp as (Hp1 & Hp2 & _).
  destruct (rows_ok_spec _ _ _ _ _ _ Hrows Hrow) as [Hlen Hrow_ok].
  pose proof (row_ok_spec _ _ _ _ _ _ _ Hrow_ok Hv) as Hcell.
  unfold cell_ok in Hcell. cbn [Z.eqb] in Hcell.
  rewrite !andb_true_iff, !Nat.ltb_lt in Hcell. cbn [Nat.add] in Hcell.
  destruct Hcell as (((A & B) & C) & D).
  set (w := length (default [] (head m))) in *.
  assert (Hin : forall r c, 0 <= r < Z.of_nat (length m) ->
                            0 <= c < Z.of_nat w -> in_grid m (r, c)).
  { intros r c Hr Hc.
    destruct (lookup_lt_is_Some_2 m (Z.to_nat r) ltac:(lia)) as [row' Hrow'].
    destruct (rows_ok_spec _ _ _ _ _ _ Hrows Hrow') as [Hlen' _].
    unfold in_grid. cbn [fst snd]. repeat split; [lia | lia |].
    exists row'. split; [exact Hrow' | lia]. }
  destruct p as [r c]. cbn [fst snd] in *.
  destruct side; cbn [set2 at2 fst snd]; rewrite wrap16_small by lia;
    apply Hin; lia.
Qed.

(** In a walled map, from an open cell, the loop reads only cells of the
    grid, and it comes to an end without raising. *)
Lemma probes_walled m delta step :
  walled m = true ->
  (forall side, -1 <= at2 step side <= 1) ->
  forall n sides p,
    in_grid m p -> map_at m p = Ok 0 ->
    Forall (in_grid m) (probes n m delta step sides p) /\
    exists c, casting n m delta step sides p = Ok c.
Proof.
  intros Hw Hstep. induction n as [|n IH]; intros sides p Hp Hopen.
  - split; [constructor | eexists; reflexivity].
  - cbn [probes casting].
    set (sd := next_side sides).
    set (sides1 := set2 sides sd (add (at2 sides sd) (at2 delta sd))).
    pose proof (walled_neighbour m p sd (at2 step sd) Hw Hp Hopen (Hstep sd))
      as Hp'.
    fold (hop step p sd) in Hp'.
    destruct (map_at_in_grid _ _ Hp') as (row & v & _ & _ & Hat).
    rewrite Hat. cbn [mbind result_bind].
    destruct (Z.eqb_spec v 0) as [->|Hv].
    + destruct (IH sides1 _ Hp' Hat) as [Hall Hc].
      split; [constructor; assumption | exact Hc].
    + split.
      * constructor; [exact Hp'|]. destruct v; [congruence | constructor..].
      * eexists; reflexivity.
Qed.

(** C3 (as amended): in a rectangular map whose first and last rows and
    columns are all walls, for a camera standing in an open cell, every
    coordinate [cast_ray] reads for a column of the frame is inside the
    grid. *)
Theorem probes_inside s column :
  walled (map s) = true ->
  in_gridb (map s) (to_int16 (pos (camera s)).1, to_int16 (pos (camera s)).2)
    = true ->
  map_at (map s) (to_int16 (pos (camera s)).1, to_int16 (pos (camera s)).2)
    = Ok 0 ->
  0 <= column < Z.of_nat (length (_ray_angles s)) ->
  exists l,
    probes_of (prepare s) column = Ok l /\ Forall (in_grid (map s)) l.
Proof.
  intros Hw Hin Hopen Hcol. apply in_gridb_true in Hin.
  destruct (ray_of_prepare_nonneg s column Hcol)
    as [[[[[ray_angle delta] step] sides] ray_pos] Hray].
  destruct (ray_of_prepare _ _ _ _ _ _ _ Hray) as (_ & -> & ->).
  unfold probes_of. rewrite Hray. cbn [mbind result_bind].
  eexists. split; [reflexivity|].
  cbn [prepare map].
  apply (probes_walled (map s) delta (step_of ray_angle) Hw
                       (step_of_range ray_angle)); assumption.
Qed.

Lemma probes_inside_witness :
  exists l,
    probes_of (prepare small_room) 1 = Ok l /\
    Forall (in_grid (map small_room)) l.
Proof.
  apply (probes_inside small_room 1).
  - vm_compute. reflexivity.
  - vm_compute. reflexivity.
  - vm_compute. reflexivity.
  - vm_compute. split; [discriminate | reflexivity].
Defined.

(** C3 as stated fails: in a 3 x 3 map without walls the camera stands in
    the middle cell, the first column reads the coordinate (0, 3), which is
    past the last column, and the frame raises [IndexError]. *)
Lemma probes_counterexample :
  probes_of (prepare open_field) 0 = Ok [(1, 2); (0, 2); (0, 3)] /\
  ~ in_grid (map open_field) (0, 3) /\
  render (H := exp_series) open_field = Raise IndexError.
Proof.
  split; [vm_compute; reflexivity|]. split; [|vm_compute; reflexivity].
  rewrite <- in_gridb_true. vm_compute. discriminate.
Qed.

(** ** What a frame leaves untouched *)

Section Frames.
Context `{Exp}.

Lemma cast_ray_inputs s column s' :
  cast_ray s column = Ok s' -> inputs s' = inputs s.
Proof.
  unfold cast_ray. intros Hc.
  bind_inv Hc. bind_inv Hc. bind_inv Hc. bind_inv Hc. bind_inv Hc.
  bind_inv Hc. destruct a4.
  - injection Hc as <-. reflexivity.
  - bind_inv Hc. bind_inv Hc. injection Hc as <-. reflexivity.
Qed.

Lemma cast_rays_inputs columns :
  forall s s', cast_rays columns s = Ok s' -> inputs s' = inputs s.
Proof.
  induction columns as [|c columns IH]; intros s s' Hc; cbn in Hc.
  - injection Hc as <-. reflexivity.
  - bind_inv Hc. apply IH in Hc. apply cast_ray_inputs in E. congruence.
Qed.

Lemma render_inputs s s' : render s = Ok s' -> inputs s' = inputs s.
Proof.
  unfold render. intros Hr. bind_inv Hr. bind_inv Hr.
  destruct (decide _); [|discriminate]. injection Hr as <-.
  apply cast_rays_inputs in E. exact E.
Qed.

(** The table of ray directions is the one [resize] computed for the
    current width, in every state the widget goes through. *)
Lemma reachable_ray_angles s :
  reachable s -> _ray_angles s = ray_angles (width s).
Proof.
  induction 1 as [| | |s s' _ IH Hr]; try reflexivity.
  - exact IHreachable.
  - apply render_inputs in Hr. unfold inputs in Hr.
    injection Hr as _ _ _ _ _ _ _ _ _ Hw Ha _. congruence.
Qed.

(** C6: resizing to any dimensions and then back to the dimensions the
    widget had gives the table of ray directions it had, value for
    value. *)
Theorem resize_round_trip s dim :
  reachable s ->
  _ray_angles (resize (height s, width s) (resize dim s)) = _ray_angles s.
Proof.
  intros Hs. rewrite (reachable_ray_angles s Hs). reflexivity.
Qed.

End Frames.

Lemma resize_round_trip_witness :
  _ray_angles (resize (height small_room, width small_room)
                      (resize (24%nat, 80%nat) small_room))
  = _ray_angles small_room.
Proof.
  apply (resize_round_trip (H := exp_series) small_room (24%nat, 80%nat)).
  unfold small_room. apply reach_new.
Defined.

(** ** Stores *)

Lemma set_px_same r c v v' a :
  set_px r c v (set_px r c v' a) = set_px r c v a.
Proof.
  unfold set_px. cbn [shape1 rows]. f_equal.
  rewrite list_alter_alter_eq. apply list_alter_ext; [|reflexivity].
  intros row _. cbn. apply list_insert_insert_eq.
Qed.

Lemma set_px_comm r c v r' c' v' a :
  (r, c) <> (r', c') ->
  set_px r c v (set_px r' c' v' a) = set_px r' c' v' (set_px r c v a).
Proof.
  intros Hne. unfold set_px. cbn [shape1 rows]. f_equal.
  destruct (decide (r = r')) as [->|Hr].
  - rewrite !list_alter_alter_eq. apply list_alter_ext; [|reflexivity].
    intros row _. cbn. apply list_insert_insert_ne. congruence.
  - apply list_alter_alter_ne. exact Hr.
Qed.

Lemma store_app ws1 ws2 a : store (ws1 ++ ws2) a = store ws2 (store ws1 a).
Proof. apply foldl_app. Qed.

Lemma store_cons w ws a :
  store (w :: ws) a = store ws (set_px w.1.1 w.1.2 w.2 a).
Proof. reflexivity. Qed.

Lemma shape1_store ws : forall a, shape1 (store ws a) = shape1 a.
Proof.
  induction ws as [|w ws IH]; intros a; [reflexivity|].
  rewrite store_cons, IH. reflexivity.
Qed.

Lemma shape0_store ws : forall a, shape0 (store ws a) = shape0 a.
Proof.
  induction ws as [|w ws IH]; intros a; [reflexivity|].
  rewrite store_cons, IH. unfold shape0, set_px. cbn [rows]. apply length_alter.
Qed.

Lemma same_shape_store ws a b : same_shape b a -> same_shape (store ws b) (store ws a).
Proof.
  intros [H1 H0]. split.
  - rewrite !shape1_store. exact H1.
  - rewrite !shape0_store. exact H0.
Qed.

Lemma same_shape_refl a : same_shape a a.
Proof. split; reflexivity. Qed.

(** A store makes an earlier store to the same cell invisible. *)
Lemma store_absorb ws :
  forall r c v v' a,
    set_px r c v (store ws (set_px r c v' a)) = set_px r c v (store ws a).
Proof.
  induction ws as [|w ws IH]; intros r c v v' a.
  - apply set_px_same.
  - rewrite !store_cons.
    destruct (decide ((w.1.1, w.1.2) = (r, c))) as [E|Hne].
    + injection E as -> ->. rewrite set_px_same. reflexivity.
    + rewrite set_px_comm by exact Hne. apply IH.
Qed.

(** Storing the same sequence twice is storing it once. *)
Lemma store_idem ws : forall a, store ws (store ws a) = store ws a.
Proof.
  induction ws as [|w ws IH] using rev_ind; intros a; [reflexivity|].
  rewrite !store_app. rewrite !(store_cons w []). cbn [store foldl].
  rewrite store_absorb. rewrite IH. reflexivity.
Qed.

(** ** Operations that only store *)

Lemma oblivious_bind f g :
  oblivious f -> oblivious g -> oblivious (fun a => a1 ← f a; g a1).
Proof.
  intros Hf Hg a a' Ha. bind_inv Ha.
  destruct (Hf _ _ E) as [ws1 H1]. destruct (Hg _ _ Ha) as [ws2 H2].
  pose proof (H1 a (same_shape_refl a)) as Ea. rewrite E in Ea.
  injection Ea as ->.
  exists (ws1 ++ ws2). intros b Hb. rewrite (H1 b Hb).
  cbn [mbind result_bind]. rewrite store_app. apply H2.
  apply same_shape_store. exact Hb.
Qed.

Lemma oblivious_result {A} (r : result A) (k : A -> image -> result image) :
  (forall x, oblivious (k x)) -> oblivious (fun a => x ← r; k x a).
Proof.
  intros Hk a a' Ha. destruct r as [x|e]; [|discriminate].
  cbn [mbind result_bind] in *. exact (Hk x a a' Ha).
Qed.

Lemma oblivious_assign lo hi column vals :
  oblivious (fun a => assign_column a lo hi column vals).
Proof.
  intros a a' Ha. unfold assign_column in *. bind_inv Ha.
  destruct (decide (length vals = length (column_cells lo hi a0))).
  - eexists. intros b [Hb _]. rewrite Hb, E. cbn [mbind result_bind].
    rewrite decide_True by assumption. reflexivity.
  - destruct vals as [|v [|]]; try discriminate.
    eexists. intros b [Hb _]. rewrite Hb, E. cbn [mbind result_bind].
    rewrite decide_False by assumption. reflexivity.
Qed.

Lemma oblivious_fill lo hi column v :
  oblivious (fun a => fill_column a lo hi column v).
Proof.
  intros a a' Ha. unfold fill_column in *. bind_inv Ha.
  eexists. intros b [Hb _]. rewrite Hb, E. reflexivity.
Qed.

Lemma fill_rows_store a lo hi v :
  exists ws, forall b, same_shape b a -> fill_rows b lo hi v = store ws b.
Proof.
  eexists. intros b [Hb _]. unfold fill_rows. rewrite Hb. reflexivity.
Qed.

(** ** A frame only stores into the color buffer *)

Ltac oblivious_steps :=
  repeat first
    [ apply oblivious_assign
    | apply oblivious_fill
    | apply oblivious_bind
    | apply oblivious_result; intros ].

Lemma reset_id s : reset s (_colors s) (colors s) (_pos_int s) = s.
Proof. destruct s. reflexivity. Qed.

Section Oblivious.
Context `{Exp}.

Lemma wall_strip_ext s s' ray_angle step side texture_index ray_pos :
  camera s' = camera s -> textures s' = textures s ->
  light_textures s' = light_textures s ->
  shape0 (_colors s') = shape0 (_colors s) ->
  wall_strip s' ray_angle step side texture_index ray_pos
  = wall_strip s ray_angle step side texture_index ray_pos.
Proof. unfold wall_strip. intros -> -> -> ->. reflexivity. Qed.

Lemma paint_store s column ray_angle ray_pos side st a' :
  paint s column ray_angle ray_pos side st = Ok a' ->
  exists ws, forall b p q,
    same_shape b (_colors s) ->
    paint (reset s b p q) column ray_angle ray_pos side st
    = Ok (store ws b).
Proof. unfold paint. cbv zeta. intros Hp.
  set (n := shape0 (_colors s)) in *.
  match type of Hp with
  | ?e = Ok a' =>
      let F := eval pattern (_colors s) in e in
      match F with
      | ?F' _ => assert (Hobl : oblivious F')
      end
  end.
  { apply oblivious_bind; [apply oblivious_assign|].
    destruct (ceiling s), (floor s); oblivious_steps. }
  destruct (Hobl _ _ Hp) as [ws Hws]. exists ws. intros b p q Hb.
  cbn [reset _colors ceiling floor ceiling_color floor_color camera
       _distances].
  destruct Hb as [Hb1 Hb0]. rewrite Hb0. fold n.
  apply (Hws b). split; assumption.
Qed.

Lemma bind_ret {A B} (a : A) (f : A -> result B) : Ok a ≫= f = f a.
Proof. reflexivity. Qed.

Lemma cast_ray_inv s column s1 :
  cast_ray s column = Ok s1 -> cast_ray_to s column s1.
Proof.
  unfold cast_ray. intros Hc.
  bind_inv Hc. bind_inv Hc. bind_inv Hc. bind_inv Hc. bind_inv Hc.
  bind_inv Hc. destruct a4 as [sides' rp|side ti sides' rp].
  - injection Hc as <-. eapply cast_no_wall; eassumption.
  - bind_inv Hc. bind_inv Hc. injection Hc as <-.
    eapply cast_wall; eassumption.
Qed.

Lemma cast_ray_intro s column s1 :
  cast_ray_to s column s1 -> cast_ray s column = Ok s1.
Proof.
  intros [ray_angle delta step sides k sides' ray_pos E E0 E1 E2 E3 E4
         |ray_angle delta step sides k side ti sides' ray_pos st a
            E E0 E1 E2 E3 E4 E5 E6];
    unfold cast_ray;
    rewrite E, bind_ret, E0, bind_ret, E1, bind_ret, E2, bind_ret,
            E3, bind_ret, E4, bind_ret.
  - reflexivity.
  - cbv zeta. rewrite E5, bind_ret, E6, bind_ret. reflexivity.
Qed.

Lemma reset_with_ray s b p q k sides ray_pos :
  reset (with_ray s k sides ray_pos) b p ray_pos
  = with_ray (reset s b p q) k sides ray_pos.
Proof. reflexivity. Qed.

Lemma reset_with__colors s a b p q :
  reset (with__colors s a) b p q = with__colors (reset s b p q) b.
Proof. reflexivity. Qed.

Lemma cast_ray_reset s column s1 :
  cast_ray s column = Ok s1 ->
  exists ws, forall b p q,
    same_shape b (_colors s) ->
    cast_ray (reset s b p q) column
    = Ok (reset s1 (store ws b) p (_pos_int s1)).
Proof.
  intros Hc. apply cast_ray_inv in Hc.
  destruct Hc as [ray_angle delta step sides k sides' ray_pos E E0 E1 E2 E3 E4
                 |ray_angle delta step sides k side ti sides' ray_pos st a
                    E E0 E1 E2 E3 E4 E5 E6].
  - exists []. intros b p q Hb. apply cast_ray_intro.
    change (store [] b) with b.
    change (_pos_int (with_ray s k sides' ray_pos)) with ray_pos.
    rewrite (reset_with_ray s b p q).
    eapply cast_no_wall; eassumption.
  - destruct (paint_store _ _ _ _ _ _ _ E6) as [ws Hws].
    exists ws. intros b p q Hb. apply cast_ray_intro.
    change (_pos_int (with__colors (with_ray s k sides' ray_pos) a))
      with ray_pos.
    rewrite reset_with__colors, (reset_with_ray s (store ws b) p q).
    change (with__colors (with_ray (reset s (store ws b) p q) k sides' ray_pos)
                         (store ws b))
      with (with__colors (with_ray (reset s b p q) k sides' ray_pos)
                         (store ws b)).
    eapply cast_wall; try eassumption.
    + rewrite <- E5. apply wall_strip_ext; try reflexivity. apply Hb.
    + rewrite <- (reset_with_ray s b p q). apply Hws. exact Hb.
Qed.

Lemma cast_ray_colors s column s1 :
  cast_ray s column = Ok s1 -> same_shape (_colors s1) (_colors s).
Proof. intros Hc. destruct (cast_ray_reset _ _ _ Hc) as [ws Hws].
  specialize (Hws (_colors s) (colors s) (_pos_int s) (same_shape_refl _)).
  rewrite reset_id, Hc in Hws. injection Hws as ->.
  cbn [reset _colors]. split; [apply shape1_store | apply shape0_store].
Qed.

Lemma cast_rays_reset columns :
  forall s s1,
    cast_rays columns s = Ok s1 ->
    exists ws, forall b p q,
      same_shape b (_colors s) ->
      (columns = [] -> q = _pos_int s) ->
      cast_rays columns (reset s b p q)
      = Ok (reset s1 (store ws b) p (_pos_int s1)).
Proof. induction columns as [|c columns IH]; intros s s1 Hc; cbn [cast_rays] in Hc.
  - injection Hc as <-. exists []. intros b p q _ Hq.
    rewrite (Hq eq_refl). reflexivity.
  - bind_inv Hc.
    destruct (cast_ray_reset _ _ _ E) as [ws1 H1].
    destruct (IH _ _ Hc) as [ws2 H2].
    pose proof (cast_ray_colors _ _ _ E) as [Hs1 Hs0].
    exists (ws1 ++ ws2). intros b p q Hb _.
    cbn [cast_rays]. rewrite (H1 b p q Hb). cbn [mbind result_bind].
    rewrite store_app. apply H2; [|reflexivity].
    destruct Hb as [Hb1 Hb0]. split.
    + rewrite shape1_store. congruence.
    + rewrite shape0_store. congruence.
Qed.

Lemma prefill_store s :
  exists ws, forall s',
    inputs s' = inputs s -> same_shape (_colors s') (_colors s) ->
    prefill s' = store ws (_colors s').
Proof. destruct (fill_rows_store (_colors s) 0
              (slice_bound (shape0 (_colors s)) (Z.of_nat (height s)))
              (ceiling_color s)) as [top Htop].
  destruct (fill_rows_store (_colors s)
              (slice_bound (shape0 (_colors s)) (Z.of_nat (height s)))
              (shape0 (_colors s)) (floor_color s)) as [bottom Hbottom].
  exists (match ceiling s, floor s with
          | None, None => top ++ bottom
          | None, Some _ => top
          | Some _, None => bottom
          | Some _, Some _ => []
          end).
  intros s' Hi Hs. unfold inputs in Hi.
  injection Hi as _ _ _ _ Hc Hcc Hf Hfc Hh _ _ _.
  unfold prefill. rewrite Hc, Hcc, Hf, Hfc, Hh.
  destruct Hs as [Hs1 Hs0]. rewrite Hs0.
  destruct (ceiling s), (floor s).
  - reflexivity.
  - apply Hbottom. split; assumption.
  - apply Htop. split; assumption.
  - rewrite store_app, <- (Htop (_colors s')) by (split; assumption).
    apply Hbottom. unfold fill_rows.
    split; [rewrite shape1_store | rewrite shape0_store]; assumption.
Qed.

Lemma prepare_reset s s' :
  inputs s' = inputs s ->
  prepare s' = reset (prepare s) (prefill s') (colors s') (_pos_int s').
Proof. unfold inputs. intros Hi.
  injection Hi as Hm Hcam Ht Hl Hc Hcc Hf Hfc Hh Hw Ha Hd.
  unfold prepare, reset. cbn.
  rewrite Hm, Hcam, Ht, Hl, Hc, Hcc, Hf, Hfc, Hh, Hw, Ha, Hd. reflexivity.
Qed.

(** X17: a frame rendered again from the state the first frame left,
    with the map, the camera, the textures and the size unchanged, is
    the same frame: the same color buffer, the same packed colors, and
    the same scratch buffers. *)
Theorem render_idempotent s s1 :
  render s = Ok s1 -> render s1 = Ok s1.
Proof. intros Hr. pose proof (render_inputs _ _ Hr) as Hin.
  unfold render in Hr. bind_inv Hr. bind_inv Hr.
  destruct (decide _) as [Hshape|]; [|discriminate]. injection Hr as <-.
  rename a into s2, a0 into packed.
  destruct (cast_rays_reset _ _ _ E) as [ws Hws].
  destruct (prefill_store s) as [pre Hpre].
  (* the first frame stored [pre] and then [ws] *)
  assert (Hs2 : _colors s2 = store (pre ++ ws) (_colors s)).
  { specialize (Hws (_colors (prepare s)) (colors (prepare s))
                    (_pos_int (prepare s)) (same_shape_refl _) (fun _ => eq_refl)).
    rewrite reset_id, E in Hws. injection Hws as Hws.
    rewrite Hws at 1. cbn [reset _colors prepare]. rewrite store_app.
    f_equal. apply Hpre; [reflexivity | apply same_shape_refl]. }
  assert (Hshape2 : same_shape (_colors s2) (_colors s)).
  { rewrite Hs2. split; [apply shape1_store | apply shape0_store]. }
  set (s1 := with_colors s2 packed) in *.
  assert (Hwidth : width s1 = width s).
  { unfold inputs in Hin. injection Hin as _ _ _ _ _ _ _ _ _ Hw _ _.
    exact Hw. }
  unfold render. rewrite Hwidth, (prepare_reset s s1 Hin).
  rewrite (Hws (prefill s1) (colors s1) (_pos_int s1)).
  - rewrite bind_ret.
    change (_colors (reset s2 (store ws (prefill s1)) (colors s1)
                           (_pos_int s2)))
      with (store ws (prefill s1)).
    rewrite (Hpre s1 Hin Hshape2).
    replace (store ws (store pre (_colors s1))) with (_colors s2).
    2:{ change (_colors s1) with (_colors s2).
        rewrite <- store_app, Hs2. symmetry. apply store_idem. }
    rewrite E0, bind_ret.
    change (height (reset s2 (_colors s2) (colors s1) (_pos_int s2)))
      with (height s2).
    change (width (reset s2 (_colors s2) (colors s1) (_pos_int s2)))
      with (width s2).
    rewrite decide_True by exact Hshape.
    f_equal.
  - change (_colors (prepare s)) with (prefill s).
    rewrite (Hpre s1 Hin Hshape2).
    rewrite (Hpre s eq_refl (same_shape_refl _)).
    destruct Hshape2 as [A B].
    split.
    + rewrite !shape1_store. exact A.
    + rewrite !shape0_store. exact B.
  - intros Hnil. cbn [prepare _pos_int].
    change (_pos_int s1) with (_pos_int s2).
    rewrite Hnil in E. cbn in E. injection E as <-. reflexivity.
Qed.

End Oblivious.

Lemma render_idempotent_witness :
  match render (H := exp_series) small_room with
  | Ok s1 => render (H := exp_series) s1 = Ok s1
  | Raise _ => False
  end.
Proof.
  destruct (render (H := exp_series) small_room) as [s1|e] eqn:E.
  - exact (render_idempotent (H := exp_series) _ _ E).
  - vm_compute in E. discriminate E.
Defined.

(** ** Reading the color buffer after stores *)

Lemma get_px_set_px r' c' v a r c :
  get_px (set_px r' c' v a) r c
  = if decide ((r', c') = (r, c)) then (fun _ => v) <$> get_px a r c
    else get_px a r c.
Proof.
  unfold get_px, set_px. cbn [rows]. rewrite list_lookup_alter.
  destruct (decide (r' = r)) as [->|Hr].
  - destruct (rows a !! r) as [row|]; cbn.
    + rewrite list_lookup_insert.
      destruct (decide ((r, c') = (r, c))) as [Hp|Hp];
        destruct (decide (c' = c /\ (c' < length row)%nat)) as [[Hc Hlt]|Hn];
        try congruence.
      * injection Hp as ->.
        destruct (lookup_lt_is_Some_2 row c Hlt) as [x ->]. reflexivity.
      * injection Hp as ->.
        rewrite (proj2 (lookup_ge_None row c)) by lia. reflexivity.
    + destruct (decide _); reflexivity.
  - rewrite decide_False by congruence. reflexivity.
Qed.

(** A cell no store names keeps its value. *)
Lemma get_px_store_other ws r c :
  Forall (fun w => w.1 <> (r, c)) ws ->
  forall a, get_px (store ws a) r c = get_px a r c.
Proof.
  induction 1 as [|w ws Hw _ IH]; intros a; [reflexivity|].
  rewrite store_cons, IH, get_px_set_px.
  rewrite decide_False; [reflexivity|].
  destruct w as [[r' c'] v]. exact Hw.
Qed.



Lemma column_cells_rows lo hi c r c' :
  (r, c') ∈ column_cells lo hi c -> (lo <= r < hi)%nat /\ c' = c.
Proof.
  unfold column_cells. intros Hin. apply list_elem_of_fmap in Hin.
  destruct Hin as (x & [= -> ->] & Hx). apply elem_of_seq in Hx. lia.
Qed.

Lemma zip_cells_in lo hi c (vals : list color) :
  Forall (fun w => w.1 ∈ column_cells lo hi c) (zip (column_cells lo hi c) vals).
Proof.
  apply Forall_forall. intros [p v] Hin. cbn.
  apply (elem_of_zip_l _ _ _ _ Hin).
Qed.

Lemma fill_cells_in lo hi c (v : color) :
  Forall (fun w => w.1 ∈ column_cells lo hi c) ((., v) <$> column_cells lo hi c).
Proof.
  apply Forall_fmap, Forall_forall. intros p Hin. exact Hin.
Qed.





(** ** The wall strip in the color buffer *)

Lemma mapM_Ok {A B} (f : A -> result B) l :
  forall k, mapM f l = Ok k -> Forall2 (fun x y => f x = Ok y) l k.
Proof.
  induction l as [|x l IH]; intros k Hk; cbn in Hk.
  - injection Hk as <-. constructor.
  - bind_inv Hk. bind_inv Hk. injection Hk as <-.
    constructor; [exact E | apply IH; exact E0].
Qed.

Lemma slice_bound_inside n z :
  0 <= z <= Z.of_nat n -> slice_bound n z = Z.to_nat z.
Proof.
  intros Hz. unfold slice_bound.
  destruct (Z.ltb_spec z 0); [lia|]. f_equal. lia.
Qed.

Lemma py_index_nonneg_inv n i k :
  0 <= i -> py_index n i = Ok k -> k = Z.to_nat i.
Proof.
  intros Hi. unfold py_index.
  destruct (Z.leb_spec 0 i); [|lia].
  destruct (Z.ltb_spec i (Z.of_nat n)); cbn.
  - intros [= <-]. reflexivity.
  - destruct (Z.ltb_spec i 0); [lia|]. rewrite andb_false_r. discriminate.
Qed.

Lemma tex_ys_of_length tex_h column_height drawn_height l :
  tex_ys_of tex_h column_height drawn_height = Ok l ->
  length l = Z.to_nat drawn_height.
Proof.
  unfold tex_ys_of. destruct (column_height =? 0); [discriminate|].
  destruct (drawn_height <? 0); [discriminate|]. intros [= <-].
  unfold linspace_excl. rewrite length_fmap, length_map, length_seq.
  reflexivity.
Qed.




Section Fog.
Context `{Exp}.

(** The colors of a computed strip: the texels of column [tex_x] at the
    rows [tex_ys], darkened. *)
Lemma wall_strip_column s ray_angle step side texture_index ray_pos st :
  wall_strip s ray_angle step side texture_index ray_pos = Ok st ->
  exists sampled,
    Forall2 (fun y c => px_at (texture st) (y, tex_x st) = Ok c)
            (tex_ys st) sampled /\
    texture_column st = darken (distance st) <$> sampled /\
    length (tex_ys st) = Z.to_nat (end_ st - start st).
Proof.
  unfold wall_strip. intros Hs.
  bind_inv Hs. bind_inv Hs. bind_inv Hs. bind_inv Hs. bind_inv Hs.
  injection Hs as <-. cbn [texture tex_x tex_ys texture_column distance
                           start end_].
  exists a3. split; [|split].
  - apply mapM_Ok. exact E3.
  - reflexivity.
  - apply tex_ys_of_length in E2. exact E2.
Qed.



Lemma strip_of_eq s column ray_angle delta step sides c :
  item (_rotated_angles s) column = Ok ray_angle ->
  item (_deltas s) column = Ok delta ->
  item (_steps s) column = Ok step ->
  item (_sides s) column = Ok sides ->
  casting HOPS (map s) delta step sides
    (to_int16 (pos (camera s)).1, to_int16 (pos (camera s)).2) = Ok c ->
  strip_of s column
  = match c with
    | NoWall _ _ => Ok None
    | Wall side texture_index _ ray_pos =>
        st ← wall_strip s ray_angle step side texture_index ray_pos;
        Ok (Some st)
    end.
Proof.
  intros E E0 E1 E2 E4. unfold strip_of, ray_of.
  rewrite E, bind_ret, E0, bind_ret, E1, bind_ret, E2, bind_ret, bind_ret.
  rewrite E4, bind_ret. reflexivity.
Qed.


End Fog.


(** C2: with a ceiling and a floor texture, a column that finds no wall is
    not painted at all.  The long corridor is rendered near its east wall;
    the camera then moves to the west end, where the middle column finds
    no wall within [HOPS] cells; the next frame is rendered without error,
    and rows 3 and 4 of that column still hold the wall of the frame
    before, between stale ceiling and floor texels. *)
Theorem no_wall_column_is_stale :
  strip_of (H := exp_series) (prepare long_corridor) 1
    = Ok (Some {| distance := Fin (5 # 2); column_height := 3;
                  half_column := 1; start := 3; end_ := 5;
                  texture := red; wall_x := Fin (1 # 2); tex_x := 1;
                  tex_ys := [0; 2];
                  texture_column := [(176, 0, 0); (176, 0, 0)] |}) /\
  strip_of (H := exp_series) (prepare long_corridor_later) 1 = Ok None /\
  match render (H := exp_series) long_corridor_later with
  | Ok s =>
      column_of (_colors s) 1
      = Some <$> [(7, 7, 7); (7, 7, 7); (7, 7, 7);
                  (176, 0, 0); (176, 0, 0);
                  (9, 9, 9); (9, 9, 9); (9, 9, 9)]
  | Raise _ => False
  end.
Proof.
  split; [vm_compute; reflexivity|].
  split; vm_compute; reflexivity.
Qed.

(** C4: a frame is not a function of the map, the camera, the textures and
    the size.  The long corridor one frame later and a widget built with
    the camera at the west end from the start agree on all of them, and on
    the tables of [resize]; both render without error, and the middle
    column, which finds no wall, is black in the new widget and holds the
    pixels of the earlier frame in the other.  It is the defect of
    [no_wall_column_is_stale]: with a texture configured, the column is
    neither pre-filled by [render] nor painted by [cast_ray]. *)
Theorem frame_depends_on_earlier_frame :
  inputs long_corridor_later = inputs long_corridor_west /\
  match render (H := exp_series) long_corridor_west,
        render (H := exp_series) long_corridor_later with
  | Ok fresh, Ok later =>
      column_of (_colors fresh) 1 = Some <$> replicate 8 (0, 0, 0) /\
      column_of (_colors later) 1
      = Some <$> [(7, 7, 7); (7, 7, 7); (7, 7, 7);
                  (176, 0, 0); (176, 0, 0);
                  (9, 9, 9); (9, 9, 9); (9, 9, 9)] /\
      _colors fresh <> _colors later /\
      colors fresh <> colors later
  | _, _ => False
  end.
Proof.
  split; [vm_compute; reflexivity|].
  vm_compute. repeat split; try reflexivity; discriminate.
Qed.

(** ** More on the casting loop *)

Lemma probes_S n m delta step sides p :
  probes (S n) m delta step sides p
  = let side := next_side sides in
    let sides' := set2 sides side (add (at2 sides side) (at2 delta side)) in
    let p' := hop step p side in
    p' :: match map_at m p' with
          | Ok 0 => probes n m delta step sides' p'
          | _ => []
          end.
Proof. reflexivity. Qed.

Lemma casting_S n m delta step sides p :
  casting (S n) m delta step sides p
  = let side := next_side sides in
    let sides' := set2 sides side (add (at2 sides side) (at2 delta side)) in
    let p' := hop step p side in
    texture_index ← map_at m p';
    if texture_index =? 0 then casting n m delta step sides' p'
    else Ok (Wall side texture_index sides' p').
Proof. reflexivity. Qed.

(** X1: the wall the loop returns is the first non-zero cell on the path
    it read, and without a wall the loop has read exactly [hops] cells, all
    of them zero, and stopped on the last one. *)
Theorem casting_first_wall n m delta step :
  forall sides p c,
    casting n m delta step sides p = Ok c ->
    match c with
    | Wall side texture_index sides' ray_pos =>
        exists earlier,
          probes n m delta step sides p = earlier ++ [ray_pos] /\
          Forall (fun q => map_at m q = Ok 0) earlier /\
          map_at m ray_pos = Ok texture_index /\ texture_index <> 0
    | NoWall sides' ray_pos =>
        length (probes n m delta step sides p) = n /\
        Forall (fun q => map_at m q = Ok 0) (probes n m delta step sides p) /\
        last (p :: probes n m delta step sides p) = Some ray_pos
    end.
Proof.
  induction n as [|n IH]; intros sides p c Hc.
  - injection Hc as <-. cbn. repeat split. constructor.
  - rewrite casting_S in Hc. cbv zeta in Hc. bind_inv Hc.
    rewrite probes_S. cbv zeta. rewrite E.
    set (sd := next_side sides) in *.
    set (sides1 := set2 sides sd (add (at2 sides sd) (at2 delta sd))) in *.
    set (p1 := hop step p sd) in *.
    destruct (Z.eqb_spec a 0) as [->|Ha].
    + specialize (IH _ _ _ Hc). destruct c as [sides' rp|side ti sides' rp].
      * destruct IH as (Hlen & Hall & Hlast). split; [|split].
        -- cbn [length]. rewrite Hlen. reflexivity.
        -- constructor; assumption.
        -- rewrite <- Hlast. reflexivity.
      * destruct IH as (earlier & Heq & Hall & Hat & Hti).
        exists (p1 :: earlier). rewrite Heq. repeat split; try assumption.
        constructor; assumption.
    + injection Hc as <-. exists []. repeat split; try assumption.
      * destruct a; [congruence | reflexivity..].
      * constructor.
Qed.

Lemma casting_first_wall_witness :
  exists earlier,
    probes 20 (room 5 7) (Inf false, of_Z 1) (0, 1) (NaN, Fin (1 # 2)) (2, 1)
    = earlier ++ [(2, 6)] /\
    Forall (fun q => map_at (room 5 7) q = Ok 0) earlier /\
    map_at (room 5 7) (2, 6) = Ok 1 /\ 1 <> 0.
Proof.
  apply (casting_first_wall 20 (room 5 7) (Inf false, of_Z 1) (0, 1)
           (NaN, Fin (1 # 2)) (2, 1) (Wall side1 1 (NaN, Fin (11 # 2)) (2, 6))).
  vm_compute. reflexivity.
Defined.

Lemma hop_distance step p side :
  -1 <= at2 step side <= 1 ->
  -32767 <= at2 p side <= 32766 ->
  let p' := hop step p side in
  Z.abs (p'.1 - p.1) + Z.abs (p'.2 - p.2) <= 1 /\
  (forall a, Z.abs (at2 p' a) <= Z.abs (at2 p a) + 1).
Proof.
  intros Hs Hp. unfold hop.
  destruct p as [p1 p2], side; cbn [at2 set2 fst snd] in *;
    rewrite wrap16_small by lia; (split; [lia|]); intros []; cbn; lia.
Qed.

Lemma probes_near m delta step :
  (forall side, -1 <= at2 step side <= 1) ->
  forall n sides p,
    (forall a, Z.abs (at2 p a) + Z.of_nat n <= 32767) ->
    (length (probes n m delta step sides p) <= n)%nat /\
    forall k q,
      probes n m delta step sides p !! k = Some q ->
      Z.abs (q.1 - p.1) + Z.abs (q.2 - p.2) <= Z.of_nat k + 1.
Proof.
  intros Hstep. induction n as [|n IH]; intros sides p Hp.
  - split; [reflexivity|]. intros k q [=].
  - rewrite probes_S. cbv zeta.
    set (sd := next_side sides).
    set (sides1 := set2 sides sd (add (at2 sides sd) (at2 delta sd))).
    pose proof (Hp sd) as Hsd.
    destruct (hop_distance step p sd (Hstep sd) ltac:(lia)) as [H1 Hnear].
    set (p1 := hop step p sd) in *.
    assert (Hp1 : forall a, Z.abs (at2 p1 a) + Z.of_nat n <= 32767).
    { intros a. specialize (Hnear a). specialize (Hp a). lia. }
    destruct (IH sides1 p1 Hp1) as [Hlen Hall].
    assert (Hrest : forall l,
              (l = probes n m delta step sides1 p1 \/ l = []) ->
              (length (p1 :: l) <= S n)%nat /\
              forall k q, (p1 :: l) !! k = Some q ->
                Z.abs (q.1 - p.1) + Z.abs (q.2 - p.2) <= Z.of_nat k + 1).
    { intros l Hl. split.
      - destruct Hl as [-> | ->]; cbn [length]; lia.
      - intros [|k] q Hq; cbn in Hq.
        + injection Hq as <-. lia.
        + destruct Hl as [-> | ->]; [|discriminate].
          specialize (Hall k q Hq). lia. }
    destruct (map_at m p1) as [[| |]|]; apply Hrest; auto.
Qed.

Lemma probes_of_eq s column ray_angle delta step sides ray_pos :
  ray_of s column = Ok (ray_angle, delta, step, sides, ray_pos) ->
  probes_of s column = Ok (probes HOPS (map s) delta step sides ray_pos).
Proof. intros E. unfold probes_of. rewrite E. reflexivity. Qed.

Lemma probes_of_inv s column l :
  probes_of s column = Ok l ->
  exists ray_angle delta step sides ray_pos,
    ray_of s column = Ok (ray_angle, delta, step, sides, ray_pos) /\
    l = probes HOPS (map s) delta step sides ray_pos.
Proof.
  intros Hl. destruct (ray_of s column) as [r|e] eqn:E.
  - destruct r as [[[[ray_angle delta] step] sides] ray_pos].
    rewrite (probes_of_eq _ _ _ _ _ _ _ E) in Hl.
    exists ray_angle, delta, step, sides, ray_pos.
    split; [reflexivity | congruence].
  - unfold probes_of in Hl. rewrite E in Hl. discriminate Hl.
Qed.

(** X2: a ray reads at most [HOPS] cells, and the [k]-th cell it reads is
    at most [k] unit steps (counted from 1) away from the camera's cell. *)
Theorem probes_reach s column l :
  probes_of (prepare s) column = Ok l ->
  let cell := (to_int16 (pos (camera s)).1, to_int16 (pos (camera s)).2) in
  Z.abs cell.1 <= 32000 -> Z.abs cell.2 <= 32000 ->
  (length l <= HOPS)%nat /\
  forall k q,
    l !! k = Some q ->
    Z.abs (q.1 - cell.1) + Z.abs (q.2 - cell.2) <= Z.of_nat k + 1.
Proof.
  intros Hl cell H1 H2.
  destruct (probes_of_inv _ _ _ Hl)
    as (ray_angle & delta & step & sides & ray_pos & E & ->).
  destruct (ray_of_prepare _ _ _ _ _ _ _ E) as (-> & -> & ->).
  assert (Hcell : forall a, Z.abs (at2 cell a) + Z.of_nat HOPS <= 32767).
  { intros a. destruct a; cbn [at2]; unfold HOPS; lia. }
  exact (probes_near (map (prepare s)) (delta_of ray_angle)
           (step_of ray_angle) (step_of_range ray_angle) HOPS sides cell
           Hcell).
Qed.

Lemma probes_reach_witness :
  match probes_of (prepare small_room) 0 with
  | Ok l =>
      (length l <= HOPS)%nat /\
      forall k q,
        l !! k = Some q ->
        Z.abs (q.1 - 2) + Z.abs (q.2 - 1) <= Z.of_nat k + 1
  | Raise _ => False
  end.
Proof.
  destruct (probes_of (prepare small_room) 0) as [l|e] eqn:E.
  - apply (probes_reach small_room 0 l E); vm_compute; discriminate.
  - vm_compute in E. discriminate E.
Defined.

(** ** A ray along the first axis *)

Lemma ray_of_prepare_sides s column ray_angle delta step sides ray_pos :
  ray_of (prepare s) column = Ok (ray_angle, delta, step, sides, ray_pos) ->
  sides = side_of (mod1 (pos (camera s)).1, mod1 (pos (camera s)).2)
                  (step_of ray_angle) (delta_of ray_angle).
Proof.
  unfold ray_of. intros Hr.
  bind_inv Hr. bind_inv Hr. bind_inv Hr. bind_inv Hr.
  injection Hr as <- <- <- <- <-.
  cbn [prepare _rotated_angles _sides camera] in E, E2.
  apply item_Ok in E. destruct E as (k & Hk & Ek).
  apply item_Ok in E2. destruct E2 as (k' & Hk' & Ek').
  rewrite length_zip_with, !length_fmap, Nat.min_id in Hk'.
  rewrite length_fmap in Hk. rewrite Hk in Hk'. injection Hk' as <-.
  rewrite lookup_zip_with, (list_lookup_fmap step_of),
    (list_lookup_fmap delta_of), Ek in Ek'.
  cbn in Ek'. injection Ek' as <-. reflexivity.
Qed.

Lemma side_of_level f a b :
  (b == 0)%Q ->
  (side_of f (step_of (a, Fin b)) (delta_of (a, Fin b))).2 = NaN.
Proof.
  intros Hb. pose proof (proj2 (qzero_true b) Hb) as Hz.
  assert (Hn : Qnum b = 0) by (unfold qzero in Hz; lia).
  unfold side_of, step_of, delta_of. cbn [fst snd sign16].
  rewrite Hn. cbn [Z.sgn heaviside1 Z.ltb Z.compare].
  unfold of_Z at 3. unfold div. rewrite Hz. cbn [qzero inject_Z Qnum Z.eqb abs].
  destruct (sub (of_Z 1) f.2) as [x|[]|]; cbn [mul of_Z]; try reflexivity.
  assert (Hx : qzero (Qred (x * inject_Z 0)) = true).
  { apply qzero_true. rewrite Qred_correct. change (inject_Z 0) with 0%Q. ring. }
  rewrite Hx. reflexivity.
Qed.

Lemma wrap16_range z : -32768 <= wrap16 z <= 32767.
Proof. unfold wrap16. pose proof (Z.mod_pos_bound (z + 32768) 65536). lia. Qed.

Lemma to_int16_range x : -32768 <= to_int16 x <= 32767.
Proof. destruct x; cbn [to_int16]; [apply wrap16_range | lia..]. Qed.

(** Without a step along the second axis and with [nan] as its side
    distance, the loop picks the second axis at every hop and stays where
    it is. *)
Lemma casting_stuck m delta step p :
  step.2 = 0 -> -32768 <= p.2 <= 32767 -> map_at m p = Ok 0 ->
  forall n sides,
    sides.2 = NaN ->
    probes n m delta step sides p = replicate n p /\
    exists sides', casting n m delta step sides p = Ok (NoWall sides' p).
Proof.
  intros Hstep Hp Hopen.
  assert (Hhop : hop step p side1 = p).
  { destruct p as [p1 p2]. unfold hop. cbn [at2 set2 fst snd] in *.
    rewrite Hstep, Z.add_0_r, wrap16_small by lia. reflexivity. }
  induction n as [|n IH]; intros sides Hs.
  - split; [reflexivity|]. eexists. reflexivity.
  - assert (Hnext : next_side sides = side1).
    { unfold next_side. rewrite Hs. destruct sides.1 as [?|?|]; reflexivity. }
    rewrite probes_S, casting_S. cbv zeta. rewrite Hnext, Hhop, Hopen.
    rewrite bind_ret. cbn [Z.eqb].
    destruct (IH (set2 sides side1 (add (at2 sides side1) (at2 delta side1))))
      as [IHp IHc].
    { cbn [set2 at2 snd]. rewrite Hs. reflexivity. }
    split; [cbn [replicate]; f_equal; exact IHp | exact IHc].
Qed.

(** X3: a ray whose component along the second axis is zero never leaves
    the camera's cell: the loop reads that cell [HOPS] times and, the cell
    being open, ends without a wall, whatever the map holds ahead. *)
Theorem level_ray_is_stuck `{Exp} s column ray_angle delta step sides
    ray_pos (b : Q) :
  ray_of (prepare s) column = Ok (ray_angle, delta, step, sides, ray_pos) ->
  ray_angle.2 = Fin b -> (b == 0)%Q ->
  map_at (map s) ray_pos = Ok 0 ->
  probes_of (prepare s) column = Ok (replicate HOPS ray_pos) /\
  strip_of (prepare s) column = Ok None.
Proof.
  intros Hray Hb Hzero Hopen.
  pose proof (ray_of_prepare_sides _ _ _ _ _ _ _ Hray) as Hsides.
  destruct (ray_of_prepare _ _ _ _ _ _ _ Hray) as (Hdelta & Hstep & Hpos).
  destruct ray_angle as [a b']. cbn [snd] in Hb. subst b'.
  assert (Hs2 : sides.2 = NaN) by (rewrite Hsides; apply side_of_level, Hzero).
  assert (Hst : step.2 = 0).
  { rewrite Hstep. cbn [step_of snd sign16].
    apply qzero_true in Hzero. unfold qzero in Hzero.
    apply Z.eqb_eq in Hzero. rewrite Hzero. reflexivity. }
  assert (Hp : -32768 <= ray_pos.2 <= 32767)
    by (rewrite Hpos; apply to_int16_range).
  destruct (casting_stuck (map (prepare s)) delta step ray_pos Hst Hp Hopen
              HOPS sides Hs2) as [Hprobes [sides' Hcast]].
  split.
  - rewrite (probes_of_eq _ _ _ _ _ _ _ Hray). f_equal. exact Hprobes.
  - unfold strip_of. rewrite Hray, bind_ret. cbv beta iota.
    rewrite Hcast, bind_ret. reflexivity.
Qed.

Lemma level_ray_is_stuck_witness :
  probes_of (prepare south_room) 1 = Ok (replicate HOPS (1, 2)) /\
  strip_of (H := exp_series) (prepare south_room) 1 = Ok None.
Proof.
  apply (level_ray_is_stuck (H := exp_series) south_room 1
           (of_Z 1, of_Z 0) (of_Z 1, Inf false) (1, 0) (Fin (1 # 2), NaN)
           (1, 2) 0).
  - vm_compute. reflexivity.
  - reflexivity.
  - reflexivity.
  - vm_compute. reflexivity.
Defined.

(** ** The texels of a strip *)

Lemma lookup_map {A B} (f : A -> B) (l : list A) i :
  List.map f l !! i = f <$> l !! i.
Proof. revert i. induction l as [|a l IH]; intros [|i]; cbn; auto. Qed.

Lemma Ok_inj {A} (a b : A) : Ok a = Ok b -> a = b.
Proof. intros [=]. assumption. Qed.

Lemma qzero_inject_Z z : z <> 0 -> qzero (inject_Z z) = false.
Proof. intros Hz. unfold qzero. cbn. apply Z.eqb_neq. exact Hz. Qed.

(** The elements of [np.linspace(a, b, n, endpoint=False)]. *)
Lemma linspace_excl_lookup a b n i :
  (i < n)%nat ->
  exists v,
    linspace_excl (Fin a) (Fin b) n !! i = Some (Fin v) /\
    (v == a + inject_Z (Z.of_nat i) * ((b - a) / inject_Z (Z.of_nat n)))%Q.
Proof.
  intros Hi. unfold linspace_excl. rewrite lookup_map.
  rewrite (proj2 (lookup_seq 0 n i i)) by (split; [reflexivity | exact Hi]).
  cbn [fmap option_fmap option_map sub opp add of_Z].
  unfold of_Z. rewrite div_Fin by (apply qzero_inject_Z; lia).
  cbn [mul add]. eexists. split; [reflexivity|].
  rewrite !Qred_correct. field.
  intros E. apply qzero_true in E.
  rewrite qzero_inject_Z in E by lia. discriminate E.
Qed.

Lemma Qfloor_range (v : Q) (n : Z) :
  (0 <= v)%Q -> (v < inject_Z n)%Q -> 0 <= qtrunc v < n.
Proof.
  intros H0 H1. rewrite qtrunc_floor by exact H0. split.
  - apply (Qfloor_resp_le 0 v) in H0. exact H0.
  - rewrite Zlt_Qlt. eapply Qle_lt_trans; [apply Qfloor_le | exact H1].
Qed.

(** The rows of the texture a column reads lie in the texture. *)
Lemma tex_ys_of_range tex_h column_height drawn_height ys :
  tex_ys_of tex_h column_height drawn_height = Ok ys ->
  0 < tex_h -> 0 < column_height -> drawn_height <= column_height ->
  Forall (fun y => 0 <= y < tex_h) ys.
Proof.
  intros Hys Ht Hc Hd. unfold tex_ys_of, of_Z in Hys. cbv zeta in Hys.
  rewrite !div_Fin in Hys by (apply qzero_inject_Z; lia).
  cbn [mul add] in Hys.
  destruct (Z.eqb_spec column_height 0); [lia|].
  destruct (Z.ltb_spec drawn_height 0); [discriminate|].
  apply Ok_inj in Hys. subst ys. apply Forall_lookup. intros i y Hy.
  rewrite list_lookup_fmap in Hy.
  assert (Hi : (i < Z.to_nat drawn_height)%nat).
  { destruct (linspace_excl _ _ _ !! i) eqn:E; [|discriminate].
    apply lookup_lt_Some in E. unfold linspace_excl in E.
    rewrite length_map, length_seq in E. exact E. }
  match type of Hy with
  | context [linspace_excl (Fin ?a) (Fin ?b) _] =>
      destruct (linspace_excl_lookup a b _ i Hi) as (v & Ev & Hv)
  end.
  rewrite Ev in Hy. cbn in Hy. injection Hy as <-.
  rewrite !Qred_correct in Hv. rewrite Z2Nat.id in Hv by lia.
  set (C := inject_Z column_height) in *.
  set (D := inject_Z drawn_height) in *.
  set (T := inject_Z tex_h) in *.
  set (I := inject_Z (Z.of_nat i)) in *.
  assert (HC : (0 < C)%Q) by (unfold C; rewrite <- (Zlt_Qlt 0); exact Hc).
  assert (HT : (0 < T)%Q) by (unfold T; rewrite <- (Zlt_Qlt 0); exact Ht).
  assert (HI : (0 <= I)%Q) by (unfold I; rewrite <- (Zle_Qle 0); lia).
  assert (HID : (I + 1 <= D)%Q).
  { unfold I, D. change 1%Q with (inject_Z 1). rewrite <- inject_Z_plus.
    rewrite <- Zle_Qle. lia. }
  assert (HDC : (D <= C)%Q) by (unfold D, C; rewrite <- Zle_Qle; exact Hd).
  assert (Hsub : (inject_Z (column_height - drawn_height) == C - D)%Q).
  { unfold C, D, Z.sub. rewrite inject_Z_plus, inject_Z_opp. ring. }
  rewrite Hsub in Hv. change (inject_Z 2) with 2%Q in Hv.
  assert (HD : ~ (D == 0)%Q) by (intros E; rewrite E in HID; lra).
  assert (HCn : ~ (C == 0)%Q) by (intros E; rewrite E in HC; lra).
  assert (Hval : (v == ((C - D) * (1 # 2) + I) * T / C)%Q).
  { rewrite Hv. field. split; assumption. }
  apply Qfloor_range; rewrite Hval.
  - apply Qdiv_nonneg; [|exact HC]. apply Qmult_le_0_compat; lra.
  - apply Qlt_shift_div_r; [exact HC|]. fold T.
    assert (Hlt : ((C - D) * (1 # 2) + I < C)%Q) by lra.
    apply Qmult_lt_compat_r with (z := T) in Hlt; [|exact HT]. lra.
Qed.

(** The remainder [% 1] lies between 0 and 1, and below 1 when the number
    is not negative. *)
Lemma qtrunc_frac q :
  (-1 < q - inject_Z (qtrunc q))%Q /\ (q - inject_Z (qtrunc q) < 1)%Q /\
  ((0 <= q)%Q -> (0 <= q - inject_Z (qtrunc q))%Q).
Proof.
  destruct (Qlt_le_dec q 0) as [Hneg|Hpos].
  - assert (E : qtrunc q = - Qfloor (- q)).
    { rewrite <- qtrunc_floor by lra. destruct q as [n d].
      unfold qtrunc. cbn [Qopp Qnum Qden].
      rewrite Z.quot_opp_l by lia. lia. }
    rewrite E, inject_Z_opp.
    pose proof (Qfloor_le (- q)) as Hlo. pose proof (Qlt_floor (- q)) as Hhi.
    rewrite inject_Z_plus in Hhi. change (inject_Z 1) with 1%Q in Hhi.
    repeat split; lra.
  - rewrite qtrunc_floor by exact Hpos.
    pose proof (Qfloor_le q) as Hlo. pose proof (Qlt_floor q) as Hhi.
    rewrite inject_Z_plus in Hhi. change (inject_Z 1) with 1%Q in Hhi.
    repeat split; lra.
Qed.

Lemma qneg_true q : qneg q = true <-> (q < 0)%Q.
Proof. unfold qneg, Qlt. cbn. rewrite Z.ltb_lt. lia. Qed.

Lemma mod1_range v (w : Q) :
  mod1 v = Fin w ->
  (0 <= w)%Q /\ (w <= 1)%Q /\
  (forall q, v = Fin q -> (0 <= q)%Q -> (w < 1)%Q).
Proof.
  destruct v as [q| |]; try discriminate. cbn [mod1].
  destruct (qtrunc_frac q) as (Hlo & Hhi & Hpos).
  set (r := Qred (q - inject_Z (qtrunc q))).
  assert (Hr : (r == q - inject_Z (qtrunc q))%Q) by apply Qred_correct.
  destruct (qneg r) eqn:Hn; intros [= <-].
  - apply qneg_true in Hn.
    assert (H0 : (0 <= r + 1)%Q) by lra.
    assert (H1 : (r + 1 <= 1)%Q) by lra.
    apply round64_le in H0, H1.
    change (round64 0) with 0%Q in H0. change (round64 1) with 1%Q in H1.
    split; [exact H0|]. split; [exact H1|].
    intros q' [= <-] Hq. specialize (Hpos Hq). lra.
  - assert (Hge : (0 <= r)%Q).
    { apply Qnot_lt_le. intros Hlt. apply qneg_true in Hlt. congruence. }
    split; [exact Hge|]. split; [lra|]. intros _ _ _. lra.
Qed.

(** A negative number of magnitude [2 ^ -60]: the remainder is 1.0, and
    the column of the texture is the texture's width, or -1 after the sign
    correction. *)
Lemma wall_x_rounds_to_one :
  let x := Fin (- (1 # 2 ^ 60)) in
  mod1 x = of_Z 1 /\
  tex_x_of side1 (mod1 x) 4 (of_Z 0, of_Z (-1)) = Ok 4 /\
  tex_x_of side1 (mod1 x) 4 (of_Z 0, of_Z 1) = Ok (-1).
Proof. vm_compute. auto. Qed.

(** The column of the texture lies in the texture, for a hit below the end
    of the wall. *)
Lemma tex_x_of_range side (w : Q) tex_w ray_angle x :
  tex_x_of side (Fin w) tex_w ray_angle = Ok x ->
  (0 <= w)%Q -> (w < 1)%Q -> 0 < tex_w -> 0 <= x < tex_w.
Proof.
  unfold tex_x_of. intros Hx H0 H1 Hw. bind_inv Hx.
  cbn [mul of_Z py_int] in E. injection E as <-.
  match type of Hx with
  | context [qtrunc ?u] =>
      assert (Hr : 0 <= qtrunc u < tex_w)
  end.
  { assert (HW : (0 < inject_Z tex_w)%Q) by (rewrite <- (Zlt_Qlt 0); exact Hw).
    apply Qfloor_range; rewrite !Qred_correct.
    - apply Qmult_le_0_compat; lra.
    - nra. }
  destruct (ltb _ _); injection Hx as <-; lia.
Qed.

Section Texels.
Context `{Exp}.

Lemma strip_of_ray s column ray_angle delta step sides ray_pos :
  ray_of s column = Ok (ray_angle, delta, step, sides, ray_pos) ->
  strip_of s column
  = (c ← casting HOPS (map s) delta step sides ray_pos;
     match c with
     | NoWall _ _ => Ok None
     | Wall side texture_index _ ray_pos =>
         st ← wall_strip s ray_angle step side texture_index ray_pos;
         Ok (Some st)
     end).
Proof.
  intros E. unfold strip_of. rewrite E, bind_ret. cbv beta iota.
  reflexivity.
Qed.

(** A column has a strip when its ray has met a wall. *)
Lemma strip_of_inv s column st :
  strip_of s column = Ok (Some st) ->
  exists ray_angle delta step sides ray_pos side texture_index sides'
         hit_pos,
    ray_of s column = Ok (ray_angle, delta, step, sides, ray_pos) /\
    casting HOPS (map s) delta step sides ray_pos
      = Ok (Wall side texture_index sides' hit_pos) /\
    wall_strip s ray_angle step side texture_index hit_pos = Ok st.
Proof.
  intros Hst. destruct (ray_of s column) as [r|e] eqn:E.
  - destruct r as [[[[ray_angle delta] step] sides] ray_pos].
    rewrite (strip_of_ray _ _ _ _ _ _ _ E) in Hst.
    bind_inv Hst. destruct a as [sides' hit_pos|side ti sides' hit_pos].
    + discriminate Hst.
    + bind_inv Hst. apply Ok_inj in Hst. injection Hst as <-.
      exists ray_angle, delta, step, sides, ray_pos, side, ti, sides',
             hit_pos.
      split; [reflexivity|]. split; assumption.
  - unfold strip_of in Hst. rewrite E in Hst. discriminate Hst.
Qed.

(** X4: every texel of a computed strip whose [wall_x] is below 1 is
    read at a row and a column of the wall's texture, counted from its
    first row and column: the indices are never negative (which numpy
    would count from the end) and never past the end.  [wall_x] is
    below 1 unless the hit has a negative coordinate along the wall. *)
Theorem texels_in_range s column st y (w : Q) :
  strip_of s column = Ok (Some st) ->
  wall_x st = Fin w -> (w < 1)%Q ->
  y ∈ tex_ys st ->
  0 <= y < Z.of_nat (shape0 (texture st)) /\
  0 <= tex_x st < Z.of_nat (shape1 (texture st)).
Proof.
  intros Hst Hw Hw1 Hy.
  destruct (strip_of_inv _ _ _ Hst)
    as (ray_angle & delta & step & sides & ray_pos & side & texture_index
        & sides' & hit_pos & _ & _ & Hs).
  destruct (wall_strip_Ok _ _ _ _ _ _ _ Hs)
    as (_ & _ & Hhalf & Hstart & Hend & Hnz & Hdrawn).
  destruct (wall_strip_column _ _ _ _ _ _ _ Hs) as (sampled & Hpx & _ & _).
  (* the texture is not empty, as a texel was read *)
  apply list_elem_of_lookup in Hy. destruct Hy as [i Hi].
  destruct (Forall2_lookup_l _ _ _ _ _ Hpx Hi) as (c & _ & Hc).
  unfold px_at in Hc. bind_inv Hc. bind_inv Hc. cbn [fst snd] in E, E0.
  apply py_index_Ok in E, E0.
  (* the height of the column is positive, and at least the drawn height *)
  set (height := Z.of_nat (shape0 (_colors s))) in *.
  assert (Hcol : 0 < column_height st /\
                 end_ st - start st <= column_height st).
  { unfold half_column_of in Hhalf. rewrite !shiftr1 in *.
    destruct (Z.ltb_spec (height / 2) (column_height st / 2));
      pose proof (Z.div_pos height 2); 
      pose proof (Z.mul_div_le (column_height st) 2);
      pose proof (Z.mul_div_le height 2);
      assert (0 <= column_height st / 2) by lia;
      assert (0 <= column_height st)
        by (destruct (Z.neg_nonneg_cases (column_height st)) as [Hn|]; [|assumption];
            pose proof (Z.div_lt_upper_bound (column_height st) 2 0); lia);
      lia. }
  unfold wall_strip in Hs.
  bind_inv Hs. bind_inv Hs. bind_inv Hs. bind_inv Hs. bind_inv Hs.
  injection Hs as <-.
  cbn [tex_ys tex_x texture column_height start end_ half_column wall_x]
    in *.
  split.
  - match goal with
    | Hys : tex_ys_of _ _ _ = Ok _ |- _ =>
        pose proof (tex_ys_of_range _ _ _ _ Hys ltac:(lia) (proj1 Hcol)
                      (proj2 Hcol)) as Hall
    end.
    exact (Forall_lookup_1 _ _ _ _ Hall Hi).
  - match goal with
    | Hx : tex_x_of _ _ _ _ = Ok _ |- _ =>
        rewrite Hw in Hx;
        refine (tex_x_of_range _ _ _ _ _ Hx _ Hw1 ltac:(lia))
    end.
    unfold wall_x_of in Hw. apply (mod1_range _ _ Hw).
Qed.

End Texels.

Lemma texels_in_range_witness :
  match strip_of (H := exp_series) (prepare small_room) 1 with
  | Ok (Some st) =>
      0 <= 0 < Z.of_nat (shape0 (texture st)) /\
      0 <= tex_x st < Z.of_nat (shape1 (texture st))
  | _ => False
  end.
Proof.
  destruct (strip_of (H := exp_series) (prepare small_room) 1)
    as [[st|]|e] eqn:E;
    [|vm_compute in E; discriminate E..].
  apply (texels_in_range (H := exp_series) (prepare small_room) 1 st 0
           (1 # 2) E);
    vm_compute in E; injection E as <-.
  - reflexivity.
  - reflexivity.
  - cbn [tex_ys]. apply list_elem_of_here.
Defined.

(** ** The distance of a hit *)

Section Distance.
Context `{Exp}.

(** X5: whatever the direction of the ray, the distance of a strip is a
    number [d >= 0], and the ray meets the face of the wall at [d] times
    its direction: [c + d * r] is the coordinate of the face, for the
    camera coordinate [c] and the ray component [r] along the axis of
    the hit. *)
Theorem hit_distance_nonneg s column ray_angle delta step sides ray_pos
    side texture_index sides' hit_pos st (c : Q) :
  ray_of (prepare s) column = Ok (ray_angle, delta, step, sides, ray_pos) ->
  casting HOPS (map s) delta step sides ray_pos
    = Ok (Wall side texture_index sides' hit_pos) ->
  wall_strip (prepare s) ray_angle step side texture_index hit_pos
    = Ok st ->
  at2 (pos (camera s)) side = Fin c -> (0 <= c)%Q -> (c <= 32000)%Q ->
  let face := at2 hit_pos side + (if at2 step side =? 1 then 0 else 1) in
  exists d : Q,
    distance st = Fin d /\ (0 <= d)%Q /\
    forall r, at2 ray_angle side = Fin r ->
              (c + d * r == inject_Z face)%Q.
Proof.
  intros Hray Hcast Hst Hc H0 H1 face.
  destruct (ray_of_prepare _ _ _ _ _ _ _ Hray) as (-> & -> & ->).
  destruct (to_int16_floor c H0 H1) as (Hfl & Hrange).
  assert (Hcell : at2 (to_int16 (pos (camera s)).1,
                       to_int16 (pos (camera s)).2) side = Qfloor c).
  { destruct side; cbn [at2 fst snd] in *; rewrite Hc; exact Hfl. }
  destruct (casting_Wall side _ _ _ _ _ _ _ _ _ _ Hcast)
    as (k & Hk & Hpos & Hside).
  { apply step_of_range. }
  { rewrite Hcell. unfold HOPS. lia. }
  specialize (Hside eq_refl). rewrite Hcell in Hpos.
  pose proof (Qfloor_le c) as Hlo. pose proof (Qlt_floor c) as Hhi.
  rewrite inject_Z_plus in Hhi. change (inject_Z 1) with 1%Q in Hhi.
  assert (Hstep : at2 (step_of ray_angle) side = sign16 (at2 ray_angle side))
    by (destruct side; reflexivity).
  destruct (wall_strip_Ok _ _ _ _ _ _ _ Hst)
    as (Hd & Hch & _ & _ & _ & Hnz & _).
  cbv zeta in Hch. rewrite Hd in Hch |- *. clear Hd Hst Hcast Hray.
  unfold face. clear face. unfold hit_distance in *.
  cbn [prepare camera] in *. rewrite Hc in *. rewrite Hstep in *.
  set (e := if sign16 (at2 ray_angle side) =? 1 then 0 else 1) in *.
  cbv [of_Z sub add opp] in Hch |- *.
  set (N := Qred (Qred (inject_Z (at2 hit_pos side) + Qred (- c))
                  + inject_Z e)) in *.
  assert (HN : (N == inject_Z (at2 hit_pos side + e) - c)%Q).
  { unfold N. rewrite !Qred_correct, inject_Z_plus. ring. }
  destruct (at2 ray_angle side) as [r|sgn|] eqn:Er.
  - destruct (qzero r) eqn:Hz.
    + (* no step along the axis of the hit: no strip *)
      exfalso. unfold div in Hch. rewrite Hz in Hch.
      unfold column_height_of in Hch.
      destruct (qzero N); cbn in Hch; [discriminate Hch|].
      apply Ok_inj in Hch. apply Hnz. rewrite <- Hch. reflexivity.
    + rewrite div_Fin by exact Hz. apply qzero_false in Hz.
      exists (Qred (N / r)). split; [reflexivity|].
      assert (Hsign : (0 < r)%Q /\ sign16 (Fin r) = 1 \/
                      (r < 0)%Q /\ sign16 (Fin r) = -1).
      { destruct r as [[|p|p] dn].
        - exfalso. apply Hz. reflexivity.
        - left. split; reflexivity.
        - right. split; reflexivity. }
      rewrite !Qred_correct. split.
      * destruct Hsign as [[Hr Hs] | [Hr Hs]];
          rewrite Hs in Hpos; unfold e in HN; rewrite Hs in HN;
          cbn [Z.eqb Pos.eqb] in HN; rewrite Hpos in HN.
        -- apply Qdiv_nonneg; [|exact Hr]. rewrite HN.
           assert (inject_Z (Qfloor c + 1) <= inject_Z (Qfloor c + k * 1 + 0))%Q
             by (rewrite <- Zle_Qle; lia).
           rewrite inject_Z_plus in H2. change (inject_Z 1) with 1%Q in H2.
           lra.
        -- assert (E : (N / r == - ((- N) / r))%Q) by (field; exact Hz).
           rewrite E.
           assert (Hle : (- N / r <= 0)%Q).
           { apply Qdiv_nonpos; [|exact Hr]. rewrite HN.
             assert (inject_Z (Qfloor c + k * -1 + 1) <= inject_Z (Qfloor c))%Q
               by (rewrite <- Zle_Qle; lia).
             lra. }
           lra.
      * intros r' [= <-]. rewrite Qred_correct, HN. field. exact Hz.
  - (* an infinite component: the wall is at distance zero *)
    exists 0%Q. split; [reflexivity|]. split; [discriminate|].
    intros r [=].
  - exfalso. cbn in Hch. discriminate Hch.
Qed.

End Distance.

(** [hit_distance_nonneg] on the left column of the small room: the ray
    [(-1/2, 1)] from [(2.5, 1.5)] meets the north wall, whose face is at 1,
    at distance 3. *)
Lemma hit_distance_nonneg_witness :
  match wall_strip (H := exp_series) (prepare small_room)
          (Fin (-1 # 2), Fin 1) (-1, 1) side0 1 (0, 4) with
  | Ok st =>
      exists d : Q,
        distance st = Fin d /\ (0 <= d)%Q /\
        forall r, Fin (-1 # 2) = Fin r -> ((5 # 2) + d * r == inject_Z 1)%Q
  | Raise _ => False
  end.
Proof.
  destruct (wall_strip (H := exp_series) (prepare small_room)
              (Fin (-1 # 2), Fin 1) (-1, 1) side0 1 (0, 4))
    as [st|e] eqn:E; [|vm_compute in E; discriminate E].
  apply (hit_distance_nonneg (H := exp_series) small_room 0
           (Fin (-1 # 2), Fin 1) (Fin 2, Fin 1) (-1, 1) (Fin 1, Fin (1 # 2))
           (2, 1) side0 1 (Fin 5, Fin (7 # 2)) (0, 4) st (5 # 2)).
  - vm_compute. reflexivity.
  - vm_compute. reflexivity.
  - exact E.
  - reflexivity.
  - vm_compute. discriminate.
  - vm_compute. discriminate.
Defined.

(** ** A ray paints its own column *)

Lemma not_in_column lo hi k (ws : list (nat * nat * color)) r c :
  Forall (fun w => w.1 ∈ column_cells lo hi k) ws ->
  c <> k ->
  Forall (fun w => w.1 <> (r, c)) ws.
Proof.
  intros Hl Hc. eapply Forall_impl; [exact Hl|].
  intros [[r0 c0] x] Hin. cbn in *. intros [= -> ->].
  apply column_cells_rows in Hin. destruct Hin as [_ Hin]. congruence.
Qed.

Lemma assign_column_other_column a lo hi column vals a' r c :
  assign_column a lo hi column vals = Ok a' ->
  py_index (shape1 a) column <> Ok c ->
  get_px a' r c = get_px a r c /\ shape1 a' = shape1 a.
Proof.
  unfold assign_column. intros Ha Hc. bind_inv Ha.
  assert (Hk : c <> a0) by congruence.
  destruct (decide _).
  - injection Ha as <-. split; [|apply shape1_store].
    apply get_px_store_other.
    eapply not_in_column; [apply zip_cells_in | exact Hk].
  - destruct vals as [|v [|]]; try discriminate. injection Ha as <-.
    split; [|apply shape1_store].
    apply get_px_store_other.
    eapply not_in_column; [apply fill_cells_in | exact Hk].
Qed.

Lemma fill_column_other_column a lo hi column v a' r c :
  fill_column a lo hi column v = Ok a' ->
  py_index (shape1 a) column <> Ok c ->
  get_px a' r c = get_px a r c /\ shape1 a' = shape1 a.
Proof.
  unfold fill_column. intros Ha Hc. bind_inv Ha. injection Ha as <-.
  assert (Hk : c <> a0) by congruence.
  split; [|apply shape1_store].
  apply get_px_store_other.
  eapply not_in_column; [apply fill_cells_in | exact Hk].
Qed.

Section Columns.
Context `{Exp}.

Lemma paint_other_column s column ray_angle ray_pos side st a r c :
  paint s column ray_angle ray_pos side st = Ok a ->
  py_index (shape1 (_colors s)) column <> Ok c ->
  get_px a r c = get_px (_colors s) r c.
Proof.
  unfold paint. cbv zeta. intros Hp Hc. bind_inv Hp.
  destruct (assign_column_other_column _ _ _ _ _ _ r c E Hc) as [H0 S0].
  rewrite <- H0. rewrite <- S0 in Hc.
  assert (Hrest : forall (x y : image),
            (py_index (shape1 a0) column <> Ok c ->
             get_px x r c = get_px a0 r c /\ shape1 x = shape1 a0) ->
            (py_index (shape1 x) column <> Ok c ->
             get_px y r c = get_px x r c /\ shape1 y = shape1 x) ->
            get_px y r c = get_px a0 r c).
  { intros x y Hx Hy. destruct (Hx Hc) as [Hx1 Hx2].
    rewrite Hx2 in Hy. destruct (Hy Hc) as [Hy1 _]. congruence. }
  destruct (ceiling s) as [ceil|], (floor s) as [flo|];
    bind_inv Hp;
    repeat match goal with
           | Hb : (_ ≫= _) = Ok _ |- _ => bind_inv Hb
           end;
    apply (Hrest a1 a); intros Hne;
    first [ eapply assign_column_other_column; eassumption
          | eapply fill_column_other_column; eassumption ].
Qed.

Lemma cast_ray_frame s column s' :
  cast_ray s column = Ok s' ->
  (forall r c, py_index (shape1 (_colors s)) column <> Ok c ->
               get_px (_colors s') r c = get_px (_colors s) r c) /\
  (forall j, py_index (length (_sides s)) column <> Ok j ->
             _sides s' !! j = _sides s !! j) /\
  length (_sides s') = length (_sides s) /\
  _rotated_angles s' = _rotated_angles s /\
  _deltas s' = _deltas s /\ _steps s' = _steps s.
Proof.
  intros Hc. apply cast_ray_inv in Hc.
  assert (Hsides : forall k sides' (j : nat),
            py_index (length (_sides s)) column = Ok k ->
            py_index (length (_sides s)) column <> Ok j ->
            <[k := sides']> (_sides s) !! j = _sides s !! j).
  { intros k sides' j Hk Hj. apply list_lookup_insert_ne. congruence. }
  destruct Hc as [ray_angle delta step sides k sides' ray_pos E E0 E1 E2 E3 E4
                 |ray_angle delta step sides k side ti sides' ray_pos st a
                    E E0 E1 E2 E3 E4 E5 E6];
    cbn [with_ray with__colors _colors _sides _rotated_angles _deltas _steps].
  - split; [reflexivity|]. split; [intros j; apply Hsides; exact E3|].
    split; [apply length_insert|]. auto.
  - split.
    + intros r c Hne.
      apply (paint_other_column _ _ _ _ _ _ _ r c E6). exact Hne.
    + split; [intros j; apply Hsides; exact E3|].
      split; [apply length_insert|]. auto.
Qed.

(** X6: casting the ray of a column changes, of the color buffer, only
    that column, and of the side distances only that column's row; the
    directions, the deltas and the steps of all columns stay as they
    are. *)
Theorem cast_ray_column s column s' :
  cast_ray s column = Ok s' ->
  (forall r c, py_index (shape1 (_colors s)) column <> Ok c ->
               get_px (_colors s') r c = get_px (_colors s) r c) /\
  (forall j, py_index (length (_sides s)) column <> Ok j ->
             _sides s' !! j = _sides s !! j) /\
  length (_sides s') = length (_sides s) /\
  _rotated_angles s' = _rotated_angles s /\
  _deltas s' = _deltas s /\ _steps s' = _steps s.
Proof. apply cast_ray_frame. Qed.

End Columns.

Lemma cast_ray_column_witness :
  match cast_ray (H := exp_series) (prepare small_room) 1 with
  | Ok s' =>
      (forall r c, py_index (shape1 (_colors (prepare small_room))) 1 <> Ok c ->
                   get_px (_colors s') r c
                   = get_px (_colors (prepare small_room)) r c) /\
      (forall j, py_index (length (_sides (prepare small_room))) 1 <> Ok j ->
                 _sides s' !! j = _sides (prepare small_room) !! j) /\
      length (_sides s') = length (_sides (prepare small_room)) /\
      _rotated_angles s' = _rotated_angles (prepare small_room) /\
      _deltas s' = _deltas (prepare small_room) /\
      _steps s' = _steps (prepare small_room)
  | Raise _ => False
  end.
Proof.
  destruct (cast_ray (H := exp_series) (prepare small_room) 1)
    as [s'|e] eqn:E; [|vm_compute in E; discriminate E].
  exact (cast_ray_column (H := exp_series) (prepare small_room) 1 s' E).
Defined.

(** ** A column without a wall, with flat ceiling and floor colors *)

Lemma get_px_store_const (ws : list (nat * nat * color)) v r c :
  Forall (fun w => w.2 = v) ws ->
  forall a,
    get_px (store ws a) r c
    = if decide ((r, c) ∈ ws.*1) then (fun _ => v) <$> get_px a r c
      else get_px a r c.
Proof.
  induction 1 as [|w ws Hw _ IH]; intros a.
  - cbn. rewrite decide_False by apply not_elem_of_nil. reflexivity.
  - rewrite store_cons, IH, get_px_set_px. cbn [fmap list_fmap].
    rewrite Hw. destruct w as [[r' c'] v']. cbn [fst snd].
    destruct (decide ((r', c') = (r, c))) as [E|Hne].
    + rewrite (decide_True (P := (r, c) ∈ (r', c') :: ws.*1))
        by (rewrite E; apply list_elem_of_here).
      destruct (decide _); destruct (get_px a r c); reflexivity.
    + destruct (decide ((r, c) ∈ ws.*1)) as [Hin|Hout].
      * rewrite decide_True by (apply list_elem_of_further; exact Hin).
        reflexivity.
      * rewrite decide_False; [reflexivity|].
        intros Hin. apply elem_of_cons in Hin.
        destruct Hin as [Hin|Hin]; [congruence | contradiction].
Qed.

Lemma fmap_pair_fst {A B} (l : list A) (v : B) : ((., v) <$> l).*1 = l.
Proof. induction l as [|a l IH]; cbn; [|rewrite IH]; reflexivity. Qed.

(** [a[lo:hi] = v] sets the rows [lo <= r < hi], and nothing else. *)
Lemma get_px_fill_rows a lo hi v r c :
  (c < shape1 a)%nat ->
  get_px (fill_rows a lo hi v) r c
  = if decide (lo <= r < hi)%nat then (fun _ => v) <$> get_px a r c
    else get_px a r c.
Proof.
  intros Hc. unfold fill_rows.
  rewrite (get_px_store_const _ v).
  2:{ apply Forall_fmap, Forall_forall. intros p _. reflexivity. }
  rewrite fmap_pair_fst.
  destruct (decide (lo <= r < hi)%nat) as [Hr|Hr].
  - rewrite decide_True; [reflexivity|].
    apply list_elem_of_bind. exists r. split.
    + apply list_elem_of_fmap. exists c. split; [reflexivity|].
      apply elem_of_seq. lia.
    + apply elem_of_seq. lia.
  - rewrite decide_False; [reflexivity|].
    intros Hin. apply list_elem_of_bind in Hin.
    destruct Hin as (r' & Hin & Hr').
    apply list_elem_of_fmap in Hin. destruct Hin as (c' & [= -> ->] & _).
    apply elem_of_seq in Hr'. lia.
Qed.

Lemma item_of_nat {A} (l l' : list A) (c : nat) :
  length l' = length l -> l' !! c = l !! c ->
  item l' (Z.of_nat c) = item l (Z.of_nat c).
Proof.
  intros Hlen Hc. unfold item. rewrite Hlen.
  destruct (py_index (length l) (Z.of_nat c)) as [k|e] eqn:E; [|reflexivity].
  apply py_index_nonneg_inv in E; [|lia]. rewrite Nat2Z.id in E. subst k.
  rewrite !bind_ret, Hc. reflexivity.
Qed.

Lemma ray_of_ext s s' (c : nat) :
  ray_inputs s' c = ray_inputs s c ->
  ray_of s' (Z.of_nat c) = ray_of s (Z.of_nat c).
Proof.
  unfold ray_inputs. intros [= Hm Hcam Hr Hd Hst Hlen Hs].
  unfold ray_of. rewrite Hcam, Hr, Hd, Hst.
  rewrite (item_of_nat _ _ _ Hlen Hs). reflexivity.
Qed.

Section Flat.
Context `{Exp}.

Lemma strip_of_None s column :
  strip_of s column = Ok None <->
  exists ray_angle delta step sides ray_pos sides' last_pos,
    ray_of s column = Ok (ray_angle, delta, step, sides, ray_pos) /\
    casting HOPS (map s) delta step sides ray_pos
      = Ok (NoWall sides' last_pos).
Proof.
  split.
  - intros Hst. destruct (ray_of s column) as [r|e] eqn:E.
    + destruct r as [[[[ray_angle delta] step] sides] ray_pos].
      rewrite (strip_of_ray _ _ _ _ _ _ _ E) in Hst.
      bind_inv Hst. destruct a as [sides' last_pos|side ti sides' hit_pos].
      * exists ray_angle, delta, step, sides, ray_pos, sides', last_pos.
        split; [reflexivity | assumption].
      * bind_inv Hst. discriminate Hst.
    + unfold strip_of in Hst. rewrite E in Hst. discriminate Hst.
  - intros (ray_angle & delta & step & sides & ray_pos & sides' & last_pos
            & E & Ec).
    rewrite (strip_of_ray _ _ _ _ _ _ _ E), Ec, bind_ret. reflexivity.
Qed.

Lemma strip_of_None_ext s s' (c : nat) :
  ray_inputs s' c = ray_inputs s c ->
  strip_of s (Z.of_nat c) = Ok None -> strip_of s' (Z.of_nat c) = Ok None.
Proof.
  intros Hin Hst. apply strip_of_None in Hst.
  destruct Hst as (ray_angle & delta & step & sides & ray_pos & sides'
                   & last_pos & E & Ec).
  apply strip_of_None.
  exists ray_angle, delta, step, sides, ray_pos, sides', last_pos.
  rewrite (ray_of_ext _ _ _ Hin). split; [exact E|].
  unfold ray_inputs in Hin. injection Hin as Hm _ _ _ _ _ _.
  rewrite Hm. exact Ec.
Qed.

(** Without a wall, [cast_ray] returns before it paints. *)
Lemma cast_ray_no_wall s column s' :
  cast_ray s column = Ok s' -> strip_of s column = Ok None ->
  _colors s' = _colors s.
Proof.
  intros Hc Hst. apply cast_ray_inv in Hc.
  destruct Hc as [ray_angle delta step sides k sides' ray_pos E E0 E1 E2 E3 E4
                 |ray_angle delta step sides k side ti sides' ray_pos st a
                    E E0 E1 E2 E3 E4 E5 E6];
    rewrite (strip_of_eq _ _ _ _ _ _ _ E E0 E1 E2 E4) in Hst.
  - reflexivity.
  - rewrite wall_strip_ext with (s := s) in E5 by reflexivity.
    rewrite E5, bind_ret in Hst. discriminate Hst.
Qed.

Lemma cast_ray_other s (column c0 : nat) s' :
  cast_ray s (Z.of_nat column) = Ok s' -> column <> c0 ->
  ray_inputs s' c0 = ray_inputs s c0 /\
  forall r, get_px (_colors s') r c0 = get_px (_colors s) r c0.
Proof.
  intros Hc Hne.
  assert (Hidx : forall n, py_index n (Z.of_nat column) <> Ok c0).
  { intros n E. apply py_index_nonneg_inv in E; [|lia].
    rewrite Nat2Z.id in E. congruence. }
  destruct (cast_ray_frame _ _ _ Hc) as (Hpx & Hs & Hlen & Hr & Hd & Hst).
  pose proof (cast_ray_inputs _ _ _ Hc) as Hin. unfold inputs in Hin.
  injection Hin as Hm Hcam _ _ _ _ _ _ _ _ _ _.
  split.
  - unfold ray_inputs.
    rewrite Hm, Hcam, Hr, Hd, Hst, Hlen, (Hs c0 (Hidx _)). reflexivity.
  - intros r. apply Hpx, Hidx.
Qed.

Lemma cast_rays_other (c0 : nat) columns :
  forall s s',
    cast_rays columns s = Ok s' -> c0 ∉ columns ->
    ray_inputs s' c0 = ray_inputs s c0 /\
    forall r, get_px (_colors s') r c0 = get_px (_colors s) r c0.
Proof.
  induction columns as [|c columns IH]; intros s s' Hc Hout;
    cbn [cast_rays] in Hc.
  - apply Ok_inj in Hc. subst s'. split; reflexivity.
  - bind_inv Hc. apply not_elem_of_cons in Hout. destruct Hout as [Hne Hout].
    destruct (cast_ray_other _ _ _ _ E (not_eq_sym Hne)) as [Hi1 Hp1].
    destruct (IH _ _ Hc Hout) as [Hi2 Hp2].
    split; [congruence|]. intros r. rewrite Hp2. apply Hp1.
Qed.

Lemma cast_rays_colors columns :
  forall s s',
    cast_rays columns s = Ok s' -> same_shape (_colors s') (_colors s).
Proof.
  induction columns as [|c columns IH]; intros s s' Hc;
    cbn [cast_rays] in Hc.
  - apply Ok_inj in Hc. subst s'. apply same_shape_refl.
  - bind_inv Hc. destruct (IH _ _ Hc) as [A1 A0].
    destruct (cast_ray_colors _ _ _ E) as [B1 B0].
    split; congruence.
Qed.

Lemma cast_rays_app l1 :
  forall l2 s,
    cast_rays (l1 ++ l2) s = (s1 ← cast_rays l1 s; cast_rays l2 s1).
Proof.
  induction l1 as [|c l1 IH]; intros l2 s; cbn [cast_rays app].
  - reflexivity.
  - destruct (cast_ray s (Z.of_nat c)) as [s1|e]; [|reflexivity].
    rewrite !bind_ret. apply IH.
Qed.

(** A column whose ray finds no wall keeps, through the whole frame, the
    pixels the frame started with. *)
Lemma cast_rays_no_wall (c0 w : nat) s s' :
  cast_rays (seq 0 w) s = Ok s' -> (c0 < w)%nat ->
  strip_of s (Z.of_nat c0) = Ok None ->
  forall r, get_px (_colors s') r c0 = get_px (_colors s) r c0.
Proof.
  intros Hc Hlt Hst r.
  replace w with (c0 + S (w - S c0))%nat in Hc by lia.
  rewrite seq_app, cast_rays_app in Hc. bind_inv Hc.
  cbn [seq cast_rays] in Hc. bind_inv Hc. rename a into sa, a0 into sb.
  destruct (cast_rays_other c0 _ _ _ E) as [Hia Hpa].
  { intros Hin. apply elem_of_seq in Hin. lia. }
  destruct (cast_rays_other c0 _ _ _ Hc) as [_ Hpb].
  { intros Hin. apply elem_of_seq in Hin. lia. }
  pose proof (strip_of_None_ext _ _ _ Hia Hst) as Hsa.
  rewrite Hpb, (cast_ray_no_wall _ _ _ E0 Hsa). apply Hpa.
Qed.

(** X7: with flat ceiling and floor colors, a column whose ray finds no
    wall holds after the frame the ceiling color in the rows above the
    widget's height and the floor color below, whatever it held
    before. *)
Theorem flat_column_without_wall s s' (column r : nat) old :
  render s = Ok s' ->
  ceiling s = None -> floor s = None ->
  (column < width s)%nat ->
  strip_of (prepare s) (Z.of_nat column) = Ok None ->
  get_px (_colors s) r column = Some old ->
  get_px (_colors s') r column
  = Some (if (r <? height s)%nat then ceiling_color s else floor_color s).
Proof.
  intros Hr Hceil Hfloor Hcol Hst Hold.
  pose proof (render_inputs _ _ Hr) as Hin.
  unfold render in Hr. bind_inv Hr. bind_inv Hr.
  destruct (decide _) as [[_ Hshape]|]; [|discriminate].
  apply Ok_inj in Hr. subst s'. rename a into s1.
  cbn [with_colors _colors].
  rewrite (cast_rays_no_wall column _ _ _ E Hcol Hst r).
  (* the width of the buffer is the width of the widget *)
  assert (Hw : shape1 (_colors s) = width s).
  { pose proof (cast_rays_inputs _ _ _ E) as Hi. unfold inputs in Hi.
    injection Hi as _ _ _ _ _ _ _ _ _ Hw _ _.
    change (width (prepare s)) with (width s) in Hw.
    destruct (cast_rays_colors _ _ _ E) as [Hs1 _].
    destruct (prefill_store s) as [pre Hpre].
    change (_colors (prepare s)) with (prefill s) in Hs1.
    rewrite (Hpre s eq_refl (same_shape_refl _)), shape1_store in Hs1.
    congruence. }
  assert (Hrow : (r < shape0 (_colors s))%nat).
  { unfold get_px in Hold. unfold shape0.
    destruct (rows (_colors s) !! r) eqn:Er; [|discriminate].
    apply lookup_lt_Some in Er. exact Er. }
  cbn [prepare _colors]. unfold prefill. rewrite Hceil, Hfloor.
  set (n := shape0 (_colors s)) in *.
  set (h := slice_bound n (Z.of_nat (height s))).
  assert (Hh : h = Nat.min (height s) n).
  { unfold h, slice_bound. destruct (Z.ltb_spec (Z.of_nat (height s)) 0); lia. }
  rewrite get_px_fill_rows.
  2:{ unfold fill_rows. rewrite shape1_store. lia. }
  rewrite get_px_fill_rows by lia. rewrite Hold.
  destruct (Nat.ltb_spec r (height s));
    destruct (decide (h <= r < n)%nat); destruct (decide (0 <= r < h)%nat);
    try reflexivity; lia.
Qed.

End Flat.

(** [flat_column_without_wall] on the middle column of the room seen along
    the first axis, whose ray never leaves the camera's cell. *)
Lemma flat_column_without_wall_witness :
  match render (H := exp_series) south_room with
  | Ok s' => get_px (_colors s') 3 1 = Some (1, 1, 1)
  | Raise _ => False
  end.
Proof.
  destruct (render (H := exp_series) south_room) as [s'|e] eqn:E;
    [|vm_compute in E; discriminate E].
  apply (flat_column_without_wall (H := exp_series) south_room s' 1 3
           (0, 0, 0) E).
  - reflexivity.
  - reflexivity.
  - vm_compute. lia.
  - vm_compute. reflexivity.
  - vm_compute. reflexivity.
Defined.

(** ** The packed colors of a frame *)

Lemma pairs_of_rows_cons top bottom l :
  pairs_of_rows (top :: bottom :: l)
  = (rest ← pairs_of_rows l; Ok (zip top bottom :: rest)).
Proof. reflexivity. Qed.

(** Row [r] of the packed array pairs rows [2 r] and [2 r + 1]. *)
Lemma pairs_of_rows_lookup n :
  forall l p,
    (length l <= n)%nat -> pairs_of_rows l = Ok p ->
    length l = (2 * length p)%nat /\
    forall r,
      p !! r = (top ← l !! (2 * r)%nat; bottom ← l !! (2 * r + 1)%nat;
                Some (zip top bottom)).
Proof.
  induction n as [|n IH]; intros l p Hn Hp.
  - destruct l; [|cbn in Hn; lia]. apply Ok_inj in Hp. subst p.
    split; [reflexivity|]. intros r. reflexivity.
  - destruct l as [|top [|bottom l]].
    + apply Ok_inj in Hp. subst p. split; [reflexivity|]. intros r.
      reflexivity.
    + discriminate Hp.
    + rewrite pairs_of_rows_cons in Hp. bind_inv Hp. apply Ok_inj in Hp.
      subst p. destruct (IH l a) as [Hlen Hl]; [cbn in Hn; lia | exact E |].
      split; [cbn [length]; lia|]. intros [|r].
      * reflexivity.
      * replace (2 * S r)%nat with (S (S (2 * r))) by lia.
        replace (S (S (2 * r)) + 1)%nat with (S (S (2 * r + 1))) by lia.
        cbn [lookup list_lookup]. apply Hl.
Qed.

Lemma pairs_of_rows_even :
  forall k l,
    length l = (2 * k)%nat ->
    exists p, pairs_of_rows l = Ok p /\ length p = k.
Proof.
  induction k as [|k IH]; intros l Hl.
  - destruct l; [|discriminate]. exists []. split; reflexivity.
  - destruct l as [|top [|bottom l]]; cbn [length] in Hl; try lia.
    destruct (IH l) as (p & Hp & Hlen); [lia|].
    exists (zip top bottom :: p). rewrite pairs_of_rows_cons, Hp.
    split; [reflexivity | cbn [length]; lia].
Qed.

Section Packing.
Context `{Exp}.

(** X8: after a frame, the cell [(r, c)] of the widget holds the pixel
    [(2 r, c)] of the color buffer as its first color and the pixel
    [(2 r + 1, c)] as its second, and the buffer has twice as many rows
    as the widget. *)
Theorem packed_colors s s' :
  render s = Ok s' ->
  shape0 (_colors s') = (2 * height s')%nat /\
  length (colors s') = height s' /\
  forall r c,
    colors s' !! r ≫= (.!! c)
    = (top ← get_px (_colors s') (2 * r) c;
       bottom ← get_px (_colors s') (2 * r + 1) c;
       Some (top, bottom)).
Proof.
  unfold render. intros Hr. bind_inv Hr. bind_inv Hr.
  destruct (decide _) as [[Hlen _]|]; [|discriminate].
  apply Ok_inj in Hr. subst s'. rename a into s1, a0 into packed.
  cbn [with_colors _colors colors height].
  destruct (pairs_of_rows_lookup _ _ _ (le_n _) E0) as [Hrows Hl].
  split; [unfold shape0; lia|]. split; [exact Hlen|].
  intros r c. rewrite Hl. unfold get_px.
  destruct (rows (_colors s1) !! (2 * r)%nat) as [top|]; [|reflexivity].
  destruct (rows (_colors s1) !! (2 * r + 1)%nat) as [bottom|];
    cbn [mbind option_bind].
  - exact (lookup_zip_with pair top bottom c).
  - destruct (top !! c); reflexivity.
Qed.

End Packing.

Lemma packed_colors_witness :
  match render (H := exp_series) small_room with
  | Ok s' =>
      shape0 (_colors s') = (2 * height s')%nat /\
      length (colors s') = height s' /\
      forall r c,
        colors s' !! r ≫= (.!! c)
        = (top ← get_px (_colors s') (2 * r) c;
           bottom ← get_px (_colors s') (2 * r + 1) c;
           Some (top, bottom))
  | Raise _ => False
  end.
Proof.
  destruct (render (H := exp_series) small_room) as [s'|e] eqn:E;
    [|vm_compute in E; discriminate E].
  exact (packed_colors (H := exp_series) small_room s' E).
Defined.

(** ** The shapes of the buffers *)

Lemma rectangular_store ws :
  forall a, rectangular a -> rectangular (store ws a).
Proof.
  induction ws as [|w ws IH]; intros a Ha; [exact Ha|].
  rewrite store_cons. apply IH. unfold rectangular, set_px in *.
  cbn [rows shape1]. apply Forall_alter; [exact Ha|].
  intros row _ Hrow. rewrite length_insert. exact Hrow.
Qed.

Lemma rectangular_blank h w : rectangular (blank h w).
Proof.
  unfold rectangular, blank. cbn [rows shape1].
  apply Forall_replicate. apply length_replicate.
Qed.

Lemma length_linspace start stop n : length (linspace start stop n) = n.
Proof.
  unfold linspace. destruct n as [|[|n]]; [reflexivity..|].
  rewrite length_map, length_seq. reflexivity.
Qed.

Lemma length_linspace_excl start stop n :
  length (linspace_excl start stop n) = n.
Proof. unfold linspace_excl. rewrite length_map, length_seq. reflexivity. Qed.

Lemma shiftl1_nat h : Z.to_nat (Z.of_nat h ≪ 1) = (2 * h)%nat.
Proof. rewrite Z.shiftl_mul_pow2 by lia. lia. Qed.

Section Shapes.
Context `{Exp}.

(** What a frame does to the color buffer is a sequence of stores. *)
Lemma render_stores s s' :
  render s = Ok s' -> exists ws, _colors s' = store ws (_colors s).
Proof.
  unfold render. intros Hr. bind_inv Hr. bind_inv Hr.
  destruct (decide _); [|discriminate]. apply Ok_inj in Hr. subst s'.
  destruct (cast_rays_reset _ _ _ E) as [ws Hws].
  destruct (prefill_store s) as [pre Hpre].
  exists (pre ++ ws).
  specialize (Hws (_colors (prepare s)) (colors (prepare s))
                  (_pos_int (prepare s)) (same_shape_refl _)
                  (fun _ => eq_refl)).
  rewrite reset_id, E in Hws. apply Ok_inj in Hws.
  cbn [with_colors _colors]. rewrite Hws at 1.
  cbn [reset _colors prepare]. rewrite store_app.
  f_equal. apply Hpre; [reflexivity | apply same_shape_refl].
Qed.

(** X9: in every state the widget goes through, the color buffer is a
    rectangular array of twice the widget's height and of its width, and
    the tables of ray directions and of floor distances have one entry
    for each column and for each row. *)
Theorem reachable_shapes s :
  reachable s ->
  shape0 (_colors s) = (2 * height s)%nat /\
  shape1 (_colors s) = width s /\
  rectangular (_colors s) /\
  length (_ray_angles s) = width s /\
  length (_distances s) = height s.
Proof.
  assert (Hresize : forall dim s0,
            let s := resize dim s0 in
            shape0 (_colors s) = (2 * height s)%nat /\
            shape1 (_colors s) = width s /\
            rectangular (_colors s) /\
            length (_ray_angles s) = width s /\
            length (_distances s) = height s).
  { intros dim s0. cbn [resize _colors height width _ray_angles _distances].
    split; [|split; [|split; [|split]]].
    - unfold shape0, blank. cbn [rows].
      rewrite length_replicate. apply shiftl1_nat.
    - reflexivity.
    - apply rectangular_blank.
    - unfold ray_angles. rewrite length_map. apply length_linspace.
    - unfold floor_distances. rewrite length_map.
      apply length_linspace_excl. }
  induction 1 as [| | |s s' _ IH Hr].
  - apply Hresize.
  - apply Hresize.
  - exact IHreachable.
  - destruct IH as (H0 & H1 & Hrect & Ha & Hd).
    pose proof (render_inputs _ _ Hr) as Hin. unfold inputs in Hin.
    injection Hin as _ _ _ _ _ _ _ _ Hh Hw Hang Hdist.
    destruct (render_stores _ _ Hr) as [ws Hws].
    rewrite Hws, Hh, Hw, Hang, Hdist, shape0_store, shape1_store.
    split; [exact H0|]. split; [exact H1|].
    split; [|split; assumption].
    apply (rectangular_store ws). exact Hrect.
Qed.

End Shapes.

Lemma reachable_shapes_witness :
  match render (H := exp_series) small_room with
  | Ok s =>
      shape0 (_colors s) = (2 * height s)%nat /\
      shape1 (_colors s) = width s /\
      rectangular (_colors s) /\
      length (_ray_angles s) = width s /\
      length (_distances s) = height s
  | Raise _ => False
  end.
Proof.
  destruct (render (H := exp_series) small_room) as [s|e] eqn:E;
    [|vm_compute in E; discriminate E].
  apply (reachable_shapes (H := exp_series) s).
  apply (reach_render small_room s); [|exact E].
  unfold small_room. apply reach_new.
Defined.

(** ** The channels of a darkened color *)

Section Shade.
Context `{Exp}.


End Shade.


End RayCaster.

(** * The base widget: what [render] paints, and the order of the children *)

Module WidgetFacts.
Import Widget.

Lemma slice_bound_le n z : (slice_bound n z <= n)%nat.
Proof. unfold slice_bound. destruct (Z.ltb_spec z 0); lia. Qed.

Lemma span_inside n lo hi :
  0 <= lo <= hi -> hi <= Z.of_nat n ->
  span n (lo, hi) = (Z.to_nat lo, Z.to_nat (hi - lo)).
Proof.
  intros H0 H1. unfold span. cbn [fst snd].
  rewrite !RayCaster.slice_bound_inside by lia. f_equal. lia.
Qed.

(** ** Arrays *)

Lemma at_update {A} (dest : array A) rs cs f y x :
  at_ (update dest rs cs f) y x
  = (fun v => if decide ((rs.1 <= y < rs.1 + rs.2)%nat /\
                         (cs.1 <= x < cs.1 + cs.2)%nat)
              then f (y - rs.1)%nat (x - cs.1)%nat v else v)
    <$> at_ dest y x.
Proof.
  unfold at_, update. cbn [rows]. rewrite list_lookup_imap.
  destruct (rows dest !! y) as [row|]; [|reflexivity].
  cbn. rewrite list_lookup_imap. destruct (row !! x); reflexivity.
Qed.

Lemma shape_update {A} (dest : array A) rs cs f :
  shape0 (update dest rs cs f) = shape0 dest /\
  shape1 (update dest rs cs f) = shape1 dest /\
  (rectangular dest -> rectangular (update dest rs cs f)).
Proof.
  unfold shape0, rectangular, update. cbn [rows shape1].
  split; [apply length_imap|]. split; [reflexivity|].
  intros Hd. apply Forall_lookup. intros y row Hrow.
  rewrite list_lookup_imap in Hrow.
  destruct (rows dest !! y) as [row0|] eqn:E; [|discriminate].
  cbn in Hrow. injection Hrow as <-. rewrite length_imap.
  exact (Forall_lookup_1 _ _ _ _ Hd E).
Qed.

Lemma shape0_slice {A} (a : array A) rs cs :
  shape0 (slice a rs cs) = (span (shape0 a) rs).2.
Proof.
  unfold slice, span. cbn [fst snd]. unfold shape0 at 1. cbn [rows].
  rewrite length_fmap, length_take, length_drop.
  pose proof (slice_bound_le (shape0 a) rs.2). unfold shape0 in *. lia.
Qed.

Lemma shape1_slice {A} (a : array A) rs cs :
  shape1 (slice a rs cs) = (span (shape1 a) cs).2.
Proof. reflexivity. Qed.

Lemma at_slice {A} (a : array A) rs cs i j :
  at_ (slice a rs cs) i j
  = if decide ((i < (span (shape0 a) rs).2)%nat /\
               (j < (span (shape1 a) cs).2)%nat)
    then at_ a ((span (shape0 a) rs).1 + i)%nat ((span (shape1 a) cs).1 + j)%nat
    else None.
Proof.
  unfold slice, at_.
  destruct (span (shape0 a) rs) as [r0 h], (span (shape1 a) cs) as [c0 w].
  cbn [rows fst snd]. rewrite list_lookup_fmap.
  destruct (decide (i < h)%nat) as [Hi|Hi].
  - rewrite lookup_take_lt, lookup_drop by exact Hi.
    destruct (rows a !! (r0 + i)%nat) as [row|]; cbn.
    + destruct (decide (j < w)%nat) as [Hj|Hj].
      * rewrite lookup_take_lt, lookup_drop by exact Hj.
        rewrite decide_True by auto. reflexivity.
      * rewrite lookup_take_ge by lia.
        rewrite decide_False by tauto. reflexivity.
    + destruct (decide _); reflexivity.
  - rewrite lookup_take_ge by lia. rewrite decide_False by tauto.
    reflexivity.
Qed.


Lemma at_Some {A} (a : array A) i j :
  rectangular a ->
  (is_Some (at_ a i j) <-> (i < shape0 a)%nat /\ (j < shape1 a)%nat).
Proof.
  intros Ha. unfold at_, shape0.
  destruct (rows a !! i) as [row|] eqn:E; cbn.
  - pose proof (lookup_lt_Some _ _ _ E).
    rewrite <- (Forall_lookup_1 _ _ _ _ Ha E).
    rewrite lookup_lt_is_Some. tauto.
  - apply lookup_ge_None in E. split; [intros [? [=]] | lia].
Qed.

(** [dest[dt:db, dl:dr] = src[st:sb, sl:sr]] for two rectangles of one
    size inside the arrays: every cell of the rectangle of [dest] gets the
    cell of [src] at the same place in its rectangle. *)
Lemma assign_cells {A} (dest src : array A) dt db dl dr st sb sl sr :
  0 <= dt <= db -> db <= Z.of_nat (shape0 dest) ->
  0 <= dl <= dr -> dr <= Z.of_nat (shape1 dest) ->
  0 <= st <= sb -> sb <= Z.of_nat (shape0 src) ->
  0 <= sl <= sr -> sr <= Z.of_nat (shape1 src) ->
  sb - st = db - dt -> sr - sl = dr - dl ->
  exists dest',
    assign dest (dt, db) (dl, dr) (slice src (st, sb) (sl, sr)) = Ok dest' /\
    shape0 dest' = shape0 dest /\ shape1 dest' = shape1 dest /\
    (rectangular dest -> rectangular dest') /\
    forall y x,
      at_ dest' y x
      = (fun v =>
           if decide (dt <= Z.of_nat y < db /\ dl <= Z.of_nat x < dr)
           then default v (at_ src (Z.to_nat (st + (Z.of_nat y - dt)))
                                   (Z.to_nat (sl + (Z.of_nat x - dl))))
           else v) <$> at_ dest y x.
Proof.
  intros Hdt Hdb Hdl Hdr Hst Hsb Hsl Hsr Hh Hw. unfold assign.
  rewrite shape0_slice, shape1_slice.
  rewrite (span_inside _ dt db), (span_inside _ dl dr),
          (span_inside _ st sb), (span_inside _ sl sr) by lia.
  cbn [fst snd]. rewrite Hh, Hw.
  rewrite decide_True by (split; left; reflexivity).
  eexists. split; [reflexivity|].
  destruct (shape_update dest (Z.to_nat dt, Z.to_nat (db - dt))
              (Z.to_nat dl, Z.to_nat (dr - dl))
              (fun i j v =>
                 default v
                   (at_ (slice src (st, sb) (sl, sr))
                        (if decide (Z.to_nat (db - dt) = 1%nat) then 0%nat else i)
                        (if decide (Z.to_nat (dr - dl) = 1%nat) then 0%nat else j))))
    as (S0 & S1 & Sr).
  split; [exact S0|]. split; [exact S1|]. split; [exact Sr|].
  intros y x. rewrite at_update. cbn [fst snd].
  destruct (at_ dest y x) as [v|]; [|reflexivity].
  cbn [fmap option_fmap option_map]. f_equal.
  destruct (decide (dt <= Z.of_nat y < db /\ dl <= Z.of_nat x < dr))
    as [Hin|Hout].
  - rewrite decide_True by lia. f_equal.
    assert (Ei : (if decide (Z.to_nat (db - dt) = 1%nat) then 0%nat
                  else (y - Z.to_nat dt)%nat) = (y - Z.to_nat dt)%nat)
      by (destruct (decide (Z.to_nat (db - dt) = 1%nat)); lia).
    assert (Ej : (if decide (Z.to_nat (dr - dl) = 1%nat) then 0%nat
                  else (x - Z.to_nat dl)%nat) = (x - Z.to_nat dl)%nat)
      by (destruct (decide (Z.to_nat (dr - dl) = 1%nat)); lia).
    rewrite Ei, Ej, at_slice.
    rewrite (span_inside _ st sb), (span_inside _ sl sr) by lia.
    cbn [fst snd]. rewrite decide_True by lia.
    f_equal; lia.
  - rewrite decide_False by lia. reflexivity.
Qed.

(** The same for a transparent source: the cells whose character in
    [chars] is a space are left as they are. *)
Lemma assign_masked_cells {A} (dest src : array A) (chars : array Z)
    dt db dl dr st sb sl sr :
  0 <= dt <= db -> db <= Z.of_nat (shape0 dest) ->
  0 <= dl <= dr -> dr <= Z.of_nat (shape1 dest) ->
  0 <= st <= sb -> sb <= Z.of_nat (shape0 src) ->
  0 <= sl <= sr -> sr <= Z.of_nat (shape1 src) ->
  shape0 src = shape0 chars -> shape1 src = shape1 chars ->
  sb - st = db - dt -> sr - sl = dr - dl ->
  let source := slice chars (st, sb) (sl, sr) in
  let visible : array bool :=
    {| shape1 := shape1 source;
       rows := (fun row : list Z => (fun c => negb (c =? space)) <$> row)
               <$> rows source |} in
  exists dest',
    assign_masked dest (dt, db) (dl, dr) visible
                  (slice src (st, sb) (sl, sr)) = Ok dest' /\
    shape0 dest' = shape0 dest /\ shape1 dest' = shape1 dest /\
    (rectangular dest -> rectangular dest') /\
    forall y x,
      at_ dest' y x
      = (fun v =>
           if decide (dt <= Z.of_nat y < db /\ dl <= Z.of_nat x < dr)
           then
             match at_ chars (Z.to_nat (st + (Z.of_nat y - dt)))
                             (Z.to_nat (sl + (Z.of_nat x - dl))) with
             | Some c =>
                 if c =? space then v
                 else default v (at_ src (Z.to_nat (st + (Z.of_nat y - dt)))
                                         (Z.to_nat (sl + (Z.of_nat x - dl))))
             | None => v
             end
           else v) <$> at_ dest y x.
Proof.
  intros Hdt Hdb Hdl Hdr Hst Hsb Hsl Hsr Hc0 Hc1 Hh Hw source visible.
  unfold assign_masked.
  assert (Hv0 : shape0 visible = Z.to_nat (db - dt)).
  { unfold visible, shape0 at 1. cbn [rows]. rewrite length_fmap.
    fold (shape0 source). unfold source. rewrite shape0_slice.
    rewrite (span_inside _ st sb) by lia. cbn [snd]. lia. }
  assert (Hv1 : shape1 visible = Z.to_nat (dr - dl)).
  { unfold visible. cbn [shape1]. unfold source. rewrite shape1_slice.
    rewrite (span_inside _ sl sr) by lia. cbn [snd]. lia. }
  rewrite shape0_slice, shape1_slice, Hv0, Hv1.
  rewrite (span_inside _ dt db), (span_inside _ dl dr),
          (span_inside _ st sb), (span_inside _ sl sr) by lia.
  cbn [fst snd]. rewrite Hh, Hw.
  rewrite decide_True by auto.
  eexists. split; [reflexivity|].
  match goal with
  | |- context [update dest ?rs ?cs ?f] =>
      destruct (shape_update dest rs cs f) as (S0 & S1 & Sr)
  end.
  split; [exact S0|]. split; [exact S1|]. split; [exact Sr|].
  intros y x. rewrite at_update. cbn [fst snd].
  destruct (at_ dest y x) as [v|]; [|reflexivity].
  cbn [fmap option_fmap option_map]. f_equal.
  destruct (decide (dt <= Z.of_nat y < db /\ dl <= Z.of_nat x < dr))
    as [Hin|Hout].
  - rewrite decide_True by lia.
    assert (Hmask : at_ visible (y - Z.to_nat dt) (x - Z.to_nat dl)
                    = (fun c => negb (c =? space))
                      <$> at_ source (y - Z.to_nat dt) (x - Z.to_nat dl)).
    { unfold at_, visible. cbn [rows]. rewrite list_lookup_fmap.
      destruct (rows source !! (y - Z.to_nat dt)%nat) as [row|];
        [|reflexivity].
      cbn. rewrite list_lookup_fmap. reflexivity. }
    rewrite Hmask. unfold source. rewrite !at_slice.
    rewrite <- Hc0, <- Hc1.
    rewrite (span_inside _ st sb), (span_inside _ sl sr) by lia.
    cbn [fst snd]. repeat rewrite decide_True by lia.
    replace (Z.to_nat st + (y - Z.to_nat dt))%nat
      with (Z.to_nat (st + (Z.of_nat y - dt))) by lia.
    replace (Z.to_nat sl + (x - Z.to_nat dl))%nat
      with (Z.to_nat (sl + (Z.of_nat x - dl))) by lia.
    destruct (at_ chars _ _) as [c|]; [|reflexivity].
    cbn. destruct (c =? space); reflexivity.
  - rewrite decide_False by lia. reflexivity.
Qed.


Lemma assign_shape {A} (dest src : array A) rs cs dest' :
  assign dest rs cs src = Ok dest' ->
  shape0 dest' = shape0 dest /\ shape1 dest' = shape1 dest /\
  (rectangular dest -> rectangular dest').
Proof.
  unfold assign. destruct (decide _); [|discriminate].
  intros [= <-]. apply shape_update.
Qed.

Lemma assign_masked_shape {A} (dest src : array A) rs cs mask dest' :
  assign_masked dest rs cs mask src = Ok dest' ->
  shape0 dest' = shape0 dest /\ shape1 dest' = shape1 dest /\
  (rectangular dest -> rectangular dest').
Proof.
  unfold assign_masked. destruct (decide _); [|discriminate].
  intros [= <-]. apply shape_update.
Qed.

(** ** The two rectangles *)

Lemma overlap_spec h ct cb child_height :
  0 <= h -> 0 <= child_height -> cb = ct + child_height ->
  ct < h -> 0 <= cb ->
  overlap h ct cb child_height
  = ((Z.max ct 0 - ct, Z.min cb h - ct), (Z.max ct 0, Z.min cb h)).
Proof.
  intros Hh Hc -> Hct Hcb. unfold overlap. rewrite !Z.geb_leb.
  destruct (Z.ltb_spec ct 0), (Z.leb_spec h (ct + child_height));
    cbv zeta; repeat f_equal; lia.
Qed.

Lemma off_screen_false h w child :
  off_screen h w child = false ->
  is_visible child = true /\ top child < h /\ 0 <= bottom child /\
  left child < w /\ 0 <= right child.
Proof.
  unfold off_screen. rewrite !orb_false_iff, negb_false_iff, !Z.geb_leb.
  rewrite !Z.leb_gt, !Z.ltb_ge. tauto.
Qed.

(** X11: for a child that is painted, the destination is the part of the
    child's rectangle that lies in the parent, and the source is that part
    in the child's own coordinates: both rectangles have the same size,
    the destination lies in the parent and the source in the child, and
    no bound is negative. *)
Theorem clip_rectangles self child :
  off_screen (height self) (width self) child = false ->
  let dt := Z.max (top child) 0 in
  let db := Z.min (bottom child) (height self) in
  let dl := Z.max (left child) 0 in
  let dr := Z.min (right child) (width self) in
  overlap (height self) (top child) (bottom child) (height child)
  = ((dt - top child, db - top child), (dt, db)) /\
  overlap (width self) (left child) (right child) (width child)
  = ((dl - left child, dr - left child), (dl, dr)) /\
  (0 <= dt <= db /\ db <= height self) /\
  (0 <= dl <= dr /\ dr <= width self) /\
  (0 <= dt - top child /\ db - top child <= height child) /\
  (0 <= dl - left child /\ dr - left child <= width child).
Proof.
  intros Hoff dt db dl dr.
  destruct (off_screen_false _ _ _ Hoff) as (_ & Ht & Hb & Hl & Hr).
  unfold bottom, right in *.
  assert (0 <= height self) by (unfold height; lia).
  assert (0 <= width self) by (unfold width; lia).
  assert (0 <= height child) by (unfold height; lia).
  assert (0 <= width child) by (unfold width; lia).
  split; [apply overlap_spec; auto|].
  split; [apply overlap_spec; auto|].
  unfold dt, db, dl, dr, bottom, right. lia.
Qed.

Lemma clip_rectangles_witness :
  let dt := Z.max (top patch) 0 in
  let db := Z.min (bottom patch) (height screen) in
  let dl := Z.max (left patch) 0 in
  let dr := Z.min (right patch) (width screen) in
  overlap (height screen) (top patch) (bottom patch) (height patch)
  = ((dt - top patch, db - top patch), (dt, db)) /\
  overlap (width screen) (left patch) (right patch) (width patch)
  = ((dl - left patch, dr - left patch), (dl, dr)) /\
  (0 <= dt <= db /\ db <= height screen) /\
  (0 <= dl <= dr /\ dr <= width screen) /\
  (0 <= dt - top patch /\ db - top patch <= height patch) /\
  (0 <= dl - left patch /\ dr - left patch <= width patch).
Proof.
  apply (clip_rectangles screen patch). vm_compute. reflexivity.
Defined.


(** ** The cells a child paints *)

Lemma at_None {A} (a : array A) i j :
  rectangular a ->
  ~ ((i < shape0 a)%nat /\ (j < shape1 a)%nat) -> at_ a i j = None.
Proof.
  intros Ha Hout. destruct (at_ a i j) as [v|] eqn:E; [|reflexivity].
  exfalso. apply Hout. apply (at_Some a i j Ha). rewrite E. eauto.
Qed.

(** The cell the assignment gives is the cell [shown] names. *)
Lemma shown_cell {A} (self child : t) (a : array A) (v : A) (y x : nat) :
  rectangular (canvas child) -> rectangular a ->
  shape0 a = shape0 (canvas child) -> shape1 a = shape1 (canvas child) ->
  Z.of_nat y < height self -> Z.of_nat x < width self ->
  let dt := Z.max (top child) 0 in
  let db := Z.min (bottom child) (height self) in
  let dl := Z.max (left child) 0 in
  let dr := Z.min (right child) (width self) in
  let i := Z.to_nat (dt - top child + (Z.of_nat y - dt)) in
  let j := Z.to_nat (dl - left child + (Z.of_nat x - dl)) in
  (if decide (dt <= Z.of_nat y < db /\ dl <= Z.of_nat x < dr)
   then if is_transparent child
        then match at_ (canvas child) i j with
             | Some c => if c =? space then v else default v (at_ a i j)
             | None => v
             end
        else default v (at_ a i j)
   else v)
  = default v (shown child a y x).
Proof.
  intros Hc Ha H0 H1 Hy Hx dt db dl dr i j. unfold shown.
  destruct (decide (dt <= Z.of_nat y < db /\ dl <= Z.of_nat x < dr))
    as [Hin|Hout].
  - assert (Ei : i = Z.to_nat (Z.of_nat y - top child))
      by (unfold i; f_equal; lia).
    assert (Ej : j = Z.to_nat (Z.of_nat x - left child))
      by (unfold j; f_equal; lia).
    rewrite <- Ei, <- Ej.
    destruct (Z.leb_spec 0 (Z.of_nat y - top child)); [|lia].
    destruct (Z.leb_spec 0 (Z.of_nat x - left child)); [|lia].
    cbn [andb].
    destruct (at_ (canvas child) i j) as [c|] eqn:E.
    + cbn [mbind option_bind].
      destruct (is_transparent child), (c =? space); reflexivity.
    + cbn [mbind option_bind default].
      destruct (is_transparent child); [reflexivity|].
      rewrite (at_None a i j Ha); [reflexivity|].
      rewrite H0, H1. intros Hlt.
      apply (at_Some _ i j Hc) in Hlt. rewrite E in Hlt.
      destruct Hlt as [? [=]].
  - destruct ((0 <=? Z.of_nat y - top child)
              && (0 <=? Z.of_nat x - left child)) eqn:E; [|reflexivity].
    apply andb_true_iff in E. destruct E as [E1 E2].
    apply Z.leb_le in E1, E2.
    rewrite (at_None (canvas child)); [reflexivity | exact Hc |].
    unfold dt, db, dl, dr, bottom, right, height, width in *. lia.
Qed.

(** Painting a child that is on the screen, whatever the [render] of the
    child does to its arrays, as long as it keeps their shape. *)
Lemma paint_child_cells (render : t -> result t) self child child' :
  well_formed self -> well_formed child' ->
  off_screen (height self) (width self) child = false ->
  render child = Ok child' ->
  top child' = top child -> left child' = left child ->
  shape0 (canvas child') = shape0 (canvas child) ->
  shape1 (canvas child') = shape1 (canvas child) ->
  exists self',
    _render_child render self child = Ok (self', child') /\
    well_formed self' /\
    forall y x,
      at_ (canvas self') y x
      = (fun old => default old (shown child' (canvas child') y x))
        <$> at_ (canvas self) y x /\
      at_ (colors self') y x
      = (fun old => default old (shown child' (colors child') y x))
        <$> at_ (colors self) y x.
Proof.
  intros (Wc & Wk & W0 & W1) (Cc & Ck & C0 & C1) Hoff Hr Htop Hleft S0 S1.
  destruct (off_screen_false _ _ _ Hoff) as (_ & Ht & Hb & Hl & Hrt).
  assert (Hh : height child' = height child) by (unfold height; congruence).
  assert (Hw : width child' = width child) by (unfold width; congruence).
  assert (Hbot : bottom child' = bottom child)
    by (unfold bottom; congruence).
  assert (Hright : right child' = right child)
    by (unfold right; congruence).
  unfold _render_child. fold (height self) (width self).
  rewrite Hoff, Hr, RayCaster.bind_ret, Hh, Hw.
  assert (Hself0 : 0 <= height self) by (unfold height; lia).
  assert (Hself1 : 0 <= width self) by (unfold width; lia).
  assert (Hch0 : 0 <= height child) by (unfold height; lia).
  assert (Hch1 : 0 <= width child) by (unfold width; lia).
  rewrite (overlap_spec (height self)), (overlap_spec (width self))
    by (auto; reflexivity).
  cbv zeta. rewrite <- Htop, <- Hleft, <- Hbot, <- Hright.
  rewrite <- Htop in Ht. rewrite <- Hleft in Hl.
  rewrite <- Hbot in Hb. rewrite <- Hright in Hrt.
  rewrite <- Hh in Hch0. rewrite <- Hw in Hch1.
  clear Hoff Hr Htop Hleft S0 S1 Hbot Hright Hh Hw child.
  set (dt := Z.max (top child') 0). set (db := Z.min (bottom child') (height self)).
  set (dl := Z.max (left child') 0). set (dr := Z.min (right child') (width self)).
  assert (Bt : 0 <= dt <= db /\ db <= height self /\
               0 <= dt - top child' <= db - top child' /\
               db - top child' <= height child')
    by (unfold dt, db, bottom in *; lia).
  assert (Bl : 0 <= dl <= dr /\ dr <= width self /\
               0 <= dl - left child' <= dr - left child' /\
               dr - left child' <= width child')
    by (unfold dl, dr, right in *; lia).
  unfold height, width in Bt, Bl.
  unfold paint. cbn [fst snd].
  assert (Hcell : forall {A} (a : array A) v y x,
            rectangular a ->
            shape0 a = shape0 (canvas child') ->
            shape1 a = shape1 (canvas child') ->
            (y < shape0 (canvas self))%nat -> (x < shape1 (canvas self))%nat ->
            _ = default v (shown child' a y x))
    by (intros A a v y x Ha A0 A1 Hy Hx;
        apply (shown_cell self child' a v y x Cc Ha A0 A1);
        unfold height, width; lia).
  fold dt db dl dr in Hcell.
  destruct (is_transparent child') eqn:Htr.
  - destruct (assign_masked_cells (canvas self) (canvas child') (canvas child')
                dt db dl dr (dt - top child') (db - top child')
                (dl - left child') (dr - left child'))
      as (cv & Ecv & V0 & V1 & Vr & Vcell); try lia; try reflexivity.
    destruct (assign_masked_cells (colors self) (colors child') (canvas child')
                dt db dl dr (dt - top child') (db - top child')
                (dl - left child') (dr - left child'))
      as (cl & Ecl & L0 & L1 & Lr & Lcell); try lia; try assumption.
    cbv zeta in Ecv, Ecl. rewrite Ecv, RayCaster.bind_ret, Ecl, RayCaster.bind_ret.
    eexists. split; [reflexivity|]. unfold well_formed.
    cbn [with_arrays canvas colors]. split.
    + split; [auto|]. split; [auto|]. split; congruence.
    + intros y x. rewrite Vcell, Lcell. split.
      * destruct (at_ (canvas self) y x) as [v|] eqn:E; [|reflexivity].
        cbn [fmap option_fmap option_map]. f_equal.
        assert (Hyx : (y < shape0 (canvas self))%nat /\
                      (x < shape1 (canvas self))%nat)
          by (apply (at_Some _ y x Wc); rewrite E; eauto).
        rewrite <- (Hcell _ (canvas child') v y x Cc eq_refl eq_refl
                      (proj1 Hyx) (proj2 Hyx)).
        reflexivity.
      * destruct (at_ (colors self) y x) as [v|] eqn:E; [|reflexivity].
        cbn [fmap option_fmap option_map]. f_equal.
        assert (Hyx : (y < shape0 (colors self))%nat /\
                      (x < shape1 (colors self))%nat)
          by (apply (at_Some _ y x Wk); rewrite E; eauto).
        rewrite W0, W1 in Hyx.
        rewrite <- (Hcell _ (colors child') v y x Ck C0 C1
                      (proj1 Hyx) (proj2 Hyx)).
        reflexivity.
  - destruct (assign_cells (canvas self) (canvas child')
                dt db dl dr (dt - top child') (db - top child')
                (dl - left child') (dr - left child'))
      as (cv & Ecv & V0 & V1 & Vr & Vcell); try lia.
    destruct (assign_cells (colors self) (colors child')
                dt db dl dr (dt - top child') (db - top child')
                (dl - left child') (dr - left child'))
      as (cl & Ecl & L0 & L1 & Lr & Lcell); try lia.
    rewrite Ecv, RayCaster.bind_ret, Ecl, RayCaster.bind_ret.
    eexists. split; [reflexivity|]. unfold well_formed.
    cbn [with_arrays canvas colors]. split.
    + split; [auto|]. split; [auto|]. split; congruence.
    + intros y x. rewrite Vcell, Lcell. split.
      * destruct (at_ (canvas self) y x) as [v|] eqn:E; [|reflexivity].
        cbn [fmap option_fmap option_map]. f_equal.
        assert (Hyx : (y < shape0 (canvas self))%nat /\
                      (x < shape1 (canvas self))%nat)
          by (apply (at_Some _ y x Wc); rewrite E; eauto).
        rewrite <- (Hcell _ (canvas child') v y x Cc eq_refl eq_refl
                      (proj1 Hyx) (proj2 Hyx)).
        reflexivity.
      * destruct (at_ (colors self) y x) as [v|] eqn:E; [|reflexivity].
        cbn [fmap option_fmap option_map]. f_equal.
        assert (Hyx : (y < shape0 (colors self))%nat /\
                      (x < shape1 (colors self))%nat)
          by (apply (at_Some _ y x Wk); rewrite E; eauto).
        rewrite W0, W1 in Hyx.
        rewrite <- (Hcell _ (colors child') v y x Ck C0 C1
                      (proj1 Hyx) (proj2 Hyx)).
        reflexivity.
Qed.


(** ** [render] keeps the geometry *)

Lemma paint_keeps self child dest_rect source_rect self' child' :
  paint self child dest_rect source_rect = Ok (self', child') ->
  child' = child /\ children self' = children self /\
  geometry self' = geometry self /\
  (well_formed self -> well_formed self').
Proof.
  unfold paint. intros Hp.
  assert (Hgen : forall cv cl,
            (shape0 cv = shape0 (canvas self) /\
             shape1 cv = shape1 (canvas self) /\
             (rectangular (canvas self) -> rectangular cv)) ->
            (shape0 cl = shape0 (colors self) /\
             shape1 cl = shape1 (colors self) /\
             (rectangular (colors self) -> rectangular cl)) ->
            children (with_arrays self cv cl) = children self /\
            geometry (with_arrays self cv cl) = geometry self /\
            (well_formed self -> well_formed (with_arrays self cv cl))).
  { intros cv cl (V0 & V1 & Vr) (L0 & L1 & Lr).
    split; [reflexivity|]. split.
    - unfold geometry. cbn [with_arrays top left is_transparent is_visible
                            canvas colors].
      rewrite V0, V1, L0, L1. reflexivity.
    - intros (Wc & Wk & W0 & W1). unfold well_formed.
      cbn [with_arrays canvas colors].
      split; [auto|]. split; [auto|]. split; congruence. }
  destruct (is_transparent child);
    apply RayCaster.bind_Ok in Hp; destruct Hp as (cv & Ecv & Hp);
    apply RayCaster.bind_Ok in Hp; destruct Hp as (cl & Ecl & Hp);
    injection Hp as <- <-; (split; [reflexivity|]); apply Hgen;
    first [ eapply assign_masked_shape; eassumption
          | eapply assign_shape; eassumption ].
Qed.

Lemma render_child_keeps render self child self' child' :
  _render_child render self child = Ok (self', child') ->
  children self' = children self /\ geometry self' = geometry self /\
  (well_formed self -> well_formed self') /\
  (off_screen (height self) (width self) child = true ->
   self' = self /\ child' = child) /\
  (off_screen (height self) (width self) child = false ->
   render child = Ok child').
Proof.
  unfold _render_child. fold (height self) (width self).
  destruct (off_screen (height self) (width self) child) eqn:Hoff.
  - intros [= <- <-]. split; [reflexivity|]. split; [reflexivity|].
    split; [auto|]. split; [auto | discriminate].
  - intros Hp. apply RayCaster.bind_Ok in Hp. destruct Hp as (c & Ec & Hp).
    destruct (overlap (height self) _ _ _) as [[st sb] [dt db]].
    destruct (overlap (width self) _ _ _) as [[sl sr] [dl dr]].
    cbv zeta in Hp. apply paint_keeps in Hp.
    destruct Hp as (-> & Hc & Hg & Hw).
    split; [exact Hc|]. split; [exact Hg|]. split; [exact Hw|].
    split; [discriminate | intros _; exact Ec].
Qed.

Lemma render_eq self :
  render self
  = ('(self', children) ← render_children render self (children self);
     Ok (with_children self' children)).
Proof. destruct self. reflexivity. Qed.

Lemma render_children_cons render self child children :
  render_children render self (child :: children)
  = ('(self, child) ← _render_child render self child;
     '(self, children) ← render_children render self children;
     Ok (self, child :: children)).
Proof. reflexivity. Qed.

Lemma render_children_keeps render children :
  forall self self' children',
    render_children render self children = Ok (self', children') ->
    geometry self' = geometry self /\
    (well_formed self -> well_formed self').
Proof.
  induction children as [|child children IH]; intros self self' cs' Hr.
  - injection Hr as <- <-. auto.
  - rewrite render_children_cons in Hr.
    apply RayCaster.bind_Ok in Hr. destruct Hr as ([s1 c1] & E1 & Hr).
    apply RayCaster.bind_Ok in Hr. destruct Hr as ([s2 cs2] & E2 & Hr).
    injection Hr as <- <-.
    destruct (render_child_keeps _ _ _ _ _ E1) as (_ & G1 & W1 & _).
    destruct (IH _ _ _ E2) as (G2 & W2).
    split; [congruence | auto].
Qed.

Lemma render_keeps self self' :
  render self = Ok self' ->
  geometry self' = geometry self /\ (well_formed self -> well_formed self').
Proof.
  rewrite render_eq. intros Hr.
  apply RayCaster.bind_Ok in Hr. destruct Hr as ([s1 cs] & E & Hr).
  injection Hr as <-.
  destruct (render_children_keeps _ _ _ _ _ E) as (G & W).
  split; [exact G | exact W].
Qed.

(** X12: painting a child that is on the screen succeeds when the child's
    own [render] does, and every cell of the parent then shows the child
    where the child has a cell over it (for a transparent child: a cell
    that is not a space), and is as it was everywhere else, in the canvas
    and in the colors. *)
Theorem render_child_cells self child child' :
  well_formed self -> well_formed child ->
  off_screen (height self) (width self) child = false ->
  render child = Ok child' ->
  exists self',
    _render_child render self child = Ok (self', child') /\
    well_formed self' /\
    forall y x,
      at_ (canvas self') y x
      = (fun old => default old (shown child' (canvas child') y x))
        <$> at_ (canvas self) y x /\
      at_ (colors self') y x
      = (fun old => default old (shown child' (colors child') y x))
        <$> at_ (colors self) y x.
Proof.
  intros Ws Wc Hoff Hr.
  destruct (render_keeps _ _ Hr) as (G & W). unfold geometry in G.
  injection G as Gt Gl _ _ G0 G1 _ _.
  apply (paint_child_cells render self child child'); auto.
Qed.

Lemma render_child_cells_witness :
  exists self',
    _render_child render screen patch = Ok (self', patch) /\
    well_formed self' /\
    forall y x,
      at_ (canvas self') y x
      = (fun old => default old (shown patch (canvas patch) y x))
        <$> at_ (canvas screen) y x /\
      at_ (colors self') y x
      = (fun old => default old (shown patch (colors patch) y x))
        <$> at_ (colors screen) y x.
Proof.
  apply (render_child_cells screen patch patch).
  - unfold well_formed, rectangular. cbn.
    split; [repeat constructor|]. split; [repeat constructor|].
    split; reflexivity.
  - unfold well_formed, rectangular. cbn.
    split; [repeat constructor|]. split; [repeat constructor|].
    split; reflexivity.
  - vm_compute. reflexivity.
  - vm_compute. reflexivity.
Defined.


(** ** The children of a widget, first to last *)

Lemma off_screen_geometry h w child child' :
  geometry child' = geometry child ->
  off_screen h w child' = off_screen h w child.
Proof.
  unfold geometry. intros [= Ht Hl _ Hv H0 H1 _ _].
  unfold off_screen, bottom, right, height, width.
  rewrite Ht, Hl, Hv, H0, H1. reflexivity.
Qed.

Lemma render_children_cells children :
  forall self self' children',
    render_children render self children = Ok (self', children') ->
    well_formed self -> Forall well_formed children ->
    forall y x,
      at_ (canvas self') y x
      = composite canvas (painted (height self) (width self) children') y x
        <$> at_ (canvas self) y x /\
      at_ (colors self') y x
      = composite colors (painted (height self) (width self) children') y x
        <$> at_ (colors self) y x.
Proof.
  induction children as [|child children IH];
    intros self self' cs' Hr Ws Wcs y x.
  - injection Hr as <- <-. cbn.
    split; (destruct (at_ _ y x); reflexivity).
  - rewrite render_children_cons in Hr.
    apply RayCaster.bind_Ok in Hr. destruct Hr as ([s1 c1] & E1 & Hr).
    apply RayCaster.bind_Ok in Hr. destruct Hr as ([s2 cs2] & E2 & Hr).
    injection Hr as <- <-.
    apply Forall_cons in Wcs. destruct Wcs as [Wc Wcs].
    destruct (render_child_keeps _ _ _ _ _ E1) as (_ & G1 & W1 & Hoff & Hon).
    assert (Hh : height s1 = height self /\ width s1 = width self).
    { unfold geometry in G1. injection G1 as _ _ _ _ G0 G1 _ _.
      unfold height, width. split; congruence. }
    destruct Hh as [Hh Hw].
    destruct (IH _ _ _ E2 (W1 Ws) Wcs y x) as [IHc IHk].
    rewrite Hh, Hw in IHc, IHk. rewrite IHc, IHk. unfold painted.
    destruct (off_screen (height self) (width self) child) eqn:Eoff.
    + destruct (Hoff eq_refl) as [-> ->].
      rewrite filter_cons_False by congruence. split; reflexivity.
    + specialize (Hon eq_refl).
      destruct (render_keeps _ _ Hon) as (G & W). 
      assert (Eoff1 : off_screen (height self) (width self) c1 = false)
        by (rewrite (off_screen_geometry _ _ _ _ G); exact Eoff).
      rewrite filter_cons_True by exact Eoff1.
      unfold geometry in G. injection G as Gt Gl _ _ G0 G1' _ _.
      destruct (paint_child_cells render self child c1 Ws (W Wc) Eoff Hon
                  Gt Gl G0 G1') as (s1' & E1' & _ & Hcells).
      rewrite E1 in E1'. injection E1' as <-.
      destruct (Hcells y x) as [Hc Hk]. rewrite Hc, Hk.
      split; [destruct (at_ (canvas self) y x)
             | destruct (at_ (colors self) y x)]; reflexivity.
Qed.

(** X13: after [render], a cell of the widget shows the last of its
    painted children (the visible ones on its screen, in the order of the
    list) that has a cell over it, a space of a transparent child not
    counting, and is as it was where no child has one. *)
Theorem render_cells self self' :
  well_formed self -> Forall well_formed (children self) ->
  render self = Ok self' ->
  forall y x,
    at_ (canvas self') y x
    = composite canvas
        (painted (height self) (width self) (children self')) y x
      <$> at_ (canvas self) y x /\
    at_ (colors self') y x
    = composite colors
        (painted (height self) (width self) (children self')) y x
      <$> at_ (colors self) y x.
Proof.
  intros Ws Wcs Hr. rewrite render_eq in Hr.
  apply RayCaster.bind_Ok in Hr. destruct Hr as ([s1 cs] & E & Hr).
  injection Hr as <-. cbn [with_children canvas colors children].
  apply (render_children_cells _ _ _ _ E Ws Wcs).
Qed.

(** [render_cells] at the cell (2, 3) of the desk, which both children
    cover: it shows the letter of the second one. *)
Lemma render_cells_witness :
  at_ (canvas desk) 2 3
  = composite canvas
      (painted (height (with_children screen [patch; corner]))
               (width (with_children screen [patch; corner]))
               (children desk)) 2 3
    <$> at_ (canvas (with_children screen [patch; corner])) 2 3 /\
  at_ (colors desk) 2 3
  = composite colors
      (painted (height (with_children screen [patch; corner]))
               (width (with_children screen [patch; corner]))
               (children desk)) 2 3
    <$> at_ (colors (with_children screen [patch; corner])) 2 3.
Proof.
  refine (render_cells (with_children screen [patch; corner]) desk _ _ _
            2%nat 3%nat).
  - unfold well_formed, rectangular. cbn.
    split; [repeat constructor|]. split; [repeat constructor|].
    split; reflexivity.
  - repeat constructor.
  - vm_compute. reflexivity.
Defined.


(** ** The list of children *)

Section Children.
Context {A : Type} `{EqDecision A}.

Lemma list_remove_Ok (x : A) l :
  forall l',
    list_remove x l = Ok l' ->
    exists l1 l2, l = l1 ++ x :: l2 /\ l' = l1 ++ l2 /\ x ∉ l1.
Proof.
  induction l as [|y l IH]; intros l' Hl; [discriminate|].
  cbn [list_remove] in Hl. destruct (decide (x = y)) as [->|Hne].
  - injection Hl as <-. exists [], l. split; [reflexivity|].
    split; [reflexivity | apply not_elem_of_nil].
  - apply RayCaster.bind_Ok in Hl. destruct Hl as (l0 & E & Hl).
    injection Hl as <-.
    destruct (IH _ E) as (l1 & l2 & -> & -> & Hout).
    exists (y :: l1), l2. split; [reflexivity|]. split; [reflexivity|].
    apply not_elem_of_cons. split; [exact Hne | exact Hout].
Qed.

Lemma list_remove_Raise (x : A) l :
  x ∉ l <-> list_remove x l = Raise ValueError.
Proof.
  induction l as [|y l IH]; cbn [list_remove].
  - split; [reflexivity | intros _; apply not_elem_of_nil].
  - rewrite not_elem_of_cons. destruct (decide (x = y)) as [->|Hne].
    + split; [tauto | discriminate].
    + rewrite IH. destruct (list_remove x l) as [l0|e]; cbn.
      * split; [intros [_ Hl]; discriminate Hl | discriminate].
      * split; [intros [_ Hl]; exact Hl | intros Hl; split; assumption].
Qed.

(** X14: [pull_to_front] raises [ValueError] exactly for a widget that
    is not a child; otherwise the widget is the last child afterwards,
    so it is painted last, the children are the same up to order, and
    the others keep their order.  Removing a widget that was just added
    gives back the list when the widget was not a child already
    ([list.remove] takes out the first occurrence). *)
Theorem pull_to_front_last (children : list A) (widget : A) :
  (widget ∉ children <->
   pull_to_front children widget = Raise ValueError) /\
  (forall children',
     pull_to_front children widget = Ok children' ->
     last children' = Some widget /\
     children' ≡ₚ children /\
     filter (fun w => w <> widget) children'
     = filter (fun w => w <> widget) children) /\
  (widget ∉ children ->
   remove_widget (add_widget children widget) widget = Ok children).
Proof.
  split; [|split].
  - unfold pull_to_front. rewrite list_remove_Raise.
    destruct (list_remove widget children); cbn; split;
      try discriminate; auto.
  - intros cs Hp. unfold pull_to_front in Hp.
    apply RayCaster.bind_Ok in Hp. destruct Hp as (l & E & Hp). injection Hp as <-.
    destruct (list_remove_Ok _ _ _ E) as (l1 & l2 & -> & -> & Hout).
    split; [apply last_snoc|]. split.
    + rewrite <- app_assoc. apply Permutation_app_head.
      rewrite <- Permutation_cons_append. reflexivity.
    + rewrite !filter_app.
      rewrite (filter_cons_False _ widget l2)
        by (intros Hw; apply Hw; reflexivity).
      rewrite (filter_cons_False _ widget [])
        by (intros Hw; apply Hw; reflexivity).
      rewrite filter_nil, app_nil_r. reflexivity.
  - unfold remove_widget, add_widget. intros Hout.
    induction children as [|y l IH]; cbn.
    + rewrite decide_True by reflexivity. reflexivity.
    + apply not_elem_of_cons in Hout. destruct Hout as [Hne Hout].
      rewrite decide_False by exact Hne. rewrite (IH Hout).
      reflexivity.
Qed.

End Children.

Lemma pull_to_front_last_witness :
  last [1; 3; 2]%nat = Some 2%nat /\
  [1; 3; 2]%nat ≡ₚ [1; 2; 3]%nat /\
  filter (fun w => w <> 2%nat) [1; 3; 2]%nat
  = filter (fun w => w <> 2%nat) [1; 2; 3]%nat.
Proof.
  apply (proj1 (proj2 (pull_to_front_last [1; 2; 3]%nat 2%nat))).
  reflexivity.
Defined.

End WidgetFacts.

(** * The animated toggle: the knob stays on the block characters *)

Module FlatToggleFacts.
Import FlatToggle.

Lemma index_cases p :
  0 <= p <= 5 -> p = 0 \/ p = 1 \/ p = 2 \/ p = 3 \/ p = 4 \/ p = 5.
Proof. lia. Qed.

Lemma py_range_down p :
  0 <= p <= 5 -> Forall (fun i => 0 <= i <= 5) (py_range (p - 1) (-1) (-1)).
Proof.
  intros Hp.
  destruct (index_cases p Hp) as [->|[->|[->|[->|[->| ->]]]]];
    vm_compute; repeat constructor; discriminate.
Qed.

Lemma py_range_up p :
  0 <= p <= 5 -> Forall (fun i => 0 <= i <= 5) (py_range (p + 1) 6 1).
Proof.
  intros Hp.
  destruct (index_cases p Hp) as [->|[->|[->|[->|[->| ->]]]]];
    vm_compute; repeat constructor; discriminate.
Qed.

Lemma item_block i :
  0 <= i <= 5 -> exists c, item TOGGLE_BLOCK i = Ok c.
Proof.
  intros Hi.
  destruct (index_cases i Hi) as [->|[->|[->|[->|[->| ->]]]]];
    eexists; reflexivity.
Qed.

(** A turn of the loop keeps the invariant, and raises nothing. *)
Lemma turn_invariant s r :
  0 <= _animation_progess s <= 5 ->
  item TOGGLE_BLOCK (_animation_progess s) = Ok (block s) ->
  Forall (fun i => 0 <= i <= 5) r ->
  exists s', turn s r = Ok s' /\ invariant s'.
Proof.
  intros Hp Hb Hr. destruct r as [|i r]; cbn [turn].
  - eexists. split; [reflexivity|]. unfold invariant. cbn.
    split; [exact Hp|]. split; [exact Hb | discriminate].
  - apply Forall_cons in Hr. destruct Hr as [Hi Hr].
    destruct (item_block i Hi) as [c Hc]. rewrite Hc.
    eexists. split; [reflexivity|]. unfold invariant. cbn.
    split; [exact Hi|]. split; [exact Hc|]. intros r' [= <-]. exact Hr.
Qed.

Lemma resume_invariant s :
  invariant s -> exists s', resume s = Ok s' /\ invariant s'.
Proof.
  intros (Hp & Hb & Hr). unfold resume.
  destruct (_animation_task s) as [| |r| |] eqn:E;
    try (exists s; split; [reflexivity|];
         split; [exact Hp|]; split; [exact Hb|]; rewrite E; discriminate).
  - unfold _animate_toggle. destruct (toggle_state s).
    + apply turn_invariant; [exact Hp | exact Hb | apply py_range_down, Hp].
    + apply turn_invariant; [exact Hp | exact Hb | apply py_range_up, Hp].
  - apply turn_invariant; [exact Hp | exact Hb | apply Hr; reflexivity].
Qed.

Lemma step_invariant s e :
  invariant s -> exists s', step s e = Ok s' /\ invariant s'.
Proof.
  intros Hs. destruct e as [st| |]; cbn [step].
  - eexists. split; [reflexivity|]. destruct Hs as (Hp & Hb & _).
    split; [exact Hp|]. split; [exact Hb | discriminate].
  - apply resume_invariant, Hs.
  - eexists. split; [reflexivity|]. destruct Hs as (Hp & Hb & Hr).
    split; [exact Hp|]. split; [exact Hb|]. cbn.
    destruct (_animation_task s); discriminate.
Qed.

(** X15: however the toggle is switched, resumed by the event loop and
    removed, [_animation_progess] stays an index of [TOGGLE_BLOCK] from 0
    to 5, the canvas shows the block of that index, and no event raises:
    [TOGGLE_BLOCK[i]] is never read outside the string. *)
Theorem toggle_invariant s :
  reachable s ->
  (0 <= _animation_progess s <= 5 /\
   item TOGGLE_BLOCK (_animation_progess s) = Ok (block s)) /\
  forall e, exists s', step s e = Ok s'.
Proof.
  intros Hs.
  assert (Hinv : invariant s).
  { induction Hs as [st|s e s' _ IH He].
    - destruct st; (split; [cbn; lia|]); (split; [reflexivity | discriminate]).
    - destruct (step_invariant s e IH) as (s1 & E1 & H1). congruence. }
  split; [split; apply Hinv|]. intros e.
  destruct (step_invariant s e Hinv) as (s' & E & _). eauto.
Qed.

Lemma toggle_invariant_witness :
  (0 <= _animation_progess (new OFF) <= 5 /\
   item TOGGLE_BLOCK (_animation_progess (new OFF)) = Ok (block (new OFF))) /\
  forall e, exists s', step (new OFF) e = Ok s'.
Proof. apply (toggle_invariant (new OFF)). apply reach_new. Defined.

(** X16: an animation that is not cancelled ends after at most six turns
    of the event loop with the knob at rest, at index 0 when the toggle
    is on and at index 5 when it is off, wherever it started, and calls
    the callback once, with the toggle state. *)
Theorem animation_completes s :
  0 <= _animation_progess s <= 5 ->
  item TOGGLE_BLOCK (_animation_progess s) = Ok (block s) ->
  _animation_task s = Pending ->
  exists s',
    run 6 s = Ok s' /\
    _animation_task s' = Finished /\
    _animation_progess s' = rest (toggle_state s) /\
    item TOGGLE_BLOCK (rest (toggle_state s)) = Ok (block s') /\
    callbacks s' = callbacks s ++ [toggle_state s].
Proof.
  intros Hp Hb Ht. destruct s as [st p b k task calls]. cbn in Hp, Hb, Ht.
  subst task.
  destruct (index_cases p Hp) as [->|[->|[->|[->|[->| ->]]]]];
    destruct st; eexists; (split; [reflexivity|]);
    cbn in *; (split; [reflexivity|]); (split; [reflexivity|]);
    (split; [first [reflexivity | exact Hb] | reflexivity]).
Qed.

Lemma animation_completes_witness :
  exists s',
    run 6 (set_toggle_state (new OFF) ON) = Ok s' /\
    _animation_task s' = Finished /\
    _animation_progess s' = 0 /\
    item TOGGLE_BLOCK 0 = Ok (block s') /\
    callbacks s' = [ON].
Proof.
  apply (animation_completes (set_toggle_state (new OFF) ON)).
  - cbn. lia.
  - reflexivity.
  - reflexivity.
Defined.

End FlatToggleFacts.
